(** * counterpartyd, [lib/bitcoin.py]: transaction crafting and data embedding

    A shallow embedding of the address codec ([base58_check_encode],
    [base58_decode]), the wire primitives ([var_int], [op_push]), the
    serialiser ([serialise]), coin selection ([get_inputs]) and the
    transaction assembler ([transaction]) of [lib/bitcoin.py], of the
    transaction hash that [get_unspent_txouts] computes and of the functions
    that talk to bitcoind ([connect], [rpc], [transmit]), followed by the
    properties established about them.

    Conventions.
    - A Python [bytes] object is a [list byte]; a Python [str] is a [string].
    - A Python [int] is a [Z]; a Python [float] is an IEEE 754 double, a
      [spec_float] with 53 bits of precision, and its arithmetic is that of
      [SpecFloat].  A JSON number (the amount of a coin, in BTC) is an [int]
      or a [float]; [round] rounds a [float] to the nearest [int], ties to
      even.
    - An exception is a value of [exn]; code that can raise returns
      [exn + A].  Code that talks to bitcoind runs in the monad [M], which
      reads the surroundings (configuration, bitcoind, pycoin) and threads
      the log of the calls of [rpc] made so far.
    - [hashlib.sha256] is SHA-256, written out in [SHA256] and checked on
      test vectors; the modules [config] and [exceptions], bitcoind and
      pycoin are not part of [lib/bitcoin.py]: what the code reads from
      them, or gets from them, is a parameter. *)

From Stdlib Require Import Strings.Ascii Strings.String Strings.Byte.
From Stdlib Require Import ZArith QArith Bool Lia List DecimalString.
From Stdlib Require Import Floats.SpecFloat.
Import ListNotations.

#[local] Open Scope Z_scope.

(* ================================================================== *)
(** * Part I.  Definitions                                              *)
(* ================================================================== *)

(** ** Bytes *)

Definition bytes := list byte.

Definition Z_of_byte (b : byte) : Z := Z.of_N (Byte.to_N b).

Definition byte_of_Z (z : Z) : byte :=
  match Byte.of_N (Z.to_N (z mod 256)) with
  | Some b => b
  | None => x00
  end.

Definition byte_eqb (a b : byte) : bool := Byte.eqb a b.

Fixpoint bytes_eqb (a b : bytes) : bool :=
  match a, b with
  | [], [] => true
  | x :: a', y :: b' => byte_eqb x y && bytes_eqb a' b'
  | _, _ => false
  end.

(** [s[-n:]] and [s[:-n]] for [n > 0]. *)
Definition lastn {A} (n : nat) (l : list A) : list A := skipn (length l - n) l.
Definition droplast {A} (n : nat) (l : list A) : list A := firstn (length l - n) l.

(** [str.encode(s)]; a [string] is kept as its UTF-8 byte sequence. *)
Definition str_encode (s : string) : bytes := list_byte_of_string s.

(** ** Exceptions *)

Inductive exn : Type :=
| InvalidBase58Error (c : ascii)          (* exceptions.InvalidBase58Error *)
| VersionByteError                        (* exceptions.VersionByteError *)
| Base58ChecksumError (chk0 chk1 : bytes) (* exceptions.Base58ChecksumError *)
| InvalidAddressError (msg : string) (address : string)
| TransactionError (msg : string)
| BalanceError (source : string) (need : Q)
| BitcoindError (msg : string)
| BitcoindRPCError (msg : string)
| AssertionError
| OverflowError                           (* int.to_bytes: int too big / negative *)
| BinasciiError                           (* binascii.unhexlify on a bad string *)
| NameError (name : string)
| IndexError
| ZeroDivisionError
| ValueError                              (* int(_, 16) on a bad string *)
| ForeignError (msg : string).            (* raised inside pycoin *)

Definition result (A : Type) : Type := (exn + A)%type.
Definition Ok {A} (a : A) : result A := inr a.
Definition Raise {A} (e : exn) : result A := inl e.

Definition rbind {A B} (r : result A) (k : A -> result B) : result B :=
  match r with
  | inl e => inl e
  | inr a => k a
  end.

Declare Scope result_scope.
Delimit Scope result_scope with result.
Notation "'let?' x ':=' r 'in' k" := (rbind r (fun x => k))
  (at level 10, x pattern, r at level 100, k at level 200) : result_scope.
#[local] Open Scope result_scope.

(** ** [binascii.hexlify], [binascii.unhexlify], [int(_, 16)], ['%x' % n] *)

Definition hex_char (d : Z) : ascii :=
  if d <? 10 then ascii_of_nat (Z.to_nat (48 + d))
  else ascii_of_nat (Z.to_nat (87 + d)).

(** Value of a hexadecimal character, either case, as [unhexlify] and
    [int(_, 16)] take it. *)
Definition hex_val (c : ascii) : option Z :=
  let n := Z.of_nat (nat_of_ascii c) in
  if (48 <=? n) && (n <=? 57) then Some (n - 48)
  else if (97 <=? n) && (n <=? 102) then Some (n - 87)
  else if (65 <=? n) && (n <=? 70) then Some (n - 55)
  else None.

Fixpoint hexlify_chars (b : bytes) : list ascii :=
  match b with
  | [] => []
  | x :: b' =>
      hex_char (Z_of_byte x / 16) :: hex_char (Z_of_byte x mod 16)
               :: hexlify_chars b'
  end.

Definition hexlify (b : bytes) : string :=
  string_of_list_ascii (hexlify_chars b).

Fixpoint unhexlify_chars (l : list ascii) : option bytes :=
  match l with
  | [] => Some []
  | c1 :: c2 :: l' =>
      match hex_val c1, hex_val c2, unhexlify_chars l' with
      | Some h, Some lo, Some r => Some (byte_of_Z (16 * h + lo) :: r)
      | _, _, _ => None
      end
  | [_] => None
  end.

Definition unhexlify (s : string) : result bytes :=
  match unhexlify_chars (list_ascii_of_string s) with
  | Some b => Ok b
  | None => Raise BinasciiError
  end.

(** The bytes written in hexadecimal in [s] (none if [s] is ill-formed). *)
Definition bytes_of_hex (s : string) : bytes :=
  match unhexlify s with inr b => b | inl _ => [] end.

(** [int(h, 16)] on a list of hexadecimal characters. *)
Fixpoint int16_acc (acc : Z) (l : list ascii) : option Z :=
  match l with
  | [] => Some acc
  | c :: l' =>
      match hex_val c with
      | Some d => int16_acc (16 * acc + d) l'
      | None => None
      end
  end.

Definition int16 (l : list ascii) : option Z := int16_acc 0 l.

(** The digits of [n] in base [b], most significant first, none for [0];
    [fuel] bounds the number of digits. *)
Fixpoint digits_acc (b : Z) (fuel : nat) (n : Z) (acc : list Z) : list Z :=
  match fuel with
  | O => acc
  | S f => if n <=? 0 then acc
           else digits_acc b f (n / b) (n mod b :: acc)
  end.

Definition digits (b n : Z) : list Z :=
  digits_acc b (S (Z.to_nat (Z.log2 n))) n [].

(** ['%x' % n] for [n >= 0]. *)
Definition percent_x (n : Z) : list ascii :=
  if n =? 0 then ["0"%char] else map hex_char (digits 16 n).

(** ** SHA-256 ([hashlib.sha256]) and [dhash] *)

Module SHA256.

Definition w32 (x : Z) : Z := x mod 4294967296.
Definition add32 (x y : Z) : Z := w32 (x + y).
Definition rotr (n x : Z) : Z :=
  Z.lor (Z.shiftr x n) (w32 (Z.shiftl x (32 - n))).
Definition not32 (x : Z) : Z := 4294967295 - x.

Definition Ch (x y z : Z) : Z := Z.lxor (Z.land x y) (Z.land (not32 x) z).
Definition Maj (x y z : Z) : Z :=
  Z.lxor (Z.lxor (Z.land x y) (Z.land x z)) (Z.land y z).
Definition Sigma0 (x : Z) : Z :=
  Z.lxor (Z.lxor (rotr 2 x) (rotr 13 x)) (rotr 22 x).
Definition Sigma1 (x : Z) : Z :=
  Z.lxor (Z.lxor (rotr 6 x) (rotr 11 x)) (rotr 25 x).
Definition sigma0 (x : Z) : Z :=
  Z.lxor (Z.lxor (rotr 7 x) (rotr 18 x)) (Z.shiftr x 3).
Definition sigma1 (x : Z) : Z :=
  Z.lxor (Z.lxor (rotr 17 x) (rotr 19 x)) (Z.shiftr x 10).

(** The round constants are the first 32 bits of the fractional parts of
    the cube roots of the first 64 primes; the initial hash value those of
    the square roots of the first 8 primes. *)
Definition primes : list Z :=
  [2; 3; 5; 7; 11; 13; 17; 19; 23; 29; 31; 37; 41; 43; 47; 53; 59; 61; 67;
   71; 73; 79; 83; 89; 97; 101; 103; 107; 109; 113; 127; 131; 137; 139; 149;
   151; 157; 163; 167; 173; 179; 181; 191; 193; 197; 199; 211; 223; 227;
   229; 233; 239; 241; 251; 257; 263; 269; 271; 277; 281; 283; 293; 307;
   311].

(** The integer cube root of [x], below [2 ^ n], refining [r] bit by bit. *)
Fixpoint cbrt_bits (n : nat) (x r : Z) : Z :=
  match n with
  | O => r
  | S n' =>
      let r' := r + 2 ^ Z.of_nat n' in
      if r' * r' * r' <=? x then cbrt_bits n' x r' else cbrt_bits n' x r
  end.

Definition frac_cbrt32 (p : Z) : Z := w32 (cbrt_bits 40 (p * 2 ^ 96) 0).
Definition frac_sqrt32 (p : Z) : Z := w32 (Z.sqrt (p * 2 ^ 64)).

Definition K : list Z := Eval vm_compute in map frac_cbrt32 primes.

(** The eight working variables [a .. h]. *)
Record state : Type := mkState {
  ha : Z; hb : Z; hc : Z; hd : Z; he : Z; hf : Z; hg : Z; hh : Z }.

Definition H0 : state :=
  Eval vm_compute in
    match map frac_sqrt32 (firstn 8 primes) with
    | [a; b; c; d; e; f; g; h] => mkState a b c d e f g h
    | _ => mkState 0 0 0 0 0 0 0 0
    end.

(** [x] on [n] big-endian bytes. *)
Definition be_bytes (n : nat) (x : Z) : bytes :=
  map (fun i => byte_of_Z (Z.shiftr x (8 * Z.of_nat i))) (rev (seq 0 n)).

(** Padding: a [0x80] byte, zero bytes up to 56 modulo 64, and the
    message length in bits on 8 big-endian bytes. *)
Definition pad (msg : bytes) : bytes :=
  let l := Z.of_nat (length msg) in
  let z := Z.to_nat ((55 - l) mod 64) in
  msg ++ x80 :: repeat x00 z ++ be_bytes 8 (8 * l).

Fixpoint be_word (b : bytes) : Z :=
  match b with
  | [] => 0
  | x :: b' => Z.shiftl (Z_of_byte x) (8 * Z.of_nat (length b')) + be_word b'
  end.

(** The first 16 schedule words of a 64-byte block, latest first. *)
Fixpoint words_rev (n : nat) (blk : bytes) (acc : list Z) : list Z :=
  match n with
  | O => acc
  | S n' => words_rev n' (skipn 4 blk) (be_word (firstn 4 blk) :: acc)
  end.

(** Extends the schedule, kept latest first, by [n] words. *)
Fixpoint extend (n : nat) (w : list Z) : list Z :=
  match n with
  | O => w
  | S n' =>
      let x := add32 (add32 (sigma1 (nth 1 w 0)) (nth 6 w 0))
                     (add32 (sigma0 (nth 14 w 0)) (nth 15 w 0)) in
      extend n' (x :: w)
  end.

Definition schedule (blk : bytes) : list Z :=
  rev (extend 48 (words_rev 16 blk [])).

Definition round (s : state) (kw : Z * Z) : state :=
  let (k, w) := kw in
  let t1 := add32 (add32 (add32 (hh s) (Sigma1 (he s)))
                         (add32 (Ch (he s) (hf s) (hg s)) k)) w in
  let t2 := add32 (Sigma0 (ha s)) (Maj (ha s) (hb s) (hc s)) in
  mkState (add32 t1 t2) (ha s) (hb s) (hc s)
          (add32 (hd s) t1) (he s) (hf s) (hg s).

Definition compress (h : state) (blk : bytes) : state :=
  let s := fold_left round (combine K (schedule blk)) h in
  mkState (add32 (ha h) (ha s)) (add32 (hb h) (hb s))
          (add32 (hc h) (hc s)) (add32 (hd h) (hd s))
          (add32 (he h) (he s)) (add32 (hf h) (hf s))
          (add32 (hg h) (hg s)) (add32 (hh h) (hh s)).

Fixpoint blocks (n : nat) (h : state) (m : bytes) : state :=
  match n with
  | O => h
  | S n' => blocks n' (compress h (firstn 64 m)) (skipn 64 m)
  end.

Definition digest_of (s : state) : bytes :=
  be_bytes 4 (ha s) ++ be_bytes 4 (hb s) ++ be_bytes 4 (hc s)
    ++ be_bytes 4 (hd s) ++ be_bytes 4 (he s) ++ be_bytes 4 (hf s)
    ++ be_bytes 4 (hg s) ++ be_bytes 4 (hh s).

Definition sha256 (msg : bytes) : bytes :=
  let m := pad msg in
  digest_of (blocks (length m / 64) H0 m).

End SHA256.

(** [dhash = lambda x: hashlib.sha256(hashlib.sha256(x).digest()).digest()] *)
Definition dhash (x : bytes) : bytes := SHA256.sha256 (SHA256.sha256 x).

(** ** Base58Check: [base58_check_encode], [base58_decode] *)

Definition b58_digits : string :=
  "123456789ABCDEFGHJKLMNPQRSTUVWXYZabcdefghijkmnopqrstuvwxyz".

(** [b58_digits.index(c)], [None] when [c not in b58_digits]. *)
Fixpoint index_of (c : ascii) (l : list ascii) : option Z :=
  match l with
  | [] => None
  | x :: l' => if Ascii.eqb c x then Some 0
               else option_map Z.succ (index_of c l')
  end.

Definition b58_index (c : ascii) : option Z :=
  index_of c (list_ascii_of_string b58_digits).

(** [b58_digits[r]] *)
Definition b58_char (r : Z) : ascii :=
  nth (Z.to_nat r) (list_ascii_of_string b58_digits) "1"%char.

(** The number of leading elements of [l] that satisfy [p]: the loops
    [for c in ...: if c == z: pad += 1 else: break]. *)
Fixpoint count_leading {A} (p : A -> bool) (l : list A) : nat :=
  match l with
  | [] => O
  | x :: l' => if p x then S (count_leading p l') else O
  end.

Definition base58_check_encode (b : string) (version : bytes) : result string :=
  let? b := unhexlify b in
  let d := version ++ b in
  let address_hex := d ++ firstn 4 (dhash d) in
  (* Convert big-endian bytes to integer *)
  let? n := match int16 ("0"%char :: hexlify_chars address_hex) with
            | Some n => Ok n
            | None => Raise ValueError
            end in
  (* Divide that integer into base58 *)
  let res := map b58_char (digits 58 n) in
  (* Encode leading zeros as base58 zeros *)
  let pad := count_leading (byte_eqb x00) d in
  Ok (string_of_list_ascii (repeat (b58_char 0) pad ++ res)).

(** The first loop of [base58_decode]: the string as an integer. *)
Fixpoint b58_to_int (n : Z) (s : list ascii) : result Z :=
  match s with
  | [] => Ok n
  | c :: s' =>
      let n := n * 58 in
      match b58_index c with
      | None => Raise (InvalidBase58Error c)
      | Some digit => b58_to_int (n + digit) s'
      end
  end.

(** [h = '%x' % n; if len(h) % 2: h = '0' + h; unhexlify(h)] *)
Definition int_to_bytes (n : Z) : result bytes :=
  let h := percent_x n in
  let h := if Nat.eqb (Nat.modulo (length h) 2) 0 then h else "0"%char :: h in
  match unhexlify_chars h with
  | Some b => Ok b
  | None => Raise BinasciiError
  end.

(** [bytes * n] *)
Fixpoint bytes_mul (b : bytes) (n : nat) : bytes :=
  match n with
  | O => []
  | S n' => b ++ bytes_mul b n'
  end.

(** The byte string [k] that [base58_decode] slices. *)
Definition base58_decode_k (s : string) (version : bytes) : result bytes :=
  let s := list_ascii_of_string s in
  (* Convert the string to an integer *)
  let? n := b58_to_int 0 s in
  (* Convert the integer to bytes *)
  let? res := int_to_bytes n in
  (* Add padding back. *)
  let pad := count_leading (Ascii.eqb (b58_char 0)) (droplast 1 s) in
  Ok (bytes_mul version pad ++ res).

Definition base58_decode (s : string) (version : bytes) : result bytes :=
  let? k := base58_decode_k s version in
  let addrbyte := firstn 1 k in
  let data := skipn 1 (droplast 4 k) in
  let chk0 := lastn 4 k in
  if negb (bytes_eqb addrbyte version) then Raise VersionByteError
  else
    let chk1 := firstn 4 (dhash (addrbyte ++ data)) in
    if negb (bytes_eqb chk0 chk1) then Raise (Base58ChecksumError chk0 chk1)
    else Ok data.

(** ** Wire primitives: [int.to_bytes], [var_int], [op_push] *)

(** [(i).to_bytes(len, byteorder='little')] *)
Definition to_bytes (len : nat) (i : Z) : result bytes :=
  if (i <? 0) || (2 ^ (8 * Z.of_nat len) <=? i) then Raise OverflowError
  else Ok (map (fun k => byte_of_Z (Z.shiftr i (8 * Z.of_nat k))) (seq 0 len)).

Definition var_int (i : Z) : result bytes :=
  if i <? 0xfd then to_bytes 1 i
  else if i <=? 0xffff then
    let? b := to_bytes 2 i in Ok (xfd :: b)
  else if i <=? 0xffffffff then
    let? b := to_bytes 4 i in Ok (xfe :: b)
  else
    let? b := to_bytes 8 i in Ok (xff :: b).

Definition op_push (i : Z) : result bytes :=
  if i <? 0x4c then to_bytes 1 i                     (* Push i bytes. *)
  else if i <=? 0xff then
    let? b := to_bytes 1 i in Ok (x4c :: b)          (* OP_PUSHDATA1 *)
  else if i <=? 0xffff then
    let? b := to_bytes 2 i in Ok (x4d :: b)          (* OP_PUSHDATA2 *)
  else
    let? b := to_bytes 4 i in Ok (x4e :: b).         (* OP_PUSHDATA4 *)

(** Constants *)
Definition OP_RETURN : bytes := [x6a].
Definition OP_PUSHDATA1 : bytes := [x4c].
Definition OP_DUP : bytes := [x76].
Definition OP_HASH160 : bytes := [xa9].
Definition OP_EQUALVERIFY : bytes := [x88].
Definition OP_CHECKSIG : bytes := [xac].
Definition OP_1 : bytes := [x51].
Definition OP_2 : bytes := [x52].
Definition OP_CHECKMULTISIG : bytes := [xae].

(** ** The surroundings of the module: [config], bitcoind, pycoin *)

(** The attributes of the [config] module that [lib/bitcoin.py] reads.
    The module itself is not part of the sources at hand: its values are
    parameters of everything below. *)
Record config : Type := mkConfig {
  ADDRESSVERSION : bytes;
  UNIT : Z;
  REGULAR_DUST_SIZE : Z;
  MULTISIG_DUST_SIZE : Z;
  OP_RETURN_VALUE : Z;
  TESTNET : bool;
  PREFIX : bytes;
  UNITTEST_PREFIX : bytes }.

(** A JSON number as [response.json()] and [json.load] give it: an [int]
    when its text has neither fraction nor exponent, a [float] otherwise.  A
    [float] is a double: a [spec_float] used with the precision [prec] and
    the exponent bound [emax] of binary64. *)
Inductive number : Type :=
| Int (i : Z)
| Float (a : spec_float).

Definition prec : Z := 53.
Definition emax : Z := 1024.

(** An element of the list that [listunspent] answers. The [amount] is a
    JSON number (in BTC). *)
Record coin : Type := mkCoin {
  txid : string;
  vout : Z;
  scriptPubKey : string;
  address : string;
  amount : number }.

(** A call of [rpc (method, params)], as made by the functions below. *)
Inductive rpc_call : Type :=
| Validateaddress (a : string)    (* rpc('validateaddress', [a]) *)
| Listunspent                     (* rpc('listunspent', []) *)
| Dumpprivkey (a : string).       (* rpc('dumpprivkey', [a]) *)

(** Bitcoind as seen through [rpc]: what it answers to a call, given the
    calls made before (it may raise [BitcoindError], [BitcoindRPCError]). *)
Record bitcoind : Type := mkBitcoind {
  validateaddress_ismine : list rpc_call -> string -> result bool;
  listunspent : list rpc_call -> result (list coin);
  dumpprivkey : list rpc_call -> string -> result string }.

(** The functions of pycoin that [serialise] calls.
    [sec_of_public_pair_string m] is
    [public_pair_to_sec(bitcoin_utils.parse_as_public_pair(m), compressed=True)];
    [sec_of_wif wif testnet] is [public_pair_to_sec] of the public pair of
    the secret exponent of [wif]. *)
Record pycoin : Type := mkPycoin {
  sec_of_public_pair_string : string -> result bytes;
  sec_of_wif : string -> bool -> result bytes }.

Record env : Type := mkEnv {
  cfg : config;
  node : bitcoind;
  lib : pycoin;
  (** the content of [test/listunspent.test.json] *)
  listunspent_test_json : result (list coin) }.

(** ** The monad of code that calls bitcoind *)

Definition trace := list rpc_call.

Definition M (A : Type) : Type := env -> trace -> result A * trace.

Definition ret {A} (a : A) : M A := fun _ t => (Ok a, t).
Definition raise {A} (e : exn) : M A := fun _ t => (Raise e, t).
Definition lift {A} (r : result A) : M A := fun _ t => (r, t).
Definition ask : M env := fun e t => (Ok e, t).
Definition bind {A B} (m : M A) (k : A -> M B) : M B :=
  fun e t =>
    match m e t with
    | (inl x, t') => (inl x, t')
    | (inr a, t') => k a e t'
    end.

Declare Scope M_scope.
Delimit Scope M_scope with M.
Notation "x <- m ;; k" := (bind m (fun x => k))
  (at level 61, m at next level, right associativity) : M_scope.
Notation "' pat <- m ;; k" := (bind m (fun x => match x with pat => k end))
  (at level 61, pat pattern, m at next level, right associativity) : M_scope.
#[local] Open Scope M_scope.

Definition rpc_validateaddress (a : string) : M bool :=
  fun e t => (validateaddress_ismine (node e) t a, t ++ [Validateaddress a]).
Definition rpc_listunspent : M (list coin) :=
  fun e t => (listunspent (node e) t, t ++ [Listunspent]).
Definition rpc_dumpprivkey (a : string) : M string :=
  fun e t => (dumpprivkey (node e) t a, t ++ [Dumpprivkey a]).

(** [try: m  except Exception: raise e] *)
Definition try_except {A} (r : result A) (e : exn) : result A :=
  match r with
  | inl _ => Raise e
  | inr a => Ok a
  end.

(** [assert b] *)
Definition assert (b : bool) : result unit :=
  if b then Ok tt else Raise AssertionError.

(** ** [serialise] *)

(** The [multisig] argument: [False], [True] or a public key string. *)
Inductive multisig_arg : Type :=
| MsBool (b : bool)
| MsStr (s : string).

(** [if multisig:] *)
Definition truthy_multisig (m : multisig_arg) : bool :=
  match m with
  | MsBool b => b
  | MsStr s => negb (String.eqb s "")
  end.

(** [isinstance(multisig, str)] *)
Definition is_str (m : multisig_arg) : bool :=
  match m with
  | MsBool _ => false
  | MsStr _ => true
  end.

(** The body of the loop over the inputs. *)
Definition serialise_input (txin : coin) (s : bytes) : result bytes :=
  let? h := unhexlify (txid txin) in
  let s := s ++ rev h in                                 (* TxOutHash *)
  let? v := to_bytes 4 (vout txin) in
  let s := s ++ v in                                     (* TxOutIndex *)
  let script := str_encode (scriptPubKey txin) in
  let? l := var_int (Z.of_nat (length script)) in
  let s := s ++ l in                                     (* Script length *)
  let s := s ++ script in                                (* Script *)
  Ok (s ++ bytes_mul [xff] 4).                           (* Sequence *)

Fixpoint serialise_inputs (inputs : list coin) (s : bytes) : result bytes :=
  match inputs with
  | [] => Ok s
  | txin :: inputs' =>
      let? s := serialise_input txin s in
      serialise_inputs inputs' s
  end.

(** The destination and the change output: pay to pubkey hash. *)
Definition serialise_p2pkh (output : string * Z) (s : bytes) : M bytes :=
  let (address, value) := output in
  e <- ask ;;
  pubkeyhash <- lift (base58_decode address (ADDRESSVERSION (cfg e))) ;;
  v <- lift (to_bytes 8 value) ;;
  let s := s ++ v in                                     (* Value *)
  let script := OP_DUP in                                (* OP_DUP *)
  let script := script ++ OP_HASH160 in                  (* OP_HASH160 *)
  p <- lift (op_push 20) ;;
  let script := script ++ p in                           (* Push 0x14 bytes *)
  let script := script ++ pubkeyhash in                  (* pubKeyHash *)
  let script := script ++ OP_EQUALVERIFY in              (* OP_EQUALVERIFY *)
  let script := script ++ OP_CHECKSIG in                 (* OP_CHECKSIG *)
  l <- lift (var_int (Z.of_nat (length script))) ;;
  let s := s ++ l in                                     (* Script length *)
  ret (s ++ script).

Definition unittest_private_key_wif : string :=
  "cPdUqd5EbBWsjcG9xiL1hz8bEyGFiz4SW99maU9JgpL9TEcxUf3j".

(** Get source public key (either provided as a string or derived from a
    private key in the wallet). *)
Definition get_source_pubkey (source : string) (multisig : multisig_arg)
  : M bytes :=
  e <- ask ;;
  match multisig with
  | MsStr m => lift (sec_of_public_pair_string (lib e) m)
  | MsBool _ =>
      private_key_wif <-
        (if bytes_eqb (PREFIX (cfg e)) (UNITTEST_PREFIX (cfg e))
         then ret unittest_private_key_wif
         else rpc_dumpprivkey source) ;;
      testnet <- match private_key_wif with
                 | EmptyString => raise IndexError
                 | String c _ => ret (Ascii.eqb c "c"%char)
                 end ;;
      lift (sec_of_wif (lib e) private_key_wif testnet)
  end.

(** The script of one data output. *)
Definition data_script (data_chunk : bytes) (source : string)
    (multisig : multisig_arg) : M bytes :=
  if truthy_multisig multisig then
    source_pubkey <- get_source_pubkey source multisig ;;
    (* Get data (fake) public key. *)
    let pad_length := 33 - 1 - Z.of_nat (length data_chunk) in
    _ <- lift (assert (pad_length >=? 0)) ;;
    let data_pubkey :=
      [byte_of_Z (Z.of_nat (length data_chunk))] ++ data_chunk
        ++ bytes_mul [x00] (Z.to_nat pad_length) in
    let script := OP_1 in                                (* OP_1 *)
    p <- lift (op_push (Z.of_nat (length source_pubkey))) ;;
    let script := script ++ p in
    let script := script ++ source_pubkey in             (* Source public key *)
    p <- lift (op_push (Z.of_nat (length data_pubkey))) ;;
    let script := script ++ p in
    let script := script ++ data_pubkey in               (* (fake) public key *)
    let script := script ++ OP_2 in                      (* OP_2 *)
    ret (script ++ OP_CHECKMULTISIG)                     (* OP_CHECKMULTISIG *)
  else
    let script := OP_RETURN in                           (* OP_RETURN *)
    p <- lift (op_push (Z.of_nat (length data_chunk))) ;;
    let script := script ++ p in
    ret (script ++ data_chunk).                          (* Data chunk *)

(** The loop over the data chunks. *)
Fixpoint serialise_data (data_array : list bytes) (value : Z)
    (source : string) (multisig : multisig_arg) (s : bytes) : M bytes :=
  match data_array with
  | [] => ret s
  | data_chunk :: data_array' =>
      v <- lift (to_bytes 8 value) ;;
      let s := s ++ v in                                 (* Value *)
      script <- data_script data_chunk source multisig ;;
      l <- lift (var_int (Z.of_nat (length script))) ;;
      let s := s ++ l in                                 (* Script length *)
      let s := s ++ script in
      serialise_data data_array' value source multisig s
  end.

Definition serialise (inputs : list coin)
    (destination_output : option (string * Z))
    (data_output : option (list bytes * Z))
    (change_output : option (string * Z))
    (source : string) (multisig : multisig_arg) : M bytes :=
  s <- lift (to_bytes 4 1) ;;                            (* Version *)
  (* Number of inputs. *)
  l <- lift (var_int (Z.of_nat (length inputs))) ;;
  let s := s ++ l in
  (* List of Inputs. *)
  s <- lift (serialise_inputs inputs s) ;;
  (* Number of outputs. *)
  let n := 0 in
  let n := match destination_output with Some _ => n + 1 | None => n end in
  let '(n, data_array) :=
    match data_output with
    | Some (data_array, _) => (n + Z.of_nat (length data_array), data_array)
    | None => (n, [])
    end in
  let n := match change_output with Some _ => n + 1 | None => n end in
  l <- lift (var_int n) ;;
  let s := s ++ l in
  (* Destination output. *)
  s <- match destination_output with
       | Some o => serialise_p2pkh o s
       | None => ret s
       end ;;
  (* Data output. *)
  s <- match data_output with
       | Some (_, value) => serialise_data data_array value source multisig s
       | None => ret s
       end ;;
  (* Change output. *)
  s <- match change_output with
       | Some o => serialise_p2pkh o s
       | None => ret s
       end ;;
  l <- lift (to_bytes 4 0) ;;                            (* LockTime *)
  ret (s ++ l).

(** ** [get_inputs] *)

(** Python's [round] of a number to an integer: to the nearest, ties to
    even. *)
Definition py_round (q : Q) : Z :=
  let n := Qnum q in
  let d := Zpos (Qden q) in
  let f := n / d in
  match 2 * (n mod d) ?= d with
  | Lt => f
  | Gt => f + 1
  | Eq => if Z.even f then f else f + 1
  end.

(** [float(i)] of an [int], which [*] does to the [int] when the other
    operand is a [float]: the nearest double, ties to even; [OverflowError]
    (int too large to convert to float) beyond the largest double. *)
Definition float_of_int (i : Z) : result spec_float :=
  match binary_normalize prec emax i 0 false with
  | S754_infinity _ => Raise OverflowError
  | a => Ok a
  end.

(** [a * b] on two [float]: the product rounded to the nearest double, an
    infinity beyond the largest double (no exception). *)
Definition float_mul (a b : spec_float) : spec_float := SFmul prec emax a b.

(** The rational that the finite double of sign [s], mantissa [m] and
    exponent [e] stands for: [m * 2 ** e], negated when [s] is set. *)
Definition float_value (s : bool) (m : positive) (e : Z) : Q :=
  let q := match e with
           | Zneg p => (Zpos m # Pos.pow 2 p)%Q
           | _ => inject_Z (Zpos m * 2 ^ e)
           end in
  if s then (- q)%Q else q.

(** [round(a)] on a [float]: [OverflowError] on an infinity (cannot convert
    float infinity to integer), [ValueError] on a NaN. *)
Definition round_float (a : spec_float) : result Z :=
  match a with
  | S754_zero _ => Ok 0
  | S754_finite s m e => Ok (py_round (float_value s m e))
  | S754_infinity _ => Raise OverflowError
  | S754_nan => Raise ValueError
  end.

(** [round(coin['amount'] * config.UNIT)]; [config.UNIT] is an [int], and
    [round] of an [int] is that [int]. *)
Definition coin_units (c : config) (x : coin) : result Z :=
  match amount x with
  | Int i => Ok (i * UNIT c)
  | Float a =>
      let? u := float_of_int (UNIT c) in
      round_float (float_mul a u)
  end.

(** The loop of [get_inputs] over [unspent]. *)
Fixpoint select_coins (c : config) (unspent : list coin) (inputs : list coin)
    (total_btc_in total_btc_out : Z) : result (option (list coin * Z)) :=
  match unspent with
  | [] => Ok None
  | x :: unspent' =>
      let inputs := inputs ++ [x] in
      let? units := coin_units c x in
      let total_btc_in := total_btc_in + units in
      if total_btc_in >=? total_btc_out then Ok (Some (inputs, total_btc_in))
      else select_coins c unspent' inputs total_btc_in total_btc_out
  end.

(** The first part of [get_inputs]: where the list of coins comes from. *)
Definition get_listunspent (source : string) (unittest : bool)
  : M (list coin) :=
  e <- ask ;;
  if negb unittest then
    ismine <- rpc_validateaddress source ;;
    if ismine then rpc_listunspent
    else if TESTNET (cfg e)
    then raise (TransactionError "Blockchain.info does not support testnet.")
    else (* get_unspent_txouts(address, normalize=True): no such name *)
      raise (NameError "address")
  else lift (listunspent_test_json e).

(** [[coin for coin in listunspent if coin['address'] == source]] *)
Definition owned_by (source : string) (listunspent : list coin) : list coin :=
  filter (fun x => String.eqb (address x) source) listunspent.

(** List unspent inputs for source.  [None] stands for [(None, None)]. *)
Definition get_inputs (source : string) (total_btc_out : Z) (unittest : bool)
  : M (option (list coin * Z)) :=
  e <- ask ;;
  listunspent <- get_listunspent source unittest ;;
  let unspent := owned_by source listunspent in
  lift (select_coins (cfg e) unspent [] 0 total_btc_out).

(** ** [transaction] *)

(** [if address:] on a [str] *)
Definition truthy_str (s : string) : bool := negb (String.eqb s "").

(** [if destination:] on a [str] or [None] *)
Definition truthy_ostr (s : option string) : bool :=
  match s with
  | Some s => truthy_str s
  | None => false
  end.

(** [if btc_amount:] on an [int] or [None] *)
Definition truthy_oint (z : option Z) : bool :=
  match z with
  | Some z => negb (z =? 0)
  | None => false
  end.

(** [if data:] on [bytes] *)
Definition truthy_bytes (b : bytes) : bool :=
  match b with
  | [] => false
  | _ => true
  end.

(** Yield successive n-sized chunks from l:
    [for i in range(0, len(l), n): yield l[i:i+n]]. *)
Fixpoint chunks_fuel (fuel : nat) (l : bytes) (n : nat) : list bytes :=
  match fuel with
  | O => []
  | S f =>
      match l with
      | [] => []
      | _ => firstn n l :: chunks_fuel f (skipn n l) n
      end
  end.

Definition chunks (l : bytes) (n : nat) : list bytes :=
  chunks_fuel (length l) l n.

(** Validate one address of the loop [for address in (source, destination)]. *)
Definition validate_address (c : config) (address : string) : result unit :=
  if truthy_str address then
    let? _ := try_except (base58_decode address (ADDRESSVERSION c))
                (InvalidAddressError "Invalid Bitcoin address:" address) in
    Ok tt
  else Ok tt.

(** Validate addresses. *)
Definition validate_addresses (c : config) (source : string)
    (destination : option string) : result unit :=
  let? _ := validate_address c source in
  match destination with
  | Some d => validate_address c d
  | None => Ok tt
  end.

(** Check that the source is in wallet. *)
Definition check_source_in_wallet (source : string) (multisig : multisig_arg)
    (unittest : bool) : M unit :=
  if negb unittest && negb (is_str multisig) then
    ismine <- rpc_validateaddress source ;;
    if negb ismine
    then raise (InvalidAddressError "Not one of your Bitcoin addresses:" source)
    else ret tt
  else ret tt.

Definition dust_message : string :=
  "Destination output is below the dust target value.".

(** Check that the destination output isn't a dust output.  Returns
    [btc_amount], which the check may have set. *)
Definition check_dust (c : config) (destination : option string)
    (multisig : multisig_arg) (btc_amount : option Z) : result (option Z) :=
  if truthy_ostr destination then
    if truthy_multisig multisig then
      let btc_amount := match btc_amount with
                        | None => MULTISIG_DUST_SIZE c
                        | Some a => a
                        end in
      if negb (btc_amount >=? MULTISIG_DUST_SIZE c)
      then Raise (TransactionError dust_message)
      else Ok (Some btc_amount)
    else
      let btc_amount := match btc_amount with
                        | None => REGULAR_DUST_SIZE c
                        | Some a => a
                        end in
      if negb (btc_amount >=? REGULAR_DUST_SIZE c)
      then Raise (TransactionError dust_message)
      else Ok (Some btc_amount)
  else
    let? _ := assert (negb (truthy_oint btc_amount)) in
    Ok btc_amount.

(** Divide data into chunks. *)
Definition divide_data (data : bytes) (multisig : multisig_arg)
  : result (list bytes) :=
  if truthy_bytes data then
    if truthy_multisig multisig then Ok (chunks data (33 - 1))
    else
      let data_array := chunks data 80 in
      (* Only one OP_RETURN output currently supported *)
      let? _ := assert (Nat.eqb (length data_array) 1) in
      Ok data_array
  else Ok [].

Definition data_value_of (c : config) (multisig : multisig_arg) : Z :=
  if truthy_multisig multisig then MULTISIG_DUST_SIZE c else OP_RETURN_VALUE c.

(** Calculate total BTC to be sent. *)
Definition total_to_send (c : config) (fee : Z) (multisig : multisig_arg)
    (data_array : list bytes) (destination : option string)
    (btc_amount : option Z) : Z :=
  let total_btc_out := fee in
  let data_value := data_value_of c multisig in
  let total_btc_out :=
    fold_left (fun t _ => t + data_value) data_array total_btc_out in
  if truthy_ostr destination
  then total_btc_out + match btc_amount with Some a => a | None => 0 end
  else total_btc_out.

(** Construct outputs. *)
Definition destination_output_of (destination : option string)
    (btc_amount : option Z) : option (string * Z) :=
  if truthy_ostr destination
  then match destination, btc_amount with
       | Some d, Some a => Some (d, a)
       | _, _ => None
       end
  else None.

Definition data_output_of (data : bytes) (data_array : list bytes)
    (data_value : Z) : option (list bytes * Z) :=
  if truthy_bytes data then Some (data_array, data_value) else None.

(** No check to make sure that the change output is above the dust
    target value. *)
Definition change_output_of (source : string) (change_amount : Z)
  : option (string * Z) :=
  if negb (change_amount =? 0) then Some (source, change_amount) else None.

Definition tx_info : Type :=
  (string * option string * option Z * Z * bytes)%type.

(** [if config.PREFIX == config.UNITTEST_PREFIX: unittest = True] *)
Definition unittest_flag (c : config) (unittest : bool) : bool :=
  if bytes_eqb (PREFIX c) (UNITTEST_PREFIX c) then true else unittest.

Definition transaction (info : tx_info) (multisig : multisig_arg)
    (unittest : bool) : M string :=
  let '(source, destination, btc_amount, fee, data) := info in
  e <- ask ;;
  let c := cfg e in
  let unittest := unittest_flag c unittest in
  _ <- lift (validate_addresses c source destination) ;;
  _ <- check_source_in_wallet source multisig unittest ;;
  btc_amount <- lift (check_dust c destination multisig btc_amount) ;;
  data_array <- lift (divide_data data multisig) ;;
  let data_value := data_value_of c multisig in
  let total_btc_out :=
    total_to_send c fee multisig data_array destination btc_amount in
  (* Construct inputs. *)
  r <- get_inputs source total_btc_out unittest ;;
  match r with
  | Some ((_ :: _) as inputs, total_btc_in) =>
      let destination_output := destination_output_of destination btc_amount in
      let data_output := data_output_of data data_array data_value in
      let change_amount := total_btc_in - total_btc_out in
      let change_output := change_output_of source change_amount in
      (* Serialise inputs and outputs. *)
      transaction <- serialise inputs destination_output data_output
                       change_output source multisig ;;
      let unsigned_tx_hex := hexlify transaction in
      ret unsigned_tx_hex
  | _ =>
      if UNIT c =? 0 then raise ZeroDivisionError
      else raise (BalanceError source
                    (inject_Z total_btc_out / inject_Z (UNIT c))%Q)
  end.

(** ** Examples of surroundings *)

(** A configuration for the main network. *)
Definition mainnet_config : config :=
  {| ADDRESSVERSION := [x00];
     UNIT := 100000000;
     REGULAR_DUST_SIZE := 5430;
     MULTISIG_DUST_SIZE := 5430 * 2;
     OP_RETURN_VALUE := 0;
     TESTNET := false;
     PREFIX := str_encode "CNTRPRTY";
     UNITTEST_PREFIX := str_encode "TESTXXXX" |}.

Definition no_pycoin : pycoin :=
  {| sec_of_public_pair_string := fun _ => Raise (ForeignError "no key");
     sec_of_wif := fun _ _ => Raise (ForeignError "no key") |}.

Definition example_source : string := "16UwLL9Risc3QfPqBUvKofHmBQ7wMtjvM".
Definition example_destination : string := "137hRDVTaH775grBtetjhpJXFb81zErTJR".

Definition example_txid : string :=
  "ae241be7be83ebb14902757ad94854f787d9730fc553d6f695346c9375c0d8c1".

(** The double nearest to [n / d], for [n] and [d] that are doubles
    themselves (below [2 ** 53]): what the decimal text of [n / d]
    parses to. *)
Definition float_of_ratio (n d : Z) : spec_float :=
  SFdiv prec emax (binary_normalize prec emax n 0 false)
    (binary_normalize prec emax d 0 false).

(** A coin of [sat] satoshis owned by [a]: its amount is the [float] that
    the text of bitcoind, [sat / 10 ** 8] with eight decimals, parses to. *)
Definition example_coin (a : string) (n : Z) (sat : Z) : coin :=
  {| txid := example_txid; vout := n;
     scriptPubKey := "76a9143b7e90f5c8a4e6e2d8a1b5a7e2c5f5f5e2c5f5f588ac";
     address := a;
     amount := Float (float_of_ratio sat 100000000) |}.

(** A wallet that owns every address and holds the coins [coins]. *)
Definition wallet_node (coins : list coin) : bitcoind :=
  {| validateaddress_ismine := fun _ _ => Ok true;
     listunspent := fun _ => Ok coins;
     dumpprivkey := fun _ _ => Raise (BitcoindError "Wallet is locked.") |}.

Definition example_env (coins : list coin) : env :=
  {| cfg := mainnet_config; node := wallet_node coins; lib := no_pycoin;
     listunspent_test_json := Ok [] |}.

(** Three coins of the example source, and one of another address. *)
Definition example_coins : list coin :=
  [ example_coin example_source 0 50000;
    example_coin example_destination 1 900000;
    example_coin example_source 2 70000;
    example_coin example_source 3 30000 ].

(** A node whose wallet owns no address. *)
Definition foreign_node : bitcoind :=
  {| validateaddress_ismine := fun _ _ => Ok false;
     listunspent := fun _ => Ok [];
     dumpprivkey := fun _ _ => Raise (BitcoindError "Wallet is locked.") |}.

Definition foreign_env : env :=
  {| cfg := mainnet_config; node := foreign_node; lib := no_pycoin;
     listunspent_test_json := Ok [] |}.

(** The dust floor that applies to the destination output. *)
Definition dust_floor (c : config) (multisig : multisig_arg) : Z :=
  if truthy_multisig multisig then MULTISIG_DUST_SIZE c
  else REGULAR_DUST_SIZE c.

(** pycoin on two keys: the key of secret exponent 1 (compressed, main
    network) and the key of the unit tests (compressed, test network). *)
Definition key1_wif : string :=
  "KwDiBf89QgGbjEhKnhXJuH7LrciVrZi3qYjgd9M7rFU73sVHnoWn".
Definition key1_sec : string :=
  "0279be667ef9dcbbac55a06295ce870b07029bfcdb2dce28d959f2815b16f81798".
Definition unittest_sec : string :=
  "0282b886c087eb37dc8182f14ba6cc3e9485ed618b95804d44aecc17c300b585b0".

Definition example_pycoin : pycoin :=
  {| sec_of_public_pair_string := fun m =>
       if String.eqb m key1_sec then Ok (bytes_of_hex key1_sec)
       else if String.eqb m unittest_sec then Ok (bytes_of_hex unittest_sec)
       else Raise (ForeignError "unknown key");
     sec_of_wif := fun wif testnet =>
       if String.eqb wif key1_wif && negb testnet
       then Ok (bytes_of_hex key1_sec)
       else if String.eqb wif unittest_private_key_wif && testnet
       then Ok (bytes_of_hex unittest_sec)
       else Raise (ForeignError "unknown key") |}.

(** A wallet that owns every address, holds [coins] and gives [wif] as the
    private key of every address. *)
Definition unlocked_node (coins : list coin) (wif : string) : bitcoind :=
  {| validateaddress_ismine := fun _ _ => Ok true;
     listunspent := fun _ => Ok coins;
     dumpprivkey := fun _ _ => Ok wif |}.

Definition unlocked_env (coins : list coin) (wif : string) : env :=
  {| cfg := mainnet_config; node := unlocked_node coins wif;
     lib := example_pycoin; listunspent_test_json := Ok [] |}.

(** A payload of 62 bytes: two chunks in multi-signature outputs. *)
Definition example_payload : bytes :=
  str_encode "0123456789abcdefghijklmnopqrstuvwxyzABCDEFGHIJKLMNOPQRSTUVWXYZ".

Definition example_tx_hex : string :=
  "0100000001c1d8c075936c3495f6d653c50f73d987f75448d97a750249b1eb83bee71b24ae"
  ++ "00000000323736613931343362376539306635633861346536653264386131623561"
  ++ "376532633566356635653263356635663538386163ffffffff04204e000000000000"
  ++ "1976a91417347c75db29dcbdb851fbcbc4f2763388f243ad88ac6c2a000000000000"
  ++ "4751210279be667ef9dcbbac55a06295ce870b07029bfcdb2dce28d959f2815b16f8"
  ++ "17982120303132333435363738396162636465666768696a6b6c6d6e6f7071727374"
  ++ "757652ae6c2a0000000000004751210279be667ef9dcbbac55a06295ce870b07029b"
  ++ "fcdb2dce28d959f2815b16f81798211e7778797a4142434445464748494a4b4c4d4e"
  ++ "4f505152535455565758595a000052ae98bc0000000000001976a914010966776006"
  ++ "953d5567439e5e39f86a0d273bee88ac00000000".

(** A build that leaves one satoshi of change. *)
Definition example_small_change_hex : string :=
  "0100000001c1d8c075936c3495f6d653c50f73d987f75448d97a750249b1eb83bee71b24ae"
  ++ "00000000323736613931343362376539306635633861346536653264386131623561"
  ++ "376532633566356635653263356635663538386163ffffffff038f5f010000000000"
  ++ "1976a91417347c75db29dcbdb851fbcbc4f2763388f243ad88ac0000000000000000"
  ++ "0c6a0a3031323334353637383901000000000000001976a914010966776006953d55"
  ++ "67439e5e39f86a0d273bee88ac00000000".

(** ** Notions used to state the properties *)

(** The value of a list of digits in base [b], most significant first. *)
Definition val (b : Z) (ds : list Z) : Z :=
  fold_left (fun a d => a * b + d) ds 0.

(** The big-endian value of a byte string. *)
Definition be_val (bs : bytes) : Z := val 256 (map Z_of_byte bs).

(** The hexadecimal digits of a byte string. *)
Fixpoint nibbles (bs : bytes) : list Z :=
  match bs with
  | [] => []
  | x :: r => Z_of_byte x / 16 :: Z_of_byte x mod 16 :: nibbles r
  end.

Definition in_base (b : Z) (ds : list Z) : Prop :=
  Forall (fun d => 0 <= d < b) ds.

Definition no_leading_zero (ds : list Z) : Prop :=
  match ds with
  | [] => True
  | d :: _ => d <> 0
  end.

(** The sum of the amounts of a list of coins, in satoshis, each amount
    converted as [get_inputs] does; an exception when a conversion raises
    one. *)
Fixpoint sum_units (c : config) (l : list coin) : result Z :=
  match l with
  | [] => Ok 0
  | x :: l' =>
      let? units := coin_units c x in
      let? rest := sum_units c l' in
      Ok (units + rest)
  end.

Definition is_prefix {A} (p l : list A) : Prop := exists r, l = p ++ r.

(** [p] is the shortest non-empty prefix of [l] whose amounts sum to
    [total] or more, the sum being [sum]. *)
Definition first_fit (c : config) (total : Z) (l p : list coin) (sum : Z)
  : Prop :=
  is_prefix p l /\ p <> [] /\ sum_units c p = Ok sum /\ sum >= total
  /\ forall q s, is_prefix q l -> q <> [] -> sum_units c q = Ok s ->
                 s >= total -> (length p <= length q)%nat.

(** The amounts of [l] convert, and no non-empty prefix of [l] sums to
    [total] or more. *)
Definition no_fit (c : config) (total : Z) (l : list coin) : Prop :=
  forall q, is_prefix q l -> q <> [] ->
            exists s, sum_units c q = Ok s /\ s < total.

(** The conversion of an amount raises [x] before a prefix of [l] sums to
    [total] or more: on the coin [y], after the coins [p]. *)
Definition fails_at (c : config) (total : Z) (l : list coin) (x : exn)
  : Prop :=
  exists p y, is_prefix (p ++ [y]) l /\ no_fit c total p
              /\ coin_units c y = Raise x.

(** *** Transaction outputs

    An output as it stands in a serialised transaction: a value and a
    script.  [txout_bytes] is the layout that [serialise] writes for every
    output, and [parse_txouts] reads a sequence of outputs back. *)
Record txout : Type := mkTxout {
  out_value : Z;
  out_script : bytes }.

Definition txout_bytes (o : txout) : result bytes :=
  let? v := to_bytes 8 (out_value o) in
  let? l := var_int (Z.of_nat (length (out_script o))) in
  Ok (v ++ l ++ out_script o).

Fixpoint txouts_bytes (l : list txout) : result bytes :=
  match l with
  | [] => Ok []
  | o :: l' =>
      let? b := txout_bytes o in
      let? r := txouts_bytes l' in
      Ok (b ++ r)
  end.

(** The little-endian value of a byte string. *)
Fixpoint le_val (b : bytes) : Z :=
  match b with
  | [] => 0
  | x :: r => Z_of_byte x + 256 * le_val r
  end.

(** Takes [n] bytes from [b]. *)
Definition take (n : nat) (b : bytes) : option (bytes * bytes) :=
  if (n <=? length b)%nat then Some (firstn n b, skipn n b) else None.

Definition parse_var_int (b : bytes) : option (Z * bytes) :=
  match b with
  | [] => None
  | x :: r =>
      let v := Z_of_byte x in
      if v <? 0xfd then Some (v, r)
      else
        let n := if v =? 0xfd then 2%nat
                 else if v =? 0xfe then 4%nat else 8%nat in
        match take n r with
        | Some (l, r') => Some (le_val l, r')
        | None => None
        end
  end.

Definition parse_txout (b : bytes) : option (txout * bytes) :=
  match take 8 b with
  | None => None
  | Some (v, b1) =>
      match parse_var_int b1 with
      | None => None
      | Some (l, b2) =>
          match take (Z.to_nat l) b2 with
          | None => None
          | Some (script, b3) => Some (mkTxout (le_val v) script, b3)
          end
      end
  end.

Fixpoint parse_txouts (n : nat) (b : bytes) : option (list txout * bytes) :=
  match n with
  | O => Some ([], b)
  | S n' =>
      match parse_txout b with
      | None => None
      | Some (o, b') =>
          match parse_txouts n' b' with
          | None => None
          | Some (l, b'') => Some (o :: l, b'')
          end
      end
  end.

(** The outputs of a transaction, from the bytes that follow its inputs:
    the number of outputs, then the outputs. *)
Definition parse_outputs (b : bytes) : option (list txout * bytes) :=
  match parse_var_int b with
  | Some (n, r) => parse_txouts (Z.to_nat n) r
  | None => None
  end.

(** The scripts that [serialise] writes. *)
Definition p2pkh_script (pubkeyhash : bytes) : bytes :=
  OP_DUP ++ OP_HASH160 ++ [x14] ++ pubkeyhash ++ OP_EQUALVERIFY ++ OP_CHECKSIG.

Definition op_return_script (push data_chunk : bytes) : bytes :=
  OP_RETURN ++ push ++ data_chunk.

Definition data_pubkey_of (data_chunk : bytes) : bytes :=
  [byte_of_Z (Z.of_nat (length data_chunk))] ++ data_chunk
    ++ repeat x00 (32 - length data_chunk).

Definition multisig_script (push1 source_pubkey : bytes) (data_chunk : bytes)
  : bytes :=
  OP_1 ++ push1 ++ source_pubkey ++ [x21] ++ data_pubkey_of data_chunk
       ++ OP_2 ++ OP_CHECKMULTISIG.

(** [o] is the output that embeds [data_chunk] with value [value]. *)
Definition embeds (multisig : multisig_arg) (value : Z) (data_chunk : bytes)
    (o : txout) : Prop :=
  out_value o = value
  /\ if truthy_multisig multisig
     then (length data_chunk <= 32)%nat
          /\ exists source_pubkey push1,
               op_push (Z.of_nat (length source_pubkey)) = Ok push1
               /\ out_script o = multisig_script push1 source_pubkey data_chunk
     else exists push,
            op_push (Z.of_nat (length data_chunk)) = Ok push
            /\ out_script o = op_return_script push data_chunk.

(** The part of a serialised transaction that comes before the outputs:
    version, number of inputs and inputs. *)
Definition tx_head (inputs : list coin) : result bytes :=
  let? s := to_bytes 4 1 in
  let? l := var_int (Z.of_nat (length inputs)) in
  serialise_inputs inputs (s ++ l).

(** An output that may be absent: the destination and the change. *)
Definition p2pkh_outs (c : config) (o : option (string * Z))
    (outs : list txout) : Prop :=
  match o with
  | Some (a, v) =>
      exists h, base58_decode a (ADDRESSVERSION c) = Ok h
                /\ outs = [mkTxout v (p2pkh_script h)]
  | None => outs = []
  end.

Definition data_outs (multisig : multisig_arg)
    (o : option (list bytes * Z)) (outs : list txout) : Prop :=
  match o with
  | Some (data_array, v) => Forall2 (embeds multisig v) data_array outs
  | None => outs = []
  end.

Definition locktime_bytes : bytes := [x00; x00; x00; x00].

(** [serialise] asks the wallet for the private key of the source: data
    is embedded in multi-signature outputs, no public key was given, and
    the run is not a unit test. *)
Definition key_from_wallet (c : config) (multisig : multisig_arg)
    (data_output : option (list bytes * Z)) : bool :=
  truthy_multisig multisig && negb (is_str multisig)
  && negb (bytes_eqb (PREFIX c) (UNITTEST_PREFIX c))
  && match data_output with
     | Some (_ :: _, _) => true
     | _ => false
     end.

(** Two computations, run in [e1] and in [e2], make no call and give the
    same result. *)
Definition agree {A} (e1 e2 : env) (m1 m2 : M A) : Prop :=
  forall t1 t2, exists r, m1 e1 t1 = (r, t1) /\ m2 e2 t2 = (r, t2).

(** The characters of the base58 alphabet. *)
Definition in_alphabet (c : ascii) : Prop := b58_index c <> None.

(** The digit that a character of the alphabet stands for. *)
Definition b58_digit (c : ascii) : Z :=
  match b58_index c with
  | Some d => d
  | None => 0
  end.

(** A natural number on as few bytes as it takes, most significant first;
    zero takes one byte. *)
Definition min_bytes (n : Z) : bytes :=
  if n =? 0 then [x00] else map byte_of_Z (digits 256 n).

(** The decoded bytes of a string of the alphabet, of which
    [base58_decode] takes the first for the version byte, the last four for
    the checksum and those in between for the payload: the number that the
    string writes in base 58, on as few bytes as it takes, behind one byte
    [v] for each ['1'] that the string starts with, its last character left
    out. *)
Definition decoded_bytes (v : byte) (s : string) : bytes :=
  let cs := list_ascii_of_string s in
  repeat v (count_leading (Ascii.eqb "1") (droplast 1 cs))
  ++ min_bytes (val 58 (map b58_digit cs)).

(** [s'] is [s] with the character at one position changed. *)
Definition single_change (s s' : string) : Prop :=
  exists (pre post : list ascii) (c c' : ascii),
    c <> c'
    /\ s = string_of_list_ascii (pre ++ c :: post)
    /\ s' = string_of_list_ascii (pre ++ c' :: post).

(** ** [get_unspent_txouts]: the transaction hash of blockchain.info *)

(** [''.join([s[i:i+2][::-1] for i in range(0, len(s), 2)])]: flip the
    character pairs within the string. *)
Fixpoint flip_pairs (s : list ascii) : list ascii :=
  match s with
  | a :: b :: r => b :: a :: flip_pairs r
  | _ => s
  end.

(** The two assignments to [d['tx_hash']]: reverse the string, then flip
    the character pairs; the result is the [txid] of the coin. *)
Definition blockchain_txid (tx_hash : string) : string :=
  let tx_hash := rev (list_ascii_of_string tx_hash) in      (* reverse string *)
  string_of_list_ascii (flip_pairs tx_hash).

(** ** Talking to bitcoind: [connect], [rpc], [transmit]

    Above, bitcoind is what answers a call of [rpc].  Here is [rpc] itself:
    the requests posted, the retries of [connect] and what is made of the
    answer.  A JSON value is kept as what [response.json()] returns (a
    number as an exact rational, an object as the list of its keys and
    values); bitcoind is a function that gives the outcome of a request
    from everything that happened before it. *)

Module Rpc.

#[warnings="-register-all"]
Inductive json : Type :=
| JNull                                   (* None *)
| JBool (b : bool)
| JNum (q : Q)
| JStr (s : string)
| JList (l : list json)
| JDict (d : list (string * json)).

(** The exceptions of this part.  [BitcoindError fmt (Some x)] is
    [BitcoindError(fmt.format(x))]. *)
Inductive exn : Type :=
| BitcoindRPCError (msg : string)
| BitcoindError (fmt : string) (arg : option json)
| KeyError (key : string)
| TypeError
| AttributeError
| IndexError
| RecursionError
| JSONDecodeError                         (* raised by response.json() *)
| RequestException (msg : string).        (* raised by requests, other than
                                             ConnectionError *)

(** The payload of a request: [method] and [params] ([jsonrpc] and [id]
    never change), posted to [url]. *)
Record request : Type := mkRequest {
  url : string;
  method : string;
  params : list json }.

Record response : Type := mkResponse {
  status_code : Z;
  reason : string;
  body : option json }.                   (* None: response.json() raises *)

(** What [request_session.post] does. *)
Inductive attempt : Type :=
| Answered (r : response)
| Refused                                 (* requests.exceptions.ConnectionError *)
| Failed (msg : string).                  (* any other exception *)

(** What the code does to the world. *)
Inductive event : Type :=
| NewSession                              (* requests.Session() *)
| Post (r : request)
| Stderr (line : string)                  (* print(line, file=sys.stderr) *)
| Sleep (secs : Z).                       (* time.sleep(secs) *)

Record surroundings : Type := mkSurroundings {
  conf : config;
  BITCOIND_RPC : string;                  (* config.BITCOIND_RPC *)
  (** the outcome of a request, given what happened before it *)
  bitcoind_answer : list event -> request -> attempt }.

Definition R (A : Type) : Type :=
  surroundings -> list event -> (exn + A) * list event.

Definition ret {A} (a : A) : R A := fun _ t => (inr a, t).
Definition raise {A} (x : exn) : R A := fun _ t => (inl x, t).
Definition lift {A} (r : exn + A) : R A := fun _ t => (r, t).
Definition ask : R surroundings := fun s t => (inr s, t).
Definition emit (ev : event) : R unit := fun _ t => (inr tt, t ++ [ev]).
Definition bind {A B} (m : R A) (k : A -> R B) : R B :=
  fun s t =>
    match m s t with
    | (inl x, t') => (inl x, t')
    | (inr a, t') => k a s t'
    end.

Declare Scope R_scope.
Delimit Scope R_scope with R.
Notation "x <- m ;; k" := (bind m (fun x => k))
  (at level 61, m at next level, right associativity) : R_scope.
#[local] Open Scope R_scope.

(** *** Python on JSON values *)

Fixpoint lookup (k : string) (d : list (string * json)) : option json :=
  match d with
  | [] => None
  | (k', v) :: d' => if String.eqb k k' then Some v else lookup k d'
  end.

(** [k in j.keys()] *)
Definition has_key (j : json) (k : string) : exn + bool :=
  match j with
  | JDict d => inr (match lookup k d with Some _ => true | None => false end)
  | _ => inl AttributeError
  end.

(** [j[k]] for a string [k] *)
Definition subscript (j : json) (k : string) : exn + json :=
  match j with
  | JDict d => match lookup k d with
               | Some v => inr v
               | None => inl (KeyError k)
               end
  | _ => inl TypeError
  end.

(** [l[0]] *)
Definition first {A} (l : list A) : exn + A :=
  match l with
  | x :: _ => inr x
  | [] => inl IndexError
  end.

(** [if j:] *)
Definition truthy (j : json) : bool :=
  match j with
  | JNull => false
  | JBool b => b
  | JNum q => negb (Qeq_bool q 0)
  | JStr s => negb (String.eqb s "")
  | JList l => match l with [] => false | _ => true end
  | JDict d => match d with [] => false | _ => true end
  end.

(** [j == None] *)
Definition is_none (j : json) : bool :=
  match j with
  | JNull => true
  | _ => false
  end.

(** [j == z] for an integer [z] *)
Definition eq_int (j : json) (z : Z) : bool :=
  match j with
  | JNum q => Qeq_bool q (inject_Z z)
  | JBool b => (if b then 1 else 0) =? z
  | _ => false
  end.

(** [str(z)] *)
Definition str_int (z : Z) : string := NilZero.string_of_int (Z.to_int z).

(** *** [connect] *)

Definition is_new_session (ev : event) : bool :=
  match ev with
  | NewSession => true
  | _ => false
  end.

(** [request_session.post(host, data=json.dumps(payload), headers=headers)] *)
Definition post (req : request) : R attempt :=
  fun s t => (inr (bitcoind_answer s t req), t ++ [Post req]).

Definition TRIES : nat := 12.

(** The loop [for i in range(TRIES)], from [i] on, with [n] rounds left. *)
Fixpoint connect_loop (n i : nat) (req : request) : R (option response) :=
  match n with
  | O => ret None
  | S n' =>
      a <- post req ;;
      match a with
      | Answered response =>
          _ <- (if (0 <? i)%nat then emit (Stderr "Successfully connected.")
                else ret tt) ;;
          ret (Some response)
      | Refused =>
          _ <- emit (Stderr
                 ("Could not connect to Bitcoind. Sleeping for five seconds. (Try "
                  ++ str_int (Z.of_nat (i + 1)) ++ "/"
                  ++ str_int (Z.of_nat TRIES) ++ ")")) ;;
          _ <- emit (Sleep 5) ;;
          connect_loop n' (S i) req
      | Failed msg => raise (RequestException msg)
      end
  end.

Definition connect (req : request) : R (option response) :=
  fun s t =>
    (* if not request_session: request_session = requests.Session() *)
    let t := if existsb is_new_session t then t else t ++ [NewSession] in
    connect_loop TRIES 0 req s t.

(** *** [rpc]

    [fuel] is the depth of recursion that Python allows. *)
Fixpoint rpc (fuel : nat) (method : string) (params : list json) : R json :=
  match fuel with
  | O => raise RecursionError
  | S fuel' =>
      s <- ask ;;
      response <- connect (mkRequest (BITCOIND_RPC s) method params) ;;
      match response with
      | None =>
          let network : string :=
            if TESTNET (conf s) then "testnet"%string else "mainnet"%string in
          raise (BitcoindRPCError
                   ("Cannot communicate with Bitcoind. (counterpartyd is set to run on "
                    ++ network ++ ", is Bitcoind?)"))
      | Some response =>
          if negb ((status_code response =? 200) || (status_code response =? 500))
          then raise (BitcoindRPCError
                        (str_int (status_code response) ++ " " ++ reason response))
          else
            (* Return result, with error handling. *)
            response_json <- lift (match body response with
                                   | Some j => inr j
                                   | None => inl JSONDecodeError
                                   end) ;;
            has_error <- lift (has_key response_json "error") ;;
            no_error <- (if negb has_error then ret true
                         else error <- lift (subscript response_json "error") ;;
                              ret (is_none error)) ;;
            if no_error then lift (subscript response_json "result")
            else
              error <- lift (subscript response_json "error") ;;
              code <- lift (subscript error "code") ;;
              if eq_int code (-5)          (* RPC_INVALID_ADDRESS_OR_KEY *)
              then raise (BitcoindError "{} Is txindex enabled in Bitcoind?"
                            (Some error))
              else if eq_int code (-4)     (* Unknown private key *)
              then
                (* If address in wallet, attempt to unlock. *)
                address <- lift (first params) ;;
                v <- rpc fuel' "validateaddress" [address] ;;
                ismine <- lift (subscript v "ismine") ;;
                if truthy ismine
                then raise (BitcoindError "Wallet is locked." None)
                else raise (BitcoindError "Source address not in wallet." None)
              else raise (BitcoindError "{}" (Some error))
      end
  end.

(** *** [transmit] *)

(** [transmit]; [JNull] is the [None] that Python returns when the
    function ends without [return]. *)
Definition transmit (fuel : nat) (unsigned_tx_hex : string) : R json :=
  (* Sign transaction. *)
  result <- rpc fuel "signrawtransaction" [JStr unsigned_tx_hex] ;;
  complete <- lift (subscript result "complete") ;;
  if truthy complete then
    signed_tx_hex <- lift (subscript result "hex") ;;
    rpc fuel "sendrawtransaction" [signed_tx_hex]
  else ret JNull.

(** The requests posted among some events. *)
Fixpoint posts (l : list event) : list request :=
  match l with
  | [] => []
  | Post r :: l' => r :: posts l'
  | _ :: l' => posts l'
  end.

(** The seconds slept among some events. *)
Fixpoint slept (l : list event) : Z :=
  match l with
  | [] => 0
  | Sleep n :: l' => n + slept l'
  | _ :: l' => slept l'
  end.

(** [resp] is an answer of bitcoind that [rpc] reads, and its JSON carries
    the error [err]. *)
Definition error_response (resp : response) (err : json) : Prop :=
  (status_code resp = 200 \/ status_code resp = 500)
  /\ exists d, body resp = Some (JDict d)
               /\ lookup "error" d = Some err /\ is_none err = false.

(** *** Examples of surroundings *)

(** A bitcoind that gives the same outcome to every request. *)
Definition constant_bitcoind (a : attempt) : surroundings :=
  {| conf := mainnet_config;
     BITCOIND_RPC := "http://localhost:8332";
     bitcoind_answer := fun _ _ => a |}.

Definition ok_response (j : json) : response :=
  {| status_code := 200; reason := "OK"; body := Some j |}.

(** The answer to [getblockcount]. *)
Definition example_result : json :=
  JDict [("result"%string, JNum 7); ("error"%string, JNull)].

(** The answer to a request that needs a private key while the wallet is
    locked. *)
Definition example_error : json :=
  JDict [("code"%string, JNum (-4));
         ("message"%string, JStr "Unknown private key")].

Definition example_error_result : json :=
  JDict [("result"%string, JNull); ("error"%string, example_error)].

(** A bitcoind that signs every transaction completely and accepts every
    transaction sent. *)
Definition example_signed : json :=
  JDict [("result"%string,
          JDict [("hex"%string, JStr "0100000000000000000000");
                 ("complete"%string, JBool true)]);
         ("error"%string, JNull)].

Definition example_sent : json :=
  JDict [("result"%string, JStr "ae241be7"); ("error"%string, JNull)].

Definition signing_bitcoind : surroundings :=
  {| conf := mainnet_config;
     BITCOIND_RPC := "http://localhost:8332";
     bitcoind_answer := fun _ req =>
       if String.eqb (method req) "signrawtransaction"
       then Answered (ok_response example_signed)
       else Answered (ok_response example_sent) |}.

End Rpc.

(** ** Further notions and examples *)

(** Every byte, in increasing order. *)
Definition all_bytes : list byte := map byte_of_Z (map Z.of_nat (seq 0 256)).

(** Reads back what [op_push] writes: the number pushed and the bytes that
    follow. *)
Definition parse_op_push (b : bytes) : option (Z * bytes) :=
  match b with
  | [] => None
  | x :: r =>
      let v := Z_of_byte x in
      if v <? 0x4c then Some (v, r)
      else
        let n := if v =? 0x4c then 1%nat
                 else if v =? 0x4d then 2%nat else 4%nat in
        match take n r with
        | Some (l, r') => Some (le_val l, r')
        | None => None
        end
  end.

(** The sum of the values of a list of outputs. *)
Definition sum_values (l : list txout) : Z :=
  fold_right (fun o a => out_value o + a) 0 l.

(** [base58_decode] raises an exception on [address]. *)
Definition undecodable (c : config) (address : string) : Prop :=
  exists x, base58_decode address (ADDRESSVERSION c) = Raise x.

(** [serialise] asks the wallet for the private key of the source, once
    for every data chunk. *)
Definition wallet_key (c : config) (multisig : multisig_arg) : bool :=
  truthy_multisig multisig && negb (is_str multisig)
  && negb (bytes_eqb (PREFIX c) (UNITTEST_PREFIX c)).

(** *** Transaction inputs and whole transactions

    An input as it stands in a serialised transaction, and a transaction
    read back from its bytes. *)
Record txin : Type := mkTxin {
  prev_hash : bytes;
  prev_index : Z;
  in_script : bytes;
  in_sequence : Z }.

Record parsed_tx : Type := mkParsedTx {
  tx_version : Z;
  tx_ins : list txin;
  tx_outs : list txout;
  tx_locktime : Z }.

Definition parse_txin (b : bytes) : option (txin * bytes) :=
  match take 32 b with
  | None => None
  | Some (h, b1) =>
      match take 4 b1 with
      | None => None
      | Some (i, b2) =>
          match parse_var_int b2 with
          | None => None
          | Some (l, b3) =>
              match take (Z.to_nat l) b3 with
              | None => None
              | Some (script, b4) =>
                  match take 4 b4 with
                  | None => None
                  | Some (sq, b5) =>
                      Some (mkTxin h (le_val i) script (le_val sq), b5)
                  end
              end
          end
      end
  end.

Fixpoint parse_txins (n : nat) (b : bytes) : option (list txin * bytes) :=
  match n with
  | O => Some ([], b)
  | S n' =>
      match parse_txin b with
      | None => None
      | Some (i, b') =>
          match parse_txins n' b' with
          | None => None
          | Some (l, b'') => Some (i :: l, b'')
          end
      end
  end.

(** A whole transaction: version, inputs, outputs, lock time, and nothing
    after them. *)
Definition parse_tx (b : bytes) : option parsed_tx :=
  match take 4 b with
  | None => None
  | Some (v, b1) =>
      match parse_var_int b1 with
      | None => None
      | Some (n, b2) =>
          match parse_txins (Z.to_nat n) b2 with
          | None => None
          | Some (ins, b3) =>
              match parse_outputs b3 with
              | None => None
              | Some (outs, b4) =>
                  match take 4 b4 with
                  | Some (lk, []) => Some (mkParsedTx (le_val v) ins outs (le_val lk))
                  | _ => None
                  end
              end
          end
      end
  end.

(** The input that [serialise] writes for a coin. *)
Definition txin_of (c : coin) : txin :=
  mkTxin (rev (bytes_of_hex (txid c))) (vout c)
         (str_encode (scriptPubKey c)) 0xffffffff.

(** A build with no data and no change: one coin of 100000 satoshis pays
    90000 to the destination and a fee of 10000. *)
Definition example_exact_hex : string :=
  "0100000001c1d8c075936c3495f6d653c50f73d987f75448d97a750249b1eb83bee71b24ae"
  ++ "00000000323736613931343362376539306635633861346536653264386131623561"
  ++ "376532633566356635653263356635663538386163ffffffff01905f010000000000"
  ++ "1976a91417347c75db29dcbdb851fbcbc4f2763388f243ad88ac00000000".

(** The configuration of the unit tests: the prefix is the one of the
    tests. *)
Definition unittest_config : config :=
  {| ADDRESSVERSION := [x00];
     UNIT := 100000000;
     REGULAR_DUST_SIZE := 5430;
     MULTISIG_DUST_SIZE := 5430 * 2;
     OP_RETURN_VALUE := 0;
     TESTNET := true;
     PREFIX := str_encode "TESTXXXX";
     UNITTEST_PREFIX := str_encode "TESTXXXX" |}.

Definition unittest_env (n : bitcoind) : env :=
  {| cfg := unittest_config; node := n; lib := example_pycoin;
     listunspent_test_json := Ok example_coins |}.

(* ================================================================== *)
(** * Part II.  Properties                                              *)
(* ================================================================== *)

Example sha256_abc :
  hexlify (SHA256.sha256 (str_encode "abc"))
  = "ba7816bf8f01cfea414140de5dae2223b00361a396177a9cb410ff61f20015ad"%string.
Proof. vm_compute. reflexivity. Qed.

Example sha256_empty :
  hexlify (SHA256.sha256 [])
  = "e3b0c44298fc1c149afbf4c8996fb92427ae41e4649b934ca495991b7852b855"%string.
Proof. vm_compute. reflexivity. Qed.

Example sha256_two_blocks :
  hexlify (SHA256.sha256 (str_encode
    "abcdbcdecdefdefgefghfghighijhijkijkljklmklmnlmnomnopnopq"))
  = "248d6a61d20638b8e5c026930c3e6039a33ce45964ff2167f6ecedd419db06c1"%string.
Proof. vm_compute. reflexivity. Qed.

Example dhash_zero21 :
  hexlify (firstn 4 (dhash (repeat x00 21))) = "94a00911"%string.
Proof. vm_compute. reflexivity. Qed.

Example encode_zero_hash :
  base58_check_encode "0000000000000000000000000000000000000000" [x00]
  = Ok "1111111111111111111114oLvT2"%string.
Proof. vm_compute. reflexivity. Qed.

Example encode_wiki :
  base58_check_encode "010966776006953d5567439e5e39f86a0d273bee" [x00]
  = Ok "16UwLL9Risc3QfPqBUvKofHmBQ7wMtjvM"%string.
Proof. vm_compute. reflexivity. Qed.

Example decode_wiki :
  base58_decode "16UwLL9Risc3QfPqBUvKofHmBQ7wMtjvM" [x00]
  = Ok (bytes_of_hex "010966776006953d5567439e5e39f86a0d273bee").
Proof. vm_compute. reflexivity. Qed.

Example decode_zero_hash :
  base58_decode "1111111111111111111114oLvT2" [x00]
  = Ok (repeat x00 20).
Proof. vm_compute. reflexivity. Qed.

(** ** Bytes and numbers *)

Lemma Z_of_byte_range (b : byte) : 0 <= Z_of_byte b < 256.
Proof.
  unfold Z_of_byte. pose proof (Byte.to_N_bounded b) as H. lia.
Qed.

Lemma byte_of_Z_of_byte (b : byte) : byte_of_Z (Z_of_byte b) = b.
Proof.
  unfold byte_of_Z. pose proof (Z_of_byte_range b) as H.
  rewrite Z.mod_small by lia. unfold Z_of_byte.
  rewrite N2Z.id, Byte.of_to_N. reflexivity.
Qed.

Lemma Z_of_byte_of_Z (z : Z) : Z_of_byte (byte_of_Z z) = z mod 256.
Proof.
  unfold byte_of_Z, Z_of_byte.
  assert (H : 0 <= z mod 256 < 256) by (apply Z.mod_pos_bound; lia).
  destruct (Byte.of_N (Z.to_N (z mod 256))) as [b|] eqn:E.
  - apply Byte.to_of_N in E. rewrite E. lia.
  - apply Byte.of_N_None_iff in E. lia.
Qed.

Lemma Z_of_byte_inj (a b : byte) : Z_of_byte a = Z_of_byte b -> a = b.
Proof.
  intros H. rewrite <- (byte_of_Z_of_byte a), <- (byte_of_Z_of_byte b).
  now rewrite H.
Qed.

Lemma Z_of_byte_x00 (b : byte) : Z_of_byte b = 0 <-> b = x00.
Proof.
  split; intros H.
  - apply Z_of_byte_inj. rewrite H. reflexivity.
  - subst. reflexivity.
Qed.

Lemma byte_eqb_eq (a b : byte) : byte_eqb a b = true <-> a = b.
Proof.
  unfold byte_eqb. split; [apply Byte.byte_dec_bl | apply Byte.byte_dec_lb].
Qed.

(** ** Positional notation *)

Section Digits.

Variable b : Z.
Hypothesis Hb : 2 <= b.

Lemma fold_val (ds : list Z) (a : Z) :
  fold_left (fun a d => a * b + d) ds a
  = a * b ^ Z.of_nat (length ds) + val b ds.
Proof.
  unfold val. revert a.
  induction ds as [|d ds IH]; intros a; cbn [fold_left length].
  - rewrite Z.pow_0_r. lia.
  - rewrite IH, (IH (0 * b + d)), Nat2Z.inj_succ, Z.pow_succ_r by lia. ring.
Qed.

Lemma val_nil : val b [] = 0.
Proof. reflexivity. Qed.

Lemma val_cons (d : Z) (ds : list Z) :
  val b (d :: ds) = d * b ^ Z.of_nat (length ds) + val b ds.
Proof.
  unfold val at 1. cbn [fold_left]. rewrite fold_val. ring.
Qed.

Lemma val_app (xs ys : list Z) :
  val b (xs ++ ys) = val b xs * b ^ Z.of_nat (length ys) + val b ys.
Proof.
  unfold val at 1. rewrite fold_left_app.
  fold (val b xs). apply fold_val.
Qed.

Lemma val_snoc (xs : list Z) (d : Z) : val b (xs ++ [d]) = val b xs * b + d.
Proof.
  rewrite val_app. cbn [length]. rewrite Z.pow_1_r.
  unfold val at 2. cbn. ring.
Qed.

Lemma val_bound (ds : list Z) :
  in_base b ds -> 0 <= val b ds < b ^ Z.of_nat (length ds).
Proof.
  induction 1 as [|d ds Hd _ IH].
  - rewrite val_nil. cbn. lia.
  - rewrite val_cons. cbn [length]. rewrite Nat2Z.inj_succ, Z.pow_succ_r by lia.
    assert (0 < b ^ Z.of_nat (length ds)) by (apply Z.pow_pos_nonneg; lia).
    nia.
Qed.

Lemma val_repeat_zero (n : nat) (ds : list Z) :
  val b (repeat 0 n ++ ds) = val b ds.
Proof.
  induction n as [|n IH]; [reflexivity|].
  cbn [repeat app]. rewrite val_cons, IH. lia.
Qed.

Lemma val_pos (ds : list Z) :
  in_base b ds -> no_leading_zero ds -> ds <> [] -> 0 < val b ds.
Proof.
  intros Hin Hnz Hne. destruct ds as [|d ds]; [congruence|].
  inversion Hin as [|? ? Hd Hds]; subst. cbn in Hnz.
  rewrite val_cons. pose proof (val_bound ds Hds).
  assert (0 < b ^ Z.of_nat (length ds)) by (apply Z.pow_pos_nonneg; lia).
  nia.
Qed.

Lemma div_fuel (n : Z) (f : nat) :
  0 <= n < 2 ^ Z.of_nat (S f) -> 0 <= n / b < 2 ^ Z.of_nat f.
Proof.
  intros [H0 H1]. rewrite Nat2Z.inj_succ, Z.pow_succ_r in H1 by lia.
  split; [apply Z.div_pos; lia|].
  apply Z.div_lt_upper_bound; [lia|].
  assert (0 < 2 ^ Z.of_nat f) by (apply Z.pow_pos_nonneg; lia). nia.
Qed.

Lemma digits_acc_app (f : nat) (n : Z) (acc1 acc2 : list Z) :
  digits_acc b f n (acc1 ++ acc2) = digits_acc b f n acc1 ++ acc2.
Proof.
  revert n acc1. induction f as [|f IH]; intros n acc1; cbn [digits_acc].
  - reflexivity.
  - destruct (n <=? 0); [reflexivity|].
    rewrite app_comm_cons. apply IH.
Qed.

Lemma digits_acc_fuel (f1 f2 : nat) (n : Z) (acc : list Z) :
  0 <= n < 2 ^ Z.of_nat f1 -> n < 2 ^ Z.of_nat f2 ->
  digits_acc b f1 n acc = digits_acc b f2 n acc.
Proof.
  revert f2 n acc. induction f1 as [|f1 IH]; intros f2 n acc H1 H2.
  - cbn in H1. assert (n = 0) by lia. subst n.
    destruct f2; reflexivity.
  - cbn [digits_acc]. destruct (Z.leb_spec n 0) as [Hn|Hn].
    + destruct f2; cbn [digits_acc]; [reflexivity|].
      destruct (Z.leb_spec n 0); [reflexivity|lia].
    + destruct f2 as [|f2]; [cbn in H2; lia|].
      cbn [digits_acc]. destruct (Z.leb_spec n 0); [lia|].
      apply IH; [apply div_fuel; lia|].
      apply (div_fuel n f2). lia.
Qed.

Lemma log2_fuel (n : Z) : 0 <= n -> n < 2 ^ Z.of_nat (S (Z.to_nat (Z.log2 n))).
Proof.
  intros Hn. rewrite Nat2Z.inj_succ, Z2Nat.id by apply Z.log2_nonneg.
  destruct (Z.eq_dec n 0) as [->|Hz]; [cbn; lia|].
  apply Z.log2_spec. lia.
Qed.

Lemma digits_step (n : Z) :
  0 < n -> digits b n = digits b (n / b) ++ [n mod b].
Proof.
  intros Hn. unfold digits at 1. cbn [digits_acc].
  destruct (Z.leb_spec n 0); [lia|].
  change [n mod b] with ([] ++ [n mod b]).
  rewrite digits_acc_app. f_equal.
  pose proof (log2_fuel n ltac:(lia)) as Hf.
  apply digits_acc_fuel.
  - apply div_fuel. lia.
  - apply log2_fuel. apply Z.div_pos; lia.
Qed.

(** Induction along [n -> n / b]. *)
Lemma div_induction (P : Z -> Prop) :
  P 0 -> (forall n, 0 < n -> P (n / b) -> P n) -> forall n, 0 <= n -> P n.
Proof.
  intros H0 Hs n. induction (Z.lt_wf 0 n) as [n _ IH]. intros Hn.
  destruct (Z.eq_dec n 0) as [->|Hz]; [exact H0|].
  apply Hs; [lia|]. apply IH.
  - split; [apply Z.div_pos; lia | apply Z.div_lt; lia].
  - apply Z.div_pos; lia.
Qed.

Lemma val_digits (n : Z) : 0 <= n -> val b (digits b n) = n.
Proof.
  revert n. apply (div_induction (fun n => val b (digits b n) = n));
    [reflexivity|].
  intros m Hm IH. rewrite digits_step, val_snoc, IH by lia.
  rewrite (Z.div_mod m b) at 3 by lia. ring.
Qed.

Lemma digits_in_base (n : Z) : 0 <= n -> in_base b (digits b n).
Proof.
  revert n. apply (div_induction (fun n => in_base b (digits b n)));
    [constructor|].
  intros m Hm IH. rewrite digits_step by lia.
  apply Forall_app. split; [exact IH|].
  constructor; [|constructor]. apply Z.mod_pos_bound. lia.
Qed.

Lemma digits_no_leading_zero (n : Z) :
  0 <= n -> no_leading_zero (digits b n).
Proof.
  revert n. apply (div_induction (fun n => no_leading_zero (digits b n)));
    [exact I|].
  intros m Hm IH. rewrite digits_step by lia.
  destruct (digits b (m / b)) as [|d ds] eqn:E; [|exact IH].
  cbn. assert (Hq : m / b = 0).
  { rewrite <- (val_digits (m / b)) by (apply Z.div_pos; lia).
    rewrite E. reflexivity. }
  pose proof (Z.div_mod m b ltac:(lia)). lia.
Qed.

Lemma digits_nonempty (n : Z) : 0 < n -> digits b n <> [].
Proof.
  intros Hn. rewrite digits_step by lia.
  intros E. apply app_eq_nil in E. destruct E as [_ E]. discriminate.
Qed.

(** [digits] inverts [val] on digit lists without a leading zero. *)
Lemma digits_val (ds : list Z) :
  in_base b ds -> no_leading_zero ds -> digits b (val b ds) = ds.
Proof.
  induction ds as [|d ds IH] using rev_ind; intros Hin Hnz.
  - reflexivity.
  - apply Forall_app in Hin. destruct Hin as [Hds Hd].
    inversion Hd as [|? ? Hd' _]; subst.
    assert (Hnz' : no_leading_zero ds) by (destruct ds; [exact I|exact Hnz]).
    pose proof (val_bound ds Hds) as Hv.
    rewrite val_snoc.
    assert (Hpos : 0 < val b ds * b + d).
    { destruct ds as [|d0 ds0].
      - cbn in Hnz. rewrite val_nil. lia.
      - pose proof (val_pos _ Hds Hnz' ltac:(discriminate)). nia. }
    rewrite digits_step by exact Hpos.
    replace ((val b ds * b + d) / b) with (val b ds).
    2:{ apply Z.div_unique with d; lia. }
    replace ((val b ds * b + d) mod b) with d.
    2:{ apply Z.mod_unique with (val b ds); lia. }
    rewrite IH by assumption. reflexivity.
Qed.

End Digits.

(** ** Hexadecimal strings *)

Lemma hex_val_hex_char (d : Z) : 0 <= d < 16 -> hex_val (hex_char d) = Some d.
Proof.
  intros H.
  assert (Hn : forall n : nat, (n < 16)%nat ->
             hex_val (hex_char (Z.of_nat n)) = Some (Z.of_nat n)).
  { intros n Hn. do 16 (destruct n as [|n]; [reflexivity|]). lia. }
  rewrite <- (Z2Nat.id d) by lia. apply Hn. lia.
Qed.

Lemma hex_char_0 : hex_char 0 = "0"%char.
Proof. reflexivity. Qed.

Lemma nibbles_in_base (bs : bytes) : in_base 16 (nibbles bs).
Proof.
  induction bs as [|x bs IH]; [constructor|].
  pose proof (Z_of_byte_range x).
  cbn [nibbles]. constructor; [|constructor; [|exact IH]].
  - split; [apply Z.div_pos; lia | apply Z.div_lt_upper_bound; lia].
  - apply Z.mod_pos_bound. lia.
Qed.

Lemma nibbles_length (bs : bytes) : length (nibbles bs) = (2 * length bs)%nat.
Proof. induction bs; cbn [nibbles length]; lia. Qed.

Lemma hexlify_chars_nibbles (bs : bytes) :
  hexlify_chars bs = map hex_char (nibbles bs).
Proof. induction bs as [|x bs IH]; cbn; [|rewrite IH]; reflexivity. Qed.

Lemma val_nibbles (bs : bytes) : val 16 (nibbles bs) = be_val bs.
Proof.
  unfold be_val. induction bs as [|x bs IH]; [reflexivity|].
  cbn [nibbles map]. rewrite !val_cons by lia. cbn [length].
  rewrite IH, nibbles_length, length_map.
  replace (Z.of_nat (S (2 * length bs))) with (Z.succ (2 * Z.of_nat (length bs)))
    by lia.
  replace (Z.of_nat (2 * length bs)) with (2 * Z.of_nat (length bs)) by lia.
  rewrite Z.pow_succ_r, Z.pow_mul_r by lia.
  change (16 ^ 2) with 256.
  rewrite (Z.div_mod (Z_of_byte x) 16) at 3 by lia. ring.
Qed.

Lemma int16_acc_hex (ds : list Z) (acc : Z) :
  in_base 16 ds ->
  int16_acc acc (map hex_char ds)
  = Some (acc * 16 ^ Z.of_nat (length ds) + val 16 ds).
Proof.
  intros Hin. revert acc.
  induction Hin as [|d ds Hd _ IH]; intros acc; cbn [map int16_acc length].
  - rewrite val_nil. f_equal. cbn. lia.
  - rewrite hex_val_hex_char, IH, val_cons by lia.
    f_equal. rewrite Nat2Z.inj_succ, Z.pow_succ_r by lia. ring.
Qed.

(** [int('0x0' + hexlify(b), 16)] is the big-endian value of [b]. *)
Lemma int16_hexlify (bs : bytes) :
  int16 ("0"%char :: hexlify_chars bs) = Some (be_val bs).
Proof.
  unfold int16. cbn [int16_acc]. change (hex_val "0") with (Some 0).
  cbv iota. rewrite hexlify_chars_nibbles, int16_acc_hex by apply nibbles_in_base.
  rewrite val_nibbles. f_equal.
Qed.

Lemma unhexlify_hexlify_chars (bs : bytes) :
  unhexlify_chars (hexlify_chars bs) = Some bs.
Proof.
  induction bs as [|x bs IH]; [reflexivity|].
  pose proof (Z_of_byte_range x).
  cbn [hexlify_chars unhexlify_chars].
  rewrite !hex_val_hex_char, IH.
  - f_equal. f_equal. rewrite <- Z.div_mod by lia. apply byte_of_Z_of_byte.
  - apply Z.mod_pos_bound. lia.
  - split; [apply Z.div_pos; lia | apply Z.div_lt_upper_bound; lia].
Qed.

Lemma list_ascii_of_hexlify (bs : bytes) :
  list_ascii_of_string (hexlify bs) = hexlify_chars bs.
Proof. apply list_ascii_of_string_of_list_ascii. Qed.

Lemma unhexlify_hexlify (bs : bytes) : unhexlify (hexlify bs) = Ok bs.
Proof.
  unfold unhexlify. now rewrite list_ascii_of_hexlify, unhexlify_hexlify_chars.
Qed.

Lemma be_val_cons (x : byte) (bs : bytes) :
  be_val (x :: bs) = Z_of_byte x * 256 ^ Z.of_nat (length bs) + be_val bs.
Proof. unfold be_val. cbn [map]. now rewrite val_cons, length_map by lia. Qed.

Lemma be_val_app (xs ys : bytes) :
  be_val (xs ++ ys) = be_val xs * 256 ^ Z.of_nat (length ys) + be_val ys.
Proof. unfold be_val. now rewrite map_app, val_app, length_map by lia. Qed.

Lemma be_val_bound (bs : bytes) : 0 <= be_val bs < 256 ^ Z.of_nat (length bs).
Proof.
  unfold be_val. rewrite <- (length_map Z_of_byte bs).
  apply val_bound; [lia|]. apply Forall_map, Forall_forall.
  intros x _. apply Z_of_byte_range.
Qed.

Lemma be_val_zeros (n : nat) (bs : bytes) :
  be_val (repeat x00 n ++ bs) = be_val bs.
Proof.
  induction n as [|n IH]; [reflexivity|].
  cbn [repeat app]. rewrite be_val_cons, IH. cbn. lia.
Qed.

(** The bytes written by ['%x'] and [unhexlify] are the shortest big-endian
    representation. *)
Lemma int_to_bytes_be_val (x : byte) (bs : bytes) :
  x <> x00 -> int_to_bytes (be_val (x :: bs)) = Ok (x :: bs).
Proof.
  intros Hx. pose proof (Z_of_byte_range x) as Hr.
  assert (Hx0 : Z_of_byte x <> 0) by (now rewrite Z_of_byte_x00).
  assert (Hpos : 0 < be_val (x :: bs)).
  { rewrite be_val_cons. pose proof (be_val_bound bs).
    assert (0 < 256 ^ Z.of_nat (length bs)) by (apply Z.pow_pos_nonneg; lia).
    nia. }
  unfold int_to_bytes, percent_x.
  destruct (Z.eqb_spec (be_val (x :: bs)) 0) as [E|_]; [lia|].
  rewrite <- val_nibbles. cbn [nibbles].
  destruct (Z.eq_dec (Z_of_byte x / 16) 0) as [Hq|Hq].
  - (* one leading zero digit, '%x' drops it and the code puts it back *)
    rewrite Hq, val_cons, Z.mul_0_l, Z.add_0_l.
    assert (Hm : Z_of_byte x mod 16 <> 0).
    { pose proof (Z.div_mod (Z_of_byte x) 16 ltac:(lia)). lia. }
    rewrite digits_val; [|lia| |exact Hm].
    2:{ pose proof (nibbles_in_base (x :: bs)) as Hn. cbn [nibbles] in Hn.
        now inversion Hn. }
    cbn [map length]. rewrite length_map, nibbles_length.
    replace (Nat.eqb (Nat.modulo (S (2 * length bs)) 2) 0) with false.
    2:{ symmetry. apply Nat.eqb_neq.
        replace (S (2 * length bs))%nat with (1 + length bs * 2)%nat by lia.
        rewrite Nat.Div0.mod_add. cbn. lia. }
    rewrite <- hex_char_0, <- Hq.
    change (hex_char (Z_of_byte x / 16) :: hex_char (Z_of_byte x mod 16)
              :: map hex_char (nibbles bs))
      with (map hex_char (nibbles (x :: bs))).
    now rewrite <- hexlify_chars_nibbles, unhexlify_hexlify_chars.
  - rewrite digits_val; [|lia| |exact Hq].
    2:{ apply (nibbles_in_base (x :: bs)). }
    change (Z_of_byte x / 16 :: Z_of_byte x mod 16 :: nibbles bs)
      with (nibbles (x :: bs)).
    rewrite length_map, nibbles_length.
    replace (Nat.eqb (Nat.modulo (2 * length (x :: bs)) 2) 0) with true.
    2:{ symmetry. apply Nat.eqb_eq.
        rewrite Nat.mul_comm. apply Nat.Div0.mod_mul. }
    now rewrite <- hexlify_chars_nibbles, unhexlify_hexlify_chars.
Qed.

Lemma bytes_eqb_eq (a b : bytes) : bytes_eqb a b = true <-> a = b.
Proof.
  revert b. induction a as [|x a IH]; intros [|y b]; cbn [bytes_eqb];
    try (split; [discriminate|congruence]); [tauto|].
  rewrite andb_true_iff, byte_eqb_eq, IH. split.
  - intros [-> ->]. reflexivity.
  - intros E. now inversion E.
Qed.

Lemma bytes_eqb_refl (a : bytes) : bytes_eqb a a = true.
Proof. now apply bytes_eqb_eq. Qed.

(** ** Slices and leading runs *)

Lemma lastn_app {A} (n : nat) (l1 l2 : list A) :
  length l2 = n -> lastn n (l1 ++ l2) = l2.
Proof.
  intros <-. unfold lastn. rewrite length_app.
  replace (length l1 + length l2 - length l2)%nat with (length l1 + 0)%nat by lia.
  rewrite skipn_app, Nat.add_0_r, skipn_all, Nat.sub_diag. reflexivity.
Qed.

Lemma droplast_app {A} (n : nat) (l1 l2 : list A) :
  length l2 = n -> droplast n (l1 ++ l2) = l1.
Proof.
  intros <-. unfold droplast. rewrite length_app.
  replace (length l1 + length l2 - length l2)%nat with (length l1) by lia.
  rewrite firstn_app, firstn_all, Nat.sub_diag. cbn. apply app_nil_r.
Qed.

Lemma count_leading_repeat {A} (p : A -> bool) (a : A) (n : nat) (l : list A) :
  p a = true ->
  count_leading p (repeat a n ++ l) = (n + count_leading p l)%nat.
Proof.
  intros Ha. induction n as [|n IH]; [reflexivity|].
  cbn [repeat app count_leading]. rewrite Ha, IH. reflexivity.
Qed.

Lemma count_leading_le {A} (p : A -> bool) (l : list A) :
  (count_leading p l <= length l)%nat.
Proof.
  induction l as [|x l IH]; cbn [count_leading length]; [lia|].
  destruct (p x); lia.
Qed.

Lemma count_leading_app_lt {A} (p : A -> bool) (l1 l2 : list A) :
  (count_leading p l1 < length l1)%nat ->
  count_leading p (l1 ++ l2) = count_leading p l1.
Proof.
  induction l1 as [|x l1 IH]; cbn [count_leading length app]; [lia|].
  destruct (p x); [|reflexivity]. intros H. rewrite IH by lia. reflexivity.
Qed.

(** A byte string is a run of zero bytes followed by nothing or by a string
    that starts with a non-zero byte. *)
Lemma leading_zeros_split (bs : bytes) :
  let z := count_leading (byte_eqb x00) bs in
  bs = repeat x00 z ++ skipn z bs
  /\ match skipn z bs with
     | [] => True
     | x :: _ => x <> x00
     end.
Proof.
  induction bs as [|x bs IH]; [now split|].
  cbn [count_leading]. destruct (byte_eqb x00 x) eqn:E.
  - apply byte_eqb_eq in E. subst x. destruct IH as [IH1 IH2].
    cbn [repeat skipn app]. split; [now rewrite <- IH1 | exact IH2].
  - cbn [repeat skipn app]. split; [reflexivity|].
    intros ->. now rewrite (proj2 (byte_eqb_eq x00 x00) eq_refl) in E.
Qed.

Lemma count_leading_all {A} (p : A -> bool) (l : list A) :
  count_leading p l = length l -> Forall (fun x => p x = true) l.
Proof.
  induction l as [|x l IH]; cbn [count_leading length]; [constructor|].
  destruct (p x) eqn:E; [|discriminate].
  intros H. constructor; [exact E | apply IH; lia].
Qed.

Lemma all_zero_repeat (bs : bytes) :
  count_leading (byte_eqb x00) bs = length bs -> bs = repeat x00 (length bs).
Proof.
  intros H. apply count_leading_all in H.
  induction H as [|x l Hx _ IH]; [reflexivity|].
  apply byte_eqb_eq in Hx. subst x. cbn [length repeat]. now rewrite <- IH.
Qed.

Lemma droplast1_repeat_cons {A} (a x : A) (n : nat) (l : list A) :
  droplast 1 (repeat a n ++ x :: l) = repeat a n ++ droplast 1 (x :: l).
Proof.
  unfold droplast. rewrite length_app, repeat_length. cbn [length].
  replace (n + S (length l) - 1)%nat with (n + length l)%nat by lia.
  rewrite firstn_app, repeat_length.
  rewrite firstn_all2 by (rewrite repeat_length; lia).
  f_equal. f_equal; lia.
Qed.

Lemma count_leading_droplast1 {A} (p : A -> bool) (a x : A) (n : nat)
    (l : list A) :
  p a = true -> p x = false ->
  count_leading p (droplast 1 (repeat a n ++ x :: l)) = n.
Proof.
  intros Ha Hx. rewrite droplast1_repeat_cons, count_leading_repeat by exact Ha.
  unfold droplast. cbn [length]. rewrite Nat.sub_succ, Nat.sub_0_r.
  destruct l as [|y l]; cbn [length firstn count_leading].
  - lia.
  - rewrite Hx. lia.
Qed.

Lemma bytes_mul_single (x : byte) (n : nat) : bytes_mul [x] n = repeat x n.
Proof. induction n as [|n IH]; [reflexivity|]. cbn. now rewrite IH. Qed.

(** ** SHA-256 digests are 32 bytes long *)

Lemma be_bytes_length (n : nat) (x : Z) : length (SHA256.be_bytes n x) = n.
Proof.
  unfold SHA256.be_bytes. now rewrite length_map, length_rev, length_seq.
Qed.

Lemma sha256_length (m : bytes) : length (SHA256.sha256 m) = 32%nat.
Proof.
  unfold SHA256.sha256, SHA256.digest_of.
  rewrite !length_app, !be_bytes_length. reflexivity.
Qed.

Lemma dhash_length (m : bytes) : length (dhash m) = 32%nat.
Proof. apply sha256_length. Qed.

Lemma checksum_length (m : bytes) : length (firstn 4 (dhash m)) = 4%nat.
Proof. rewrite length_firstn, dhash_length. reflexivity. Qed.

(** ** The base58 alphabet *)

Lemma b58_index_char (r : Z) : 0 <= r < 58 -> b58_index (b58_char r) = Some r.
Proof.
  intros H.
  assert (Hn : forall n : nat, (n < 58)%nat ->
             b58_index (b58_char (Z.of_nat n)) = Some (Z.of_nat n)).
  { intros n Hn. do 58 (destruct n as [|n]; [reflexivity|]). lia. }
  rewrite <- (Z2Nat.id r) by lia. apply Hn. lia.
Qed.

Lemma b58_char_inj (r r' : Z) :
  0 <= r < 58 -> 0 <= r' < 58 -> b58_char r = b58_char r' -> r = r'.
Proof.
  intros H H' E. apply b58_index_char in H, H'. congruence.
Qed.

Lemma b58_to_int_digits (ds : list Z) (acc : Z) :
  in_base 58 ds ->
  b58_to_int acc (map b58_char ds)
  = Ok (acc * 58 ^ Z.of_nat (length ds) + val 58 ds).
Proof.
  intros Hin. revert acc.
  induction Hin as [|d ds Hd _ IH]; intros acc; cbn [map b58_to_int length].
  - rewrite val_nil. f_equal. cbn. lia.
  - rewrite b58_index_char, IH, val_cons by lia.
    f_equal. rewrite Nat2Z.inj_succ, Z.pow_succ_r by lia. ring.
Qed.

(** ** Base58Check: encoding then decoding *)

(** What [base58_check_encode] computes, spelled out. *)
Lemma base58_check_encode_eq (b : string) (p version : bytes) :
  unhexlify b = Ok p ->
  let d := version ++ p in
  let ah := d ++ firstn 4 (dhash d) in
  base58_check_encode b version
  = Ok (string_of_list_ascii
          (map b58_char (repeat 0 (count_leading (byte_eqb x00) d)
                           ++ digits 58 (be_val ah)))).
Proof.
  intros Hb d ah. unfold base58_check_encode. rewrite Hb. cbn [rbind Ok].
  fold d. fold ah. rewrite int16_hexlify. cbn [rbind Ok].
  now rewrite map_app, map_repeat.
Qed.

(** The byte string recovered by [base58_decode] from an encoded address is
    the version, the payload and the checksum, provided the zero bytes that
    lead the encoded string are those of version and payload. *)
Lemma base58_decode_k_encode (b : string) (p : bytes) (v : byte) :
  unhexlify b = Ok p ->
  let d := [v] ++ p in
  let ah := d ++ firstn 4 (dhash d) in
  count_leading (byte_eqb x00) ah = count_leading (byte_eqb x00) d ->
  exists s, base58_check_encode b [v] = Ok s
            /\ base58_decode_k s [v] = Ok ah.
Proof.
  intros Hb d ah Hz. eexists. split; [apply base58_check_encode_eq, Hb|].
  fold d. fold ah. set (pad := count_leading (byte_eqb x00) d) in *.
  unfold base58_decode_k. rewrite list_ascii_of_string_of_list_ascii.
  pose proof (be_val_bound ah) as Hn.
  (* the string as an integer *)
  rewrite b58_to_int_digits.
  2:{ apply Forall_app. split.
      - apply Forall_forall. intros x Hx. apply repeat_spec in Hx. lia.
      - apply digits_in_base; lia. }
  rewrite val_repeat_zero, val_digits by lia. cbn [rbind Ok].
  rewrite Z.mul_0_l, Z.add_0_l.
  (* the integer as bytes *)
  destruct (leading_zeros_split ah) as [Hsplit Hhd]. rewrite Hz in Hsplit, Hhd.
  fold pad in Hsplit, Hhd.
  assert (Hlen : (pad < length ah)%nat).
  { unfold ah. rewrite length_app, checksum_length.
    pose proof (count_leading_le (byte_eqb x00) d). unfold pad. lia. }
  destruct (skipn pad ah) as [|x r] eqn:Er.
  { rewrite app_nil_r in Hsplit. apply (f_equal (@length byte)) in Hsplit.
    rewrite repeat_length in Hsplit. lia. }
  assert (Hval : be_val ah = be_val (x :: r)).
  { rewrite Hsplit at 1. apply be_val_zeros. }
  rewrite Hval, int_to_bytes_be_val by exact Hhd. cbn [rbind Ok].
  (* the padding *)
  assert (Hpos : 0 < be_val (x :: r)).
  { rewrite be_val_cons. pose proof (be_val_bound r).
    pose proof (Z_of_byte_range x).
    assert (Z_of_byte x <> 0) by now rewrite Z_of_byte_x00.
    assert (0 < 256 ^ Z.of_nat (length r)) by (apply Z.pow_pos_nonneg; lia).
    nia. }
  pose proof (digits_nonempty 58 ltac:(lia) _ Hpos) as Hne.
  pose proof (digits_no_leading_zero 58 ltac:(lia) (be_val (x :: r)) ltac:(lia))
    as Hnl.
  pose proof (digits_in_base 58 ltac:(lia) (be_val (x :: r)) ltac:(lia)) as Hib.
  destruct (digits 58 (be_val (x :: r))) as [|d0 ds] eqn:Ed; [congruence|].
  cbn in Hnl. inversion Hib as [|? ? Hd0 _]; subst.
  rewrite map_app, map_repeat. cbn [map].
  rewrite count_leading_droplast1.
  2:{ apply Ascii.eqb_refl. }
  2:{ apply Ascii.eqb_neq. intros E. apply b58_char_inj in E; lia. }
  (* putting the padding back *)
  f_equal. rewrite bytes_mul_single.
  destruct (Byte.byte_eq_dec v x00) as [->|Hv].
  - symmetry. exact Hsplit.
  - assert (Hp0 : pad = O).
    { unfold pad, d. cbn [app count_leading].
      destruct (byte_eqb x00 v) eqn:E; [|reflexivity].
      apply byte_eqb_eq in E. congruence. }
    rewrite Hp0 in *. cbn [repeat app skipn] in *. congruence.
Qed.

(** Decoding a 25-byte-style string [version ++ data ++ checksum]. *)
Lemma base58_decode_of_k (s : string) (v : byte) (data : bytes) :
  base58_decode_k s [v] = Ok ([v] ++ data ++ firstn 4 (dhash ([v] ++ data))) ->
  base58_decode s [v] = Ok data.
Proof.
  intros Hk. unfold base58_decode. rewrite Hk. cbn [rbind Ok].
  rewrite app_assoc, droplast_app, lastn_app by apply checksum_length.
  cbn [app firstn skipn]. rewrite !bytes_eqb_refl. reflexivity.
Qed.

(** C2.  Base58Check round trip: for a payload of 20 bytes, given in
    hexadecimal as [base58_check_encode] takes it, and a one-byte version,
    decoding the encoded string with the same version returns the payload,
    and the byte string that was decoded is the version byte, the payload
    and the checksum. *)
Theorem base58_roundtrip (b : string) (payload : bytes) (v : byte) :
  unhexlify b = Ok payload ->
  length payload = 20%nat ->
  exists s,
    base58_check_encode b [v] = Ok s
    /\ base58_decode s [v] = Ok payload
    /\ base58_decode_k s [v]
       = Ok ([v] ++ payload ++ firstn 4 (dhash ([v] ++ payload))).
Proof.
  intros Hb Hlen.
  destruct (base58_decode_k_encode b payload v Hb) as (s & Henc & Hk).
  - pose proof (count_leading_le (byte_eqb x00) ([v] ++ payload)) as Hle.
    destruct (Nat.eq_dec (count_leading (byte_eqb x00) ([v] ++ payload))
                (length ([v] ++ payload))) as [Hall|Hnot].
    + (* version and payload are all zero: the checksum does not start
         with a zero byte *)
      apply all_zero_repeat in Hall. rewrite Hall.
      cbn [length app]. rewrite Hlen. vm_compute. reflexivity.
    + apply count_leading_app_lt. lia.
  - exists s. rewrite <- app_assoc in Hk. repeat split; try assumption.
    now apply base58_decode_of_k.
Qed.

Lemma base58_roundtrip_witness :
  exists s,
    base58_check_encode "010966776006953d5567439e5e39f86a0d273bee" [x00] = Ok s
    /\ base58_decode s [x00]
       = Ok (bytes_of_hex "010966776006953d5567439e5e39f86a0d273bee")
    /\ base58_decode_k s [x00]
       = Ok ([x00] ++ bytes_of_hex "010966776006953d5567439e5e39f86a0d273bee"
               ++ firstn 4 (dhash ([x00] ++
                    bytes_of_hex "010966776006953d5567439e5e39f86a0d273bee"))).
Proof.
  apply (base58_roundtrip "010966776006953d5567439e5e39f86a0d273bee"
           (bytes_of_hex "010966776006953d5567439e5e39f86a0d273bee") x00);
    reflexivity.
Defined.

Lemma slices_split {A} (k : list A) :
  (5 <= length k)%nat ->
  droplast 4 k = firstn 1 k ++ skipn 1 (droplast 4 k)
  /\ k = droplast 4 k ++ lastn 4 k
  /\ length (lastn 4 k) = 4%nat.
Proof.
  intros H. unfold droplast, lastn. repeat split.
  - rewrite <- (firstn_skipn 1 (firstn (length k - 4) k)) at 1.
    f_equal. rewrite firstn_firstn. f_equal. lia.
  - symmetry. apply firstn_skipn.
  - rewrite length_skipn. lia.
Qed.

(** ** Changing one character of an address *)

Lemma single_change_intro (pre post : list ascii) (c c' : ascii) :
  c <> c' ->
  single_change (string_of_list_ascii (pre ++ c :: post))
                (string_of_list_ascii (pre ++ c' :: post)).
Proof. intros H. exists pre, post, c, c'. auto. Qed.

(** C7, refuted.  The address of the payload [17347c75...] and the string
    with its second character changed from ['3'] to ['9'] are both valid:
    the changed string decodes, without error, to another payload.  And
    changing the first character of an address can change the version byte:
    the error is then [VersionByteError]. *)
Lemma checksum_sensitivity_counterexample :
  (base58_check_encode "17347c75db29dcbdb851fbcbc4f2763388f243ad" [x00]
   = Ok "137hRDVTaH775grBtetjhpJXFb81zErTJR"%string
   /\ single_change "137hRDVTaH775grBtetjhpJXFb81zErTJR"
                    "197hRDVTaH775grBtetjhpJXFb81zErTJR"
   /\ base58_decode "197hRDVTaH775grBtetjhpJXFb81zErTJR" [x00]
      = Ok (bytes_of_hex "59053daa0ccd4e6b7997627cef067d036dee32b3")
   /\ bytes_of_hex "59053daa0ccd4e6b7997627cef067d036dee32b3"
      <> bytes_of_hex "17347c75db29dcbdb851fbcbc4f2763388f243ad")
  /\ (base58_check_encode "010966776006953d5567439e5e39f86a0d273bee" [x00]
      = Ok "16UwLL9Risc3QfPqBUvKofHmBQ7wMtjvM"%string
      /\ single_change "16UwLL9Risc3QfPqBUvKofHmBQ7wMtjvM"
                       "26UwLL9Risc3QfPqBUvKofHmBQ7wMtjvM"
      /\ base58_decode "26UwLL9Risc3QfPqBUvKofHmBQ7wMtjvM" [x00]
         = Raise VersionByteError).
Proof.
  split; [split; [|split; [|split]] | split; [|split]].
  - vm_compute. reflexivity.
  - apply (single_change_intro ["1"%char]
             (list_ascii_of_string "7hRDVTaH775grBtetjhpJXFb81zErTJR")
             "3"%char "9"%char).
    discriminate.
  - vm_compute. reflexivity.
  - vm_compute. discriminate.
  - vm_compute. reflexivity.
  - apply (single_change_intro []
             (list_ascii_of_string "6UwLL9Risc3QfPqBUvKofHmBQ7wMtjvM")
             "1"%char "2"%char).
    discriminate.
  - vm_compute. reflexivity.
Qed.

(** ** Coin selection *)

Lemma Ok_inj {A} (a b : A) : Ok a = Ok b -> a = b.
Proof. intros H. now inversion H. Qed.

Lemma sum_units_app (c : config) (l1 l2 : list coin) :
  sum_units c (l1 ++ l2)
  = (let? a := sum_units c l1 in let? b := sum_units c l2 in Ok (a + b)).
Proof.
  induction l1 as [|x l1 IH]; cbn [sum_units app rbind Ok].
  - destruct (sum_units c l2); reflexivity.
  - destruct (coin_units c x) as [ex|u]; cbn [rbind]; [reflexivity|].
    rewrite IH.
    destruct (sum_units c l1) as [ex|a]; cbn [rbind Ok]; [reflexivity|].
    destruct (sum_units c l2) as [ex|b]; cbn [rbind Ok]; [reflexivity|].
    f_equal. lia.
Qed.

Lemma sum_units_snoc (c : config) (l : list coin) (x : coin) (s u : Z) :
  sum_units c l = Ok s -> coin_units c x = Ok u ->
  sum_units c (l ++ [x]) = Ok (s + u).
Proof.
  intros Hs Hu. rewrite sum_units_app, Hs. cbn [sum_units]. rewrite Hu.
  cbn [rbind Ok]. f_equal. lia.
Qed.


Lemma is_prefix_cons_inv {A} (q : list A) (x : A) (l : list A) :
  is_prefix q (x :: l) -> q = [] \/ exists q', q = x :: q' /\ is_prefix q' l.
Proof.
  intros [r Hr]. destruct q as [|y q]; [now left|right].
  cbn in Hr. inversion Hr; subst. exists q. split; [reflexivity|now exists r].
Qed.

(** The loop of [get_inputs], started with [inputs] already taken. *)
Lemma select_coins_spec (c : config) (total : Z) (unspent inputs : list coin)
    (s0 : Z) :
  sum_units c inputs = Ok s0 ->
  match select_coins c unspent inputs s0 total with
  | inr (Some (ins, t)) =>
      exists p, ins = inputs ++ p /\ sum_units c ins = Ok t
                /\ is_prefix p unspent /\ p <> []
                /\ t >= total
                /\ forall q s, is_prefix q unspent -> q <> [] ->
                               sum_units c (inputs ++ q) = Ok s ->
                               s >= total -> (length p <= length q)%nat
  | inr None =>
      forall q, is_prefix q unspent -> q <> [] ->
                exists s, sum_units c (inputs ++ q) = Ok s /\ s < total
  | inl x =>
      exists p y,
        is_prefix (p ++ [y]) unspent
        /\ (forall q, is_prefix q p -> q <> [] ->
                      exists s, sum_units c (inputs ++ q) = Ok s /\ s < total)
        /\ coin_units c y = Raise x
  end.
Proof.
  revert inputs s0. induction unspent as [|x unspent IH]; intros inputs s0 Hs0.
  - cbn [select_coins Ok]. intros q [r Hr] Hq.
    destruct q; [congruence|discriminate].
  - cbn [select_coins].
    destruct (coin_units c x) as [ex|u] eqn:Hu; cbn [rbind].
    + exists [], x. split; [now exists unspent|]. split; [|exact Hu].
      intros q [r Hr] Hq. destruct q; [congruence|discriminate].
    + pose proof (sum_units_snoc c inputs x s0 u Hs0 Hu) as Hs1.
      destruct (Z.geb_spec (s0 + u) total) as [Hge|Hlt].
      * cbn [Ok]. exists [x]. split; [reflexivity|]. split; [exact Hs1|].
        split; [now exists unspent|]. split; [discriminate|].
        split; [lia|].
        intros q s _ Hq _ _. destruct q; [congruence|cbn; lia].
      * specialize (IH (inputs ++ [x]) (s0 + u) Hs1).
        destruct (select_coins c unspent (inputs ++ [x]) (s0 + u) total)
          as [ex|[[ins t]|]].
        -- destruct IH as (p & y & [r Hr] & Hno & Hy).
           exists (x :: p), y.
           split; [exists r; cbn [app]; now rewrite Hr|].
           split; [|exact Hy].
           intros q Hq Hne. apply is_prefix_cons_inv in Hq.
           destruct Hq as [->|(q' & -> & Hq')]; [congruence|].
           destruct q' as [|z q'].
           ++ exists (s0 + u). split; [exact Hs1|lia].
           ++ specialize (Hno (z :: q') Hq' ltac:(discriminate)).
              rewrite <- app_assoc in Hno. exact Hno.
        -- destruct IH as (p & -> & Ht & [r ->] & Hp & Hge & Hmin).
           exists (x :: p). rewrite <- app_assoc in Ht |- *. cbn [app] in Ht |- *.
           split; [reflexivity|]. split; [exact Ht|].
           split; [now exists r|]. split; [discriminate|].
           split; [exact Hge|].
           intros q s Hq Hne Hsum Hs.
           apply is_prefix_cons_inv in Hq.
           destruct Hq as [->|(q' & -> & Hq')]; [congruence|].
           destruct q' as [|z q'].
           ++ rewrite Hs1 in Hsum. apply Ok_inj in Hsum. lia.
           ++ cbn [length]. apply le_n_S. apply (Hmin (z :: q') s Hq').
              ** discriminate.
              ** rewrite <- app_assoc. exact Hsum.
              ** exact Hs.
        -- intros q Hq Hne. apply is_prefix_cons_inv in Hq.
           destruct Hq as [->|(q' & -> & Hq')]; [congruence|].
           destruct q' as [|z q'].
           ++ exists (s0 + u). split; [exact Hs1|lia].
           ++ specialize (IH (z :: q') Hq' ltac:(discriminate)).
              rewrite <- app_assoc in IH. exact IH.
Qed.

Lemma get_inputs_eq (source : string) (total : Z) (unittest : bool)
    (e : env) (t t' : trace) (listunspent : list coin) :
  get_listunspent source unittest e t = (Ok listunspent, t') ->
  get_inputs source total unittest e t
  = (select_coins (cfg e) (owned_by source listunspent) [] 0 total, t').
Proof.
  intros H. unfold get_inputs, bind, ask, ret, lift. rewrite H. reflexivity.
Qed.

(** C3, as amended.  Given the list that the coin source answers,
    [get_inputs] keeps the coins of [source] in the order of that list,
    converts their amounts one after the other and returns the shortest
    non-empty prefix of them whose amounts sum to the required total or
    more, together with that sum; it returns [None] when no non-empty prefix
    does; and it raises what the conversion of an amount raises, when one
    does before the total is reached. *)
Theorem get_inputs_first_fit (source : string) (total : Z) (unittest : bool)
    (e : env) (t t' : trace) (listunspent : list coin) :
  get_listunspent source unittest e t = (Ok listunspent, t') ->
  exists r,
    get_inputs source total unittest e t = (r, t')
    /\ match r with
       | inr (Some (inputs, total_btc_in)) =>
           first_fit (cfg e) total (owned_by source listunspent) inputs
             total_btc_in
       | inr None => no_fit (cfg e) total (owned_by source listunspent)
       | inl x => fails_at (cfg e) total (owned_by source listunspent) x
       end.
Proof.
  intros H. eexists. split; [apply get_inputs_eq, H|].
  pose proof (select_coins_spec (cfg e) total
                (owned_by source listunspent) [] 0 eq_refl) as S.
  destruct (select_coins (cfg e) (owned_by source listunspent) [] 0 total)
    as [x|[[ins tin]|]].
  - destruct S as (p & y & Hpre & Hno & Hy). exists p, y.
    split; [exact Hpre|]. split; [exact Hno|exact Hy].
  - destruct S as (p & -> & Hsum & Hpre & Hne & Hge & Hmin).
    cbn [app] in *. unfold first_fit. repeat split; assumption.
  - exact S.
Qed.

Lemma get_inputs_first_fit_witness :
  exists r,
    get_inputs example_source 100000 false (example_env example_coins) []
    = (r, [Validateaddress example_source; Listunspent])
    /\ match r with
       | inr (Some (inputs, total_btc_in)) =>
           first_fit mainnet_config 100000
             (owned_by example_source example_coins) inputs total_btc_in
       | inr None => no_fit mainnet_config 100000
                       (owned_by example_source example_coins)
       | inl x => fails_at mainnet_config 100000
                    (owned_by example_source example_coins) x
       end.
Proof.
  apply (get_inputs_first_fit example_source 100000 false
           (example_env example_coins) []
           [Validateaddress example_source; Listunspent] example_coins).
  reflexivity.
Defined.

Example get_inputs_example :
  get_inputs example_source 100000 false (example_env example_coins) []
  = (Ok (Some ([example_coin example_source 0 50000;
                example_coin example_source 2 70000], 120000)),
     [Validateaddress example_source; Listunspent]).
Proof. vm_compute. reflexivity. Qed.

(** The amount is multiplied and rounded as a [float]: the amount
    [0.000000015] is the double just below 15 / 10 ** 9, its product with
    [10 ** 8] is just below 1.5, and the coin counts for one satoshi, where
    the exact product, 1.5, would round to two; the amount
    [33563451.01247869] counts for a satoshi less than its decimals read. *)
Example coin_units_of_float :
  let coin_of a := {| txid := example_txid; vout := 0; scriptPubKey := "";
                      address := example_source; amount := a |} in
  coin_units mainnet_config (coin_of (Float (float_of_ratio 15 (10 ^ 9))))
  = Ok 1
  /\ py_round ((15 # 10 ^ 9) * inject_Z 100000000) = 2
  /\ coin_units mainnet_config
       (coin_of (Float (float_of_ratio 3356345101247869 (10 ^ 8))))
     = Ok 3356345101247868
  /\ coin_units mainnet_config (coin_of (Float (S754_infinity false)))
     = Raise OverflowError
  /\ coin_units mainnet_config (coin_of (Float S754_nan)) = Raise ValueError
  /\ coin_units mainnet_config (coin_of (Int 2)) = Ok 200000000.
Proof. vm_compute. repeat split. Qed.

(** C3, refuted as stated.  With a required total of [0] the shortest
    prefix whose sum reaches the total is the empty one; [get_inputs] takes
    the first coin. *)
Lemma get_inputs_shortest_prefix_counterexample :
  get_inputs example_source 0 false (example_env example_coins) []
  = (Ok (Some ([example_coin example_source 0 50000], 50000)),
     [Validateaddress example_source; Listunspent])
  /\ is_prefix [] (owned_by example_source example_coins)
  /\ sum_units mainnet_config [] = Ok 0
  /\ 0 >= 0
  /\ (length (@nil coin) < length [example_coin example_source 0 50000])%nat.
Proof.
  split; [vm_compute; reflexivity|]. split; [now eexists|].
  split; [reflexivity|]. split; [lia|cbn; lia].
Qed.

(** ** The steps of [transaction] *)

(** [transaction] with the monad unfolded: which step fails, and with which
    calls made. *)
Lemma transaction_eq (source : string) (destination : option string)
    (btc_amount : option Z) (fee : Z) (data : bytes) (multisig : multisig_arg)
    (unittest : bool) (e : env) (t : trace) :
  transaction (source, destination, btc_amount, fee, data) multisig unittest e t
  = let c := cfg e in
    let u := unittest_flag c unittest in
    match validate_addresses c source destination with
    | inl x => (inl x, t)
    | inr _ =>
      match check_source_in_wallet source multisig u e t with
      | (inl x, t1) => (inl x, t1)
      | (inr _, t1) =>
        match check_dust c destination multisig btc_amount with
        | inl x => (inl x, t1)
        | inr btc_amount' =>
          match divide_data data multisig with
          | inl x => (inl x, t1)
          | inr data_array =>
            let total_btc_out :=
              total_to_send c fee multisig data_array destination btc_amount' in
            match get_inputs source total_btc_out u e t1 with
            | (inl x, t2) => (inl x, t2)
            | (inr (Some ((_ :: _) as inputs, total_btc_in)), t2) =>
              match serialise inputs
                      (destination_output_of destination btc_amount')
                      (data_output_of data data_array (data_value_of c multisig))
                      (change_output_of source (total_btc_in - total_btc_out))
                      source multisig e t2 with
              | (inl x, t3) => (inl x, t3)
              | (inr tx, t3) => (Ok (hexlify tx), t3)
              end
            | (inr _, t2) =>
              if UNIT c =? 0 then (Raise ZeroDivisionError, t2)
              else (Raise (BalanceError source
                             (inject_Z total_btc_out / inject_Z (UNIT c))%Q), t2)
            end
          end
        end
      end
    end.
Proof.
  cbv beta iota zeta delta [transaction bind ask lift ret raise Ok Raise].
  destruct (validate_addresses (cfg e) source destination); [reflexivity|].
  destruct (check_source_in_wallet source multisig
              (unittest_flag (cfg e) unittest) e t) as [[x|[]] t1];
    [reflexivity|].
  destruct (check_dust (cfg e) destination multisig btc_amount) as [x|amount'];
    [reflexivity|].
  destruct (divide_data data multisig) as [x|data_array]; [reflexivity|].
  destruct (get_inputs source _ (unittest_flag (cfg e) unittest) e t1)
    as [[x|[[[|i inputs] tin]|]] t2]; try reflexivity.
  - destruct (UNIT (cfg e) =? 0); reflexivity.
  - destruct (UNIT (cfg e) =? 0); reflexivity.
Qed.






Lemma fold_left_add_const {A} (l : list A) (v a : Z) :
  fold_left (fun t _ => t + v) l a = a + v * Z.of_nat (length l).
Proof.
  revert a. induction l as [|x l IH]; intros a; cbn [fold_left length].
  - lia.
  - rewrite IH. lia.
Qed.




(** A build without destination and without amount that goes through. *)
Example transaction_no_destination_example :
  fst (transaction (example_source, None, None, 10000, str_encode "0123456789")
         (MsBool false) false
         (example_env [example_coin example_source 0 100000]) [])
  = Ok ("0100000001c1d8c075936c3495f6d653c50f73d987f75448d97a750249b1eb83bee7"
        ++ "1b24ae000000003237366139313433623765393066356338613465366532643861"
        ++ "31623561376532633566356635653263356635663538386163ffffffff02000000"
        ++ "00000000000c6a0a30313233343536373839905f0100000000001976a914010966"
        ++ "776006953d5567439e5e39f86a0d273bee88ac00000000")%string.
Proof. vm_compute. reflexivity. Qed.

(** C4, as amended.  With valid addresses and a destination amount below
    the dust floor, the build fails with the dust error without any call to
    bitcoind when run under the unit-test flag or when [multisig] is a public
    key string; otherwise one call, [validateaddress] of the source, comes
    first, and the build fails with the dust error if bitcoind answers that
    the source is in the wallet. *)
Theorem transaction_dust (source d : string) (a fee : Z) (data : bytes)
    (multisig : multisig_arg) (unittest : bool) (e : env) (t : trace) :
  let c := cfg e in
  let u := unittest_flag c unittest in
  truthy_str d = true ->
  validate_addresses c source (Some d) = Ok tt ->
  a < dust_floor c multisig ->
  transaction (source, Some d, Some a, fee, data) multisig unittest e t
  = if u || is_str multisig
    then (Raise (TransactionError dust_message), t)
    else match validateaddress_ismine (node e) t source with
         | inl x => (inl x, t ++ [Validateaddress source])
         | inr true =>
             (Raise (TransactionError dust_message),
              t ++ [Validateaddress source])
         | inr false =>
             (Raise (InvalidAddressError
                       "Not one of your Bitcoin addresses:" source),
              t ++ [Validateaddress source])
         end.
Proof.
  intros c u Hd Hval Hlow.
  assert (Hdust : check_dust c (Some d) multisig (Some a)
                  = Raise (TransactionError dust_message)).
  { unfold check_dust, dust_floor in *. cbn [truthy_ostr]. rewrite Hd.
    destruct (truthy_multisig multisig).
    - destruct (Z.geb_spec a (MULTISIG_DUST_SIZE c)); [lia|reflexivity].
    - destruct (Z.geb_spec a (REGULAR_DUST_SIZE c)); [lia|reflexivity]. }
  rewrite transaction_eq. cbv zeta. fold c. fold u.
  rewrite Hval, Hdust. cbv beta iota delta [Ok Raise].
  unfold check_source_in_wallet.
  destruct u, (is_str multisig); cbn [negb andb orb]; try reflexivity.
  unfold bind, rpc_validateaddress, raise, ret.
  destruct (validateaddress_ismine (node e) t source) as [x|[|]]; reflexivity.
Qed.

Lemma transaction_dust_witness :
  transaction (example_source, Some example_destination, Some 2000, 10000, [])
    (MsBool false) true (example_env []) []
  = (Raise (TransactionError dust_message), []).
Proof.
  apply (transaction_dust example_source example_destination 2000 10000 []
           (MsBool false) true (example_env []) []).
  - reflexivity.
  - vm_compute. reflexivity.
  - vm_compute. reflexivity.
Defined.

(** C4, refuted as stated.  Outside the unit tests and with no public key
    given, bitcoind is asked whether the source is in the wallet before the
    amount is looked at: the dust failure comes after one call, and with a
    source that is not in the wallet it does not come at all. *)
Lemma dust_before_rpc_counterexample :
  transaction (example_source, Some example_destination, Some 2000, 10000, [])
    (MsBool false) false (example_env []) []
  = (Raise (TransactionError dust_message), [Validateaddress example_source])
  /\ transaction (example_source, Some example_destination, Some 2000, 10000, [])
       (MsBool false) false foreign_env []
     = (Raise (InvalidAddressError "Not one of your Bitcoin addresses:"
                 example_source),
        [Validateaddress example_source]).
Proof. split; vm_compute; reflexivity. Qed.

(** ** Wire primitives read back *)

Lemma le_val_shift (i : Z) (len s : nat) :
  0 <= i ->
  le_val (map (fun k => byte_of_Z (Z.shiftr i (8 * Z.of_nat k))) (seq s len))
  = (i / 2 ^ (8 * Z.of_nat s)) mod 2 ^ (8 * Z.of_nat len).
Proof.
  intros Hi. revert s. induction len as [|len IH]; intros s.
  - cbn [seq map le_val]. change (2 ^ (8 * Z.of_nat 0)) with 1.
    now rewrite Z.mod_1_r.
  - cbn [seq map le_val]. rewrite IH, Z_of_byte_of_Z.
    rewrite Z.shiftr_div_pow2 by lia.
    replace (8 * Z.of_nat (S len)) with (8 + 8 * Z.of_nat len) by lia.
    replace (8 * Z.of_nat (S s)) with (8 * Z.of_nat s + 8) by lia.
    rewrite !Z.pow_add_r by lia. change (2 ^ 8) with 256.
    assert (0 < 2 ^ (8 * Z.of_nat s)) by (apply Z.pow_pos_nonneg; lia).
    assert (0 < 2 ^ (8 * Z.of_nat len)) by (apply Z.pow_pos_nonneg; lia).
    rewrite <- Z.div_div by lia.
    rewrite Z.rem_mul_r by lia. reflexivity.
Qed.

Lemma to_bytes_ok (len : nat) (i : Z) (b : bytes) :
  to_bytes len i = Ok b ->
  0 <= i < 2 ^ (8 * Z.of_nat len) /\ length b = len /\ le_val b = i.
Proof.
  unfold to_bytes.
  destruct (Z.ltb_spec i 0); [discriminate|].
  destruct (Z.leb_spec (2 ^ (8 * Z.of_nat len)) i); [discriminate|].
  cbn [orb]. intros E. inversion E; subst. clear E.
  split; [lia|]. split; [now rewrite length_map, length_seq|].
  rewrite le_val_shift by lia. cbn [Z.of_nat]. rewrite Z.mul_0_r, Z.pow_0_r.
  rewrite Z.div_1_r. apply Z.mod_small. lia.
Qed.

Lemma take_app (b rest : bytes) : take (length b) (b ++ rest) = Some (b, rest).
Proof.
  unfold take. rewrite length_app.
  destruct (Nat.leb_spec (length b) (length b + length rest)); [|lia].
  rewrite firstn_app, skipn_app, firstn_all, skipn_all, Nat.sub_diag.
  cbn. now rewrite app_nil_r.
Qed.

Lemma parse_var_int_ok (i : Z) (b rest : bytes) :
  var_int i = Ok b -> parse_var_int (b ++ rest) = Some (i, rest).
Proof.
  unfold var_int.
  destruct (Z.ltb_spec i 253) as [H1|H1].
  - intros E. destruct (to_bytes_ok _ _ _ E) as (Hr & Hl & Hv).
    destruct b as [|x [|y b]]; try discriminate.
    cbn [le_val] in Hv. cbn [app parse_var_int].
    replace (Z_of_byte x) with i by lia.
    destruct (Z.ltb_spec i 253); [reflexivity|lia].
  - destruct (Z.leb_spec i 65535) as [H2|H2];
      [|destruct (Z.leb_spec i 4294967295) as [H3|H3]];
      (destruct (to_bytes _ i) as [x|b0] eqn:E; [discriminate|]);
      cbn [rbind]; intros E'; inversion E'; subst; clear E';
      destruct (to_bytes_ok _ _ _ E) as (Hr & Hl & Hv);
      cbn [app parse_var_int];
      match goal with
      | |- context [Z_of_byte ?c] =>
          let v := eval vm_compute in (Z_of_byte c) in
          change (Z_of_byte c) with v
      end;
      cbn [Z.ltb Z.eqb Z.compare Pos.compare Pos.compare_cont Pos.eqb];
      rewrite <- Hl at 1; rewrite take_app, Hv; reflexivity.
Qed.

Lemma parse_txout_ok (o : txout) (b rest : bytes) :
  txout_bytes o = Ok b -> parse_txout (b ++ rest) = Some (o, rest).
Proof.
  unfold txout_bytes.
  destruct (to_bytes 8 (out_value o)) as [x|v] eqn:Ev; [discriminate|].
  destruct (var_int (Z.of_nat (length (out_script o)))) as [x|l] eqn:El;
    [discriminate|].
  cbn [rbind]. intros E. inversion E; subst; clear E.
  destruct (to_bytes_ok _ _ _ Ev) as (_ & Hl & Hv).
  unfold parse_txout. rewrite <- !app_assoc.
  rewrite <- Hl at 1. rewrite take_app.
  rewrite (parse_var_int_ok _ _ _ El), Nat2Z.id, take_app, Hv.
  destruct o; reflexivity.
Qed.

Lemma parse_txouts_ok (l : list txout) (b rest : bytes) :
  txouts_bytes l = Ok b -> parse_txouts (length l) (b ++ rest) = Some (l, rest).
Proof.
  revert b. induction l as [|o l IH]; intros b; cbn [txouts_bytes].
  - intros E. inversion E. reflexivity.
  - destruct (txout_bytes o) as [x|bo] eqn:Eo; [discriminate|].
    destruct (txouts_bytes l) as [x|bl] eqn:El; [discriminate|].
    cbn [rbind]. intros E. inversion E; subst; clear E.
    cbn [length parse_txouts]. rewrite <- app_assoc.
    rewrite (parse_txout_ok _ _ _ Eo), (IH bl eq_refl). reflexivity.
Qed.

Lemma parse_outputs_ok (l : list txout) (nb b rest : bytes) :
  var_int (Z.of_nat (length l)) = Ok nb ->
  txouts_bytes l = Ok b ->
  parse_outputs (nb ++ b ++ rest) = Some (l, rest).
Proof.
  intros Hn Hb. unfold parse_outputs.
  rewrite (parse_var_int_ok _ _ _ Hn), Nat2Z.id. now apply parse_txouts_ok.
Qed.

Lemma txouts_bytes_app (l1 l2 : list txout) (b1 b2 : bytes) :
  txouts_bytes l1 = Ok b1 -> txouts_bytes l2 = Ok b2 ->
  txouts_bytes (l1 ++ l2) = Ok (b1 ++ b2).
Proof.
  revert b1. induction l1 as [|o l1 IH]; intros b1; cbn [txouts_bytes app].
  - intros E. inversion E. auto.
  - destruct (txout_bytes o) as [x|bo]; [discriminate|].
    destruct (txouts_bytes l1) as [x|bl]; [discriminate|].
    cbn [rbind]. intros E H2. inversion E; subst; clear E.
    rewrite (IH bl eq_refl H2). cbv [rbind Ok]. now rewrite app_assoc.
Qed.

(** ** Reasoning in the monad *)

Lemma bind_ok {A B} (m : M A) (k : A -> M B) (e : env) (t t' : trace) (b : B) :
  bind m k e t = (inr b, t') ->
  exists a t1, m e t = (inr a, t1) /\ k a e t1 = (inr b, t').
Proof.
  unfold bind. destruct (m e t) as [[x|a] t1]; [discriminate|].
  intros H. now exists a, t1.
Qed.

Lemma lift_ok {A} (r : result A) (e : env) (t t' : trace) (a : A) :
  lift r e t = (inr a, t') -> r = inr a /\ t' = t.
Proof. unfold lift. intros H. inversion H. auto. Qed.

Lemma ret_ok {A} (x a : A) (e : env) (t t' : trace) :
  ret x e t = (inr a, t') -> a = x /\ t' = t.
Proof. unfold ret, Ok. intros H. inversion H. auto. Qed.

Lemma ask_ok (e a : env) (t t' : trace) :
  ask e t = (inr a, t') -> a = e /\ t' = t.
Proof. unfold ask, Ok. intros H. inversion H. auto. Qed.

Lemma rbind_ok {A B} (r : result A) (k : A -> result B) (b : B) :
  rbind r k = inr b -> exists a, r = inr a /\ k a = inr b.
Proof. destruct r as [x|a]; [discriminate|]. intros H. now exists a. Qed.

Ltac minv :=
  repeat match goal with
    | H : bind _ _ _ _ = (inr _, _) |- _ =>
        apply bind_ok in H; destruct H as (? & ? & ? & H)
    | H : lift _ _ _ = (inr _, _) |- _ =>
        apply lift_ok in H; destruct H as [H ?]; subst
    | H : ret _ _ _ = (inr _, _) |- _ =>
        apply ret_ok in H; destruct H as [? ?]; subst
    | H : ask _ _ = (inr _, _) |- _ =>
        apply ask_ok in H; destruct H as [? ?]; subst
    | H : rbind _ _ = inr _ |- _ =>
        apply rbind_ok in H; destruct H as (? & ? & H)
    end.

Tactic Notation "bind_inv" hyp(H) "as" ident(x) ident(t) ident(Hx) :=
  apply bind_ok in H; destruct H as (x & t & Hx & H).

Tactic Notation "lift_inv" hyp(H) :=
  apply lift_ok in H; destruct H as [H ->].

(** ** What [serialise] writes *)

Lemma op_push_20 : op_push 20 = Ok [x14].
Proof. reflexivity. Qed.

Lemma op_push_33 : op_push 33 = Ok [x21].
Proof. reflexivity. Qed.

Lemma serialise_p2pkh_ok (address : string) (value : Z) (s s' : bytes)
    (e : env) (t t' : trace) :
  serialise_p2pkh (address, value) s e t = (inr s', t') ->
  t' = t
  /\ exists h b,
       base58_decode address (ADDRESSVERSION (cfg e)) = Ok h
       /\ txout_bytes (mkTxout value (p2pkh_script h)) = Ok b
       /\ s' = s ++ b.
Proof.
  unfold serialise_p2pkh. rewrite op_push_20. unfold Ok. intros H. minv.
  match goal with H : inr _ = inr _ |- _ => inversion H; subst; clear H end.
  split; [reflexivity|].
  match goal with H : base58_decode _ _ = inr ?h |- _ => exists h end.
  eexists. split; [assumption|].
  unfold txout_bytes, p2pkh_script. cbn [out_value out_script].
  match goal with H : to_bytes 8 _ = _ |- _ => rewrite H end.
  match goal with
  | H : var_int (Z.of_nat (length ?x)) = _ |- _ =>
      replace (OP_DUP ++ OP_HASH160 ++ [x14] ++ _ ++ OP_EQUALVERIFY ++ OP_CHECKSIG)
        with x by (now rewrite <- !app_assoc);
      rewrite H
  end.
  cbv [rbind Ok]. split; [reflexivity|]. now rewrite <- !app_assoc.
Qed.

Lemma assert_ok (b : bool) (u : unit) : assert b = inr u -> b = true.
Proof. destruct b; [reflexivity|discriminate]. Qed.

Lemma data_script_ok (data_chunk : bytes) (source : string)
    (multisig : multisig_arg) (e : env) (t t' : trace) (script : bytes)
    (value : Z) :
  data_script data_chunk source multisig e t = (inr script, t') ->
  embeds multisig value data_chunk (mkTxout value script).
Proof.
  unfold data_script, embeds. cbn [out_value out_script].
  intros H. split; [reflexivity|].
  destruct (truthy_multisig multisig).
  - minv.
    match goal with H : assert _ = _ |- _ => apply assert_ok in H; rename H into Hpad end.
    apply Z.geb_le in Hpad.
    assert (Hlen : (length data_chunk <= 32)%nat) by lia.
    split; [exact Hlen|].
    match goal with
    | H : get_source_pubkey _ _ _ _ = (inr ?pk, _),
      H1 : op_push (Z.of_nat (length ?pk)) = inr ?p1 |- _ =>
        exists pk, p1; split; [exact H1|]
    end.
    match goal with
    | H : op_push (Z.of_nat (length ?dp)) = inr ?p2 |- _ =>
        assert (Hdp : dp = data_pubkey_of data_chunk);
        [| rewrite Hdp in H |- * ]
    end.
    { unfold data_pubkey_of. rewrite bytes_mul_single. repeat f_equal. lia. }
    match goal with
    | H : op_push (Z.of_nat (length (data_pubkey_of _))) = inr ?p2 |- _ =>
        assert (p2 = [x21]); [|subst p2]
    end.
    { match goal with H : op_push _ = inr ?p2 |- _ => revert H end.
      unfold data_pubkey_of. cbn [length app]. rewrite length_app, repeat_length.
      replace (Z.of_nat (S (length data_chunk + (32 - length data_chunk))))
        with 33 by lia.
      rewrite op_push_33. intros E. now inversion E. }
    unfold multisig_script. now rewrite <- !app_assoc.
  - minv.
    match goal with
    | H : op_push (Z.of_nat (length data_chunk)) = inr ?p |- _ =>
        exists p; split; [exact H|]
    end.
    unfold op_return_script. now rewrite <- !app_assoc.
Qed.

Lemma serialise_data_ok (data_array : list bytes) (value : Z) (source : string)
    (multisig : multisig_arg) (s s' : bytes) (e : env) (t t' : trace) :
  serialise_data data_array value source multisig s e t = (inr s', t') ->
  exists outs b,
    Forall2 (embeds multisig value) data_array outs
    /\ txouts_bytes outs = Ok b
    /\ s' = s ++ b.
Proof.
  revert s t. induction data_array as [|data_chunk data_array IH]; intros s t.
  - cbn [serialise_data]. intros H. minv.
    exists [], []. repeat split; [constructor|now rewrite app_nil_r].
  - cbn [serialise_data]. intros H. minv.
    apply IH in H. destruct H as (outs & b & Hall & Hb & ->).
    match goal with
    | H : data_script _ _ _ _ _ = (inr ?sc, _) |- _ =>
        exists (mkTxout value sc :: outs);
        pose proof (data_script_ok _ _ _ _ _ _ _ value H) as Hemb
    end.
    eexists. split; [constructor; assumption|].
    cbn [txouts_bytes]. unfold txout_bytes. cbn [out_value out_script].
    repeat match goal with
           | H : to_bytes _ _ = inr _ |- _ => rewrite H; clear H
           | H : var_int _ = inr _ |- _ => rewrite H; clear H
           end.
    cbn [rbind]. rewrite Hb. cbv [rbind Ok].
    split; [reflexivity|]. now rewrite <- !app_assoc.
Qed.

Lemma serialise_opt_p2pkh_ok (o : option (string * Z)) (s s' : bytes)
    (e : env) (t t' : trace) :
  match o with
  | Some o => serialise_p2pkh o s
  | None => ret s
  end e t = (inr s', t') ->
  exists outs b,
    p2pkh_outs (cfg e) o outs /\ txouts_bytes outs = Ok b /\ s' = s ++ b
    /\ length outs = match o with Some _ => 1%nat | None => O end.
Proof.
  destruct o as [[a v]|]; intros H.
  - apply serialise_p2pkh_ok in H. destruct H as (_ & h & b & Hh & Hb & ->).
    exists [mkTxout v (p2pkh_script h)], b. repeat split.
    + now exists h.
    + cbn [txouts_bytes]. rewrite Hb. cbv [rbind Ok]. now rewrite app_nil_r.
  - minv. exists [], []. repeat split. now rewrite app_nil_r.
Qed.

(** The bytes that [serialise] returns: the head, the number of outputs, the
    outputs (destination if any, data outputs in the order of the chunks,
    change if any) and the lock time. *)
Lemma serialise_ok (inputs : list coin)
    (destination_output : option (string * Z))
    (data_output : option (list bytes * Z))
    (change_output : option (string * Z))
    (source : string) (multisig : multisig_arg)
    (e : env) (t t' : trace) (tx : bytes) :
  serialise inputs destination_output data_output change_output
    source multisig e t = (inr tx, t') ->
  exists head nb obs outs_dest outs_data outs_change,
    tx_head inputs = Ok head
    /\ var_int (Z.of_nat (length (outs_dest ++ outs_data ++ outs_change)))
       = Ok nb
    /\ txouts_bytes (outs_dest ++ outs_data ++ outs_change) = Ok obs
    /\ tx = head ++ nb ++ obs ++ [x00; x00; x00; x00]
    /\ p2pkh_outs (cfg e) destination_output outs_dest
    /\ data_outs multisig data_output outs_data
    /\ p2pkh_outs (cfg e) change_output outs_change.
Proof.
  unfold serialise. intros H.
  bind_inv H as s0 t0 Hver. lift_inv Hver.
  bind_inv H as l0 t0 Hnin. lift_inv Hnin.
  bind_inv H as head t0 Hin. lift_inv Hin.
  assert (Hhead : tx_head inputs = Ok head).
  { unfold tx_head. rewrite Hver. cbn [rbind]. rewrite Hnin. exact Hin. }
  clear Hin Hver Hnin.
  assert (Hlock : forall l, to_bytes 4 0 = inr l -> l = [x00; x00; x00; x00]).
  { intros l E. cbv in E. now inversion E. }
  destruct data_output as [[data_array value]|]; cbv beta iota zeta in H.
  - bind_inv H as nb t0 Hnb. lift_inv Hnb.
    bind_inv H as s1 t1 Hd. bind_inv H as s2 t2 Hda. bind_inv H as s3 t3 Hc.
    bind_inv H as lk t4 Hlk. lift_inv Hlk. apply Hlock in Hlk. subst lk.
    apply ret_ok in H. destruct H as [-> ->].
    apply serialise_opt_p2pkh_ok in Hd.
    destruct Hd as (od & bd & Hod & Hbd & -> & Hld).
    apply serialise_data_ok in Hda.
    destruct Hda as (odata & bdata & Hodata & Hbdata & ->).
    apply serialise_opt_p2pkh_ok in Hc.
    destruct Hc as (oc & bc & Hoc & Hbc & -> & Hlc).
    exists head, nb, (bd ++ bdata ++ bc), od, odata, oc.
    split; [exact Hhead|]. split.
    { unfold Ok. rewrite <- Hnb. f_equal.
      rewrite !length_app, Hld, <- (Forall2_length Hodata), Hlc.
      destruct destination_output, change_output; lia. }
    split.
    { apply txouts_bytes_app; [assumption|].
      apply txouts_bytes_app; assumption. }
    split; [|auto]. rewrite <- !app_assoc. reflexivity.
  - bind_inv H as nb t0 Hnb. lift_inv Hnb.
    bind_inv H as s1 t1 Hd. bind_inv H as s2 t2 Hda. bind_inv H as s3 t3 Hc.
    bind_inv H as lk t4 Hlk. lift_inv Hlk. apply Hlock in Hlk. subst lk.
    apply ret_ok in H. destruct H as [-> ->].
    apply serialise_opt_p2pkh_ok in Hd.
    destruct Hd as (od & bd & Hod & Hbd & -> & Hld).
    apply ret_ok in Hda. destruct Hda as [-> ->].
    apply serialise_opt_p2pkh_ok in Hc.
    destruct Hc as (oc & bc & Hoc & Hbc & -> & Hlc).
    exists head, nb, (bd ++ bc), od, [], oc.
    split; [exact Hhead|]. split.
    { unfold Ok. rewrite <- Hnb. f_equal.
      rewrite !length_app, Hld, Hlc. cbn [length].
      destruct destination_output, change_output; lia. }
    split.
    { apply txouts_bytes_app; [assumption|]. exact Hbc. }
    split; [|cbn; auto]. rewrite <- !app_assoc. reflexivity.
Qed.

(** ** Chunks *)

Lemma chunks_fuel_concat (n fuel : nat) (l : bytes) :
  (0 < n)%nat -> (length l <= fuel)%nat -> concat (chunks_fuel fuel l n) = l.
Proof.
  intros Hn. revert l. induction fuel as [|fuel IH]; intros l Hl.
  - destruct l; [reflexivity|cbn in Hl; lia].
  - cbn [chunks_fuel]. destruct l as [|x l]; [reflexivity|].
    cbn [concat]. rewrite IH.
    + apply firstn_skipn.
    + rewrite length_skipn. cbn [length] in *. lia.
Qed.

Lemma chunks_concat (l : bytes) (n : nat) :
  (0 < n)%nat -> concat (chunks l n) = l.
Proof. intros Hn. apply chunks_fuel_concat; [exact Hn|lia]. Qed.

Lemma chunks_fuel_bound (n fuel : nat) (l : bytes) :
  (0 < n)%nat ->
  Forall (fun ch => ch <> [] /\ (length ch <= n)%nat) (chunks_fuel fuel l n).
Proof.
  intros Hn. revert l. induction fuel as [|fuel IH]; intros l.
  - constructor.
  - cbn [chunks_fuel]. destruct l as [|x l]; [constructor|].
    constructor; [|apply IH]. split.
    + destruct n; [lia|discriminate].
    + apply firstn_le_length.
Qed.

Lemma divide_data_ok (data : bytes) (multisig : multisig_arg)
    (data_array : list bytes) :
  divide_data data multisig = inr data_array ->
  concat data_array = data
  /\ Forall (fun ch => ch <> [] /\ (length ch <= 80)%nat) data_array.
Proof.
  unfold divide_data. destruct data as [|x data]; cbn [truthy_bytes].
  - intros E. inversion E. split; [reflexivity|constructor].
  - destruct (truthy_multisig multisig).
    + intros E. inversion E. split; [apply chunks_concat; lia|].
      eapply Forall_impl; [|apply chunks_fuel_bound; lia].
      cbn. intros ch [H1 H2]. split; [exact H1|lia].
    + intros H. apply rbind_ok in H. destruct H as (_ & _ & E).
      inversion E. split; [apply chunks_concat; lia|].
      apply chunks_fuel_bound. lia.
Qed.

(** ** A build that succeeds *)

Lemma get_inputs_ok (source : string) (total : Z) (unittest : bool)
    (e : env) (t t' : trace) (inputs : list coin) (total_btc_in : Z) :
  get_inputs source total unittest e t = (inr (Some (inputs, total_btc_in)), t') ->
  exists listunspent,
    get_listunspent source unittest e t = (inr listunspent, t')
    /\ first_fit (cfg e) total (owned_by source listunspent) inputs
         total_btc_in.
Proof.
  unfold get_inputs. intros H.
  bind_inv H as e0 t0 He. apply ask_ok in He. destruct He as [-> ->].
  bind_inv H as listunspent t1 Hl. apply lift_ok in H. destruct H as [Hs ->].
  exists listunspent. split; [exact Hl|].
  pose proof (select_coins_spec (cfg e) total
                (owned_by source listunspent) [] 0 eq_refl) as S.
  rewrite Hs in S.
  destruct S as (p & -> & Hsum & Hpre & Hne & Hge & Hmin).
  cbn [app] in *. unfold first_fit. repeat split; assumption.
Qed.

(** Everything that a successful build went through, and the bytes of the
    transaction it returns, in hexadecimal. *)
Lemma transaction_ok (source : string) (destination : option string)
    (btc_amount : option Z) (fee : Z) (data : bytes) (multisig : multisig_arg)
    (unittest : bool) (e : env) (t t' : trace) (hex : string) :
  transaction (source, destination, btc_amount, fee, data) multisig unittest e t
  = (inr hex, t') ->
  exists btc_amount' data_array inputs total_btc_in t1 t2
         head nb obs od odata oc,
    validate_addresses (cfg e) source destination = Ok tt
    /\ check_source_in_wallet source multisig
         (unittest_flag (cfg e) unittest) e t = (Ok tt, t1)
    /\ check_dust (cfg e) destination multisig btc_amount = Ok btc_amount'
    /\ divide_data data multisig = Ok data_array
    /\ get_inputs source
         (total_to_send (cfg e) fee multisig data_array destination btc_amount')
         (unittest_flag (cfg e) unittest) e t1
       = (Ok (Some (inputs, total_btc_in)), t2)
    /\ tx_head inputs = Ok head
    /\ var_int (Z.of_nat (length (od ++ odata ++ oc))) = Ok nb
    /\ txouts_bytes (od ++ odata ++ oc) = Ok obs
    /\ hex = hexlify (head ++ nb ++ obs ++ [x00; x00; x00; x00])
    /\ p2pkh_outs (cfg e) (destination_output_of destination btc_amount') od
    /\ data_outs multisig
         (data_output_of data data_array (data_value_of (cfg e) multisig)) odata
    /\ p2pkh_outs (cfg e)
         (change_output_of source
            (total_btc_in
             - total_to_send (cfg e) fee multisig data_array destination
                 btc_amount')) oc.
Proof.
  rewrite transaction_eq. cbv zeta.
  destruct (validate_addresses (cfg e) source destination) as [x|[]];
    [discriminate|].
  destruct (check_source_in_wallet source multisig
              (unittest_flag (cfg e) unittest) e t) as [[x|[]] t1];
    [discriminate|].
  destruct (check_dust (cfg e) destination multisig btc_amount)
    as [x|btc_amount']; [discriminate|].
  destruct (divide_data data multisig) as [x|data_array]; [discriminate|].
  destruct (get_inputs source _ (unittest_flag (cfg e) unittest) e t1)
    as [[x|[[[|i inputs] tin]|]] t2] eqn:Hget; try discriminate.
  1,3: destruct (UNIT (cfg e) =? 0); discriminate.
  destruct (serialise (i :: inputs) _ _ _ source multisig e t2)
    as [[x|tx] t3] eqn:Hser; [discriminate|].
  intros E. inversion E; subst; clear E.
  apply serialise_ok in Hser.
  destruct Hser as (head & nb & obs & od & odata & oc & Hh & Hnb & Hobs & ->
                    & Hod & Hodata & Hoc).
  exists btc_amount', data_array, (i :: inputs), tin, t1, t2,
         head, nb, obs, od, odata, oc.
  repeat split; assumption || reflexivity.
Qed.

Lemma check_dust_destination (c : config) (d : string)
    (multisig : multisig_arg) (btc_amount btc_amount' : option Z) :
  truthy_str d = true ->
  check_dust c (Some d) multisig btc_amount = inr btc_amount' ->
  exists amount, btc_amount' = Some amount /\ dust_floor c multisig <= amount.
Proof.
  unfold check_dust, dust_floor. cbn [truthy_ostr]. intros ->.
  destruct (truthy_multisig multisig);
    match goal with
    | |- context [negb (?a >=? ?b)] =>
        destruct (Z.geb_spec a b); cbn [negb]; [|discriminate]
    end;
    intros E; inversion E; subst; eexists; split; try reflexivity; lia.
Qed.

(** C1.  In a successful build with a destination, a non-empty payload and
    a positive change, the transaction returned is, in hexadecimal, the
    head (version and inputs), the number of outputs, the outputs and the
    lock time; read back from these bytes, the outputs are: the payment to
    the destination, then one data output per chunk of the payload, in the
    order of the chunks, whose concatenation is the payload, then the
    change paid to the source; and nothing else. *)
Theorem transaction_output_order (source d : string) (btc_amount : option Z)
    (fee : Z) (data : bytes) (multisig : multisig_arg) (unittest : bool)
    (e : env) (t t' : trace) (hex : string) :
  transaction (source, Some d, btc_amount, fee, data) multisig unittest e t
  = (Ok hex, t') ->
  truthy_str d = true ->
  data <> [] ->
  exists amount data_array inputs total_btc_in t1 t2
         head nb obs h_dest h_src odata,
    let c := cfg e in
    let total_btc_out :=
      total_to_send c fee multisig data_array (Some d) (Some amount) in
    let change := total_btc_in - total_btc_out in
    let outs := mkTxout amount (p2pkh_script h_dest)
                  :: odata ++ [mkTxout change (p2pkh_script h_src)] in
    check_source_in_wallet source multisig (unittest_flag c unittest) e t
    = (Ok tt, t1)
    /\ check_dust c (Some d) multisig btc_amount = Ok (Some amount)
    /\ divide_data data multisig = Ok data_array
    /\ concat data_array = data
    /\ get_inputs source total_btc_out (unittest_flag c unittest) e t1
       = (Ok (Some (inputs, total_btc_in)), t2)
    /\ base58_decode d (ADDRESSVERSION c) = Ok h_dest
    /\ Forall2 (embeds multisig (data_value_of c multisig)) data_array odata
    /\ tx_head inputs = Ok head
    /\ (0 < change ->
        base58_decode source (ADDRESSVERSION c) = Ok h_src
        /\ var_int (Z.of_nat (length outs)) = Ok nb
        /\ txouts_bytes outs = Ok obs
        /\ hex = hexlify (head ++ nb ++ obs ++ locktime_bytes)
        /\ parse_outputs (nb ++ obs ++ locktime_bytes)
           = Some (outs, locktime_bytes)).
Proof.
  intros H Hd Hdata. apply transaction_ok in H.
  destruct H as (amount' & data_array & inputs & tin & t1 & t2 & head & nb
                 & obs & od & odata & oc & Hval & Hwal & Hdust & Hdiv & Hget
                 & Hhead & Hnb & Hobs & -> & Hod & Hodata & Hoc).
  destruct (check_dust_destination _ _ _ _ _ Hd Hdust) as (amount & -> & _).
  unfold destination_output_of in Hod. cbn [truthy_ostr] in Hod.
  rewrite Hd in Hod. destruct Hod as (h_dest & Hh_dest & ->).
  unfold data_output_of in Hodata.
  destruct data as [|x data]; [congruence|]. cbn [truthy_bytes] in Hodata.
  cbn [data_outs] in Hodata.
  destruct (divide_data_ok _ _ _ Hdiv) as [Hconcat _].
  set (change := tin - total_to_send (cfg e) fee multisig data_array
                         (Some d) (Some amount)) in *.
  destruct (Z.eq_dec change 0) as [Hz|Hnz].
  - (* no change: the last part of the statement is void *)
    exists amount, data_array, inputs, tin, t1, t2, head, nb, obs, h_dest,
           [], odata.
    cbv zeta. fold change. repeat split; try assumption; lia.
  - unfold change_output_of in Hoc.
    destruct (Z.eqb_spec change 0) as [|_]; [contradiction|].
    cbn [negb p2pkh_outs] in Hoc. destruct Hoc as (h_src & Hh_src & ->).
    exists amount, data_array, inputs, tin, t1, t2, head, nb, obs, h_dest,
           h_src, odata.
    cbv zeta. fold change. repeat split; try assumption.
    apply (parse_outputs_ok _ _ _ _ Hnb Hobs).
Qed.

(** ** [serialise] without the wallet *)

Section Agree.

Variables e1 e2 : env.

Lemma agree_ret {A} (x : A) : agree e1 e2 (ret x) (ret x).
Proof. intros t1 t2. now exists (Ok x). Qed.

Lemma agree_lift {A} (r : result A) : agree e1 e2 (lift r) (lift r).
Proof. intros t1 t2. now exists r. Qed.

Lemma agree_raise {A} (x : exn) : agree e1 e2 (@raise A x) (raise x).
Proof. intros t1 t2. now exists (Raise x). Qed.

Lemma agree_bind {A B} (m1 m2 : M A) (k1 k2 : A -> M B) :
  agree e1 e2 m1 m2 -> (forall a, agree e1 e2 (k1 a) (k2 a)) ->
  agree e1 e2 (bind m1 k1) (bind m2 k2).
Proof.
  intros Hm Hk t1 t2. destruct (Hm t1 t2) as ([x|a] & H1 & H2).
  - exists (inl x). unfold bind. now rewrite H1, H2.
  - destruct (Hk a t1 t2) as (r & K1 & K2).
    exists r. unfold bind. now rewrite H1, H2.
Qed.

Lemma agree_ask {A} (k1 k2 : env -> M A) :
  agree e1 e2 (k1 e1) (k2 e2) -> agree e1 e2 (bind ask k1) (bind ask k2).
Proof.
  intros Hk t1 t2. destruct (Hk t1 t2) as (r & K1 & K2).
  exists r. unfold bind, ask, Ok. auto.
Qed.

Hypothesis Hversion : ADDRESSVERSION (cfg e1) = ADDRESSVERSION (cfg e2).

Lemma agree_p2pkh (o : string * Z) (s : bytes) :
  agree e1 e2 (serialise_p2pkh o s) (serialise_p2pkh o s).
Proof.
  destruct o as [a v]. unfold serialise_p2pkh.
  apply agree_ask. rewrite Hversion.
  repeat (apply agree_bind; [apply agree_lift|intros ?]).
  apply agree_ret.
Qed.

Lemma agree_opt_p2pkh (o : option (string * Z)) (s : bytes) :
  agree e1 e2
    (match o with Some o => serialise_p2pkh o s | None => ret s end)
    (match o with Some o => serialise_p2pkh o s | None => ret s end).
Proof. destruct o; [apply agree_p2pkh|apply agree_ret]. Qed.

Variable multisig : multisig_arg.
Variables source1 source2 : string.

(** The key does not come from the wallet. *)
Hypothesis Hkey :
  truthy_multisig multisig = true ->
  lib e1 = lib e2
  /\ (is_str multisig = true
      \/ (bytes_eqb (PREFIX (cfg e1)) (UNITTEST_PREFIX (cfg e1)) = true
          /\ bytes_eqb (PREFIX (cfg e2)) (UNITTEST_PREFIX (cfg e2)) = true)).

Lemma agree_data_script (data_chunk : bytes) :
  agree e1 e2 (data_script data_chunk source1 multisig)
              (data_script data_chunk source2 multisig).
Proof.
  unfold data_script. destruct (truthy_multisig multisig) eqn:Hm.
  - destruct (Hkey eq_refl) as [Hlib Hcase].
    apply agree_bind.
    + unfold get_source_pubkey. apply agree_ask. rewrite Hlib.
      destruct multisig as [b|m].
      * destruct Hcase as [Hs|[H1 H2]]; [discriminate|]. rewrite H1, H2.
        apply agree_bind; [apply agree_ret|intros wif].
        apply agree_bind; [|intros ?; apply agree_lift].
        destruct wif; [apply agree_raise|apply agree_ret].
      * apply agree_lift.
    + intros pk.
      repeat (apply agree_bind; [apply agree_lift|intros ?]).
      apply agree_ret.
  - apply agree_bind; [apply agree_lift|intros ?]. apply agree_ret.
Qed.

Lemma agree_serialise_data (data_array : list bytes) (value : Z) (s : bytes) :
  agree e1 e2 (serialise_data data_array value source1 multisig s)
              (serialise_data data_array value source2 multisig s).
Proof.
  revert s. induction data_array as [|ch data_array IH]; intros s;
    cbn [serialise_data].
  - apply agree_ret.
  - apply agree_bind; [apply agree_lift|intros v].
    apply agree_bind; [apply agree_data_script|intros script].
    apply agree_bind; [apply agree_lift|intros l]. apply IH.
Qed.

End Agree.

(** C5, as amended.  As long as the key of the source is not taken from
    the wallet, [serialise] makes no call to bitcoind and its result is
    determined by the inputs, the outputs, the [multisig] argument, the
    address version of the configuration and, when data goes into
    multi-signature outputs, the functions of pycoin: two runs that agree
    on these return the same bytes or raise the same exception, whatever
    the rest of their surroundings and the source given. *)
Theorem serialise_pure (inputs : list coin)
    (destination_output : option (string * Z))
    (data_output : option (list bytes * Z))
    (change_output : option (string * Z))
    (source1 source2 : string) (multisig : multisig_arg)
    (e1 e2 : env) (t1 t2 : trace) :
  ADDRESSVERSION (cfg e1) = ADDRESSVERSION (cfg e2) ->
  (truthy_multisig multisig = true -> lib e1 = lib e2) ->
  key_from_wallet (cfg e1) multisig data_output = false ->
  key_from_wallet (cfg e2) multisig data_output = false ->
  exists r,
    serialise inputs destination_output data_output change_output
      source1 multisig e1 t1 = (r, t1)
    /\ serialise inputs destination_output data_output change_output
         source2 multisig e2 t2 = (r, t2).
Proof.
  intros Hv Hlib Hk1 Hk2. revert t1 t2.
  change (agree e1 e2
            (serialise inputs destination_output data_output change_output
               source1 multisig)
            (serialise inputs destination_output data_output change_output
               source2 multisig)).
  unfold serialise.
  do 3 (apply agree_bind; [apply agree_lift|intros ?]).
  destruct data_output as [[data_array value]|]; cbv beta iota zeta.
  - apply agree_bind; [apply agree_lift|intros ?].
    apply agree_bind; [apply agree_opt_p2pkh, Hv|intros ?].
    apply agree_bind.
    + destruct data_array as [|ch data_array]; [apply agree_ret|].
      apply agree_serialise_data. intros Hm. split; [auto|].
      unfold key_from_wallet in Hk1, Hk2. rewrite Hm in Hk1, Hk2.
      destruct (is_str multisig); [now left|right].
      cbn [negb andb] in Hk1, Hk2.
      rewrite andb_true_r in Hk1, Hk2.
      apply negb_false_iff in Hk1, Hk2. auto.
    + intros ?. apply agree_bind; [apply agree_opt_p2pkh, Hv|intros ?].
      apply agree_bind; [apply agree_lift|intros ?]. apply agree_ret.
  - apply agree_bind; [apply agree_lift|intros ?].
    apply agree_bind; [apply agree_opt_p2pkh, Hv|intros ?].
    apply agree_bind; [apply agree_ret|intros ?].
    apply agree_bind; [apply agree_opt_p2pkh, Hv|intros ?].
    apply agree_bind; [apply agree_lift|intros ?]. apply agree_ret.
Qed.

Lemma serialise_pure_witness :
  exists r,
    serialise [example_coin example_source 0 100000]
      (Some (example_destination, 20000))
      (Some ([str_encode "0123456789"], 0))
      (Some (example_source, 70000))
      example_source (MsBool false) (example_env []) [] = (r, [])
    /\ serialise [example_coin example_source 0 100000]
         (Some (example_destination, 20000))
         (Some ([str_encode "0123456789"], 0))
         (Some (example_source, 70000))
         example_destination (MsBool false) foreign_env [Listunspent]
       = (r, [Listunspent]).
Proof.
  apply (serialise_pure [example_coin example_source 0 100000]
           (Some (example_destination, 20000))
           (Some ([str_encode "0123456789"], 0))
           (Some (example_source, 70000))
           example_source example_destination (MsBool false)
           (example_env []) foreign_env [] [Listunspent]).
  - reflexivity.
  - discriminate.
  - reflexivity.
  - reflexivity.
Defined.

(** C5, refuted as stated.  With data in multi-signature outputs and no
    public key given, [serialise] asks bitcoind for the private key of the
    source; two wallets holding different keys give, for the same inputs
    and outputs, different transactions. *)
Lemma serialise_wallet_counterexample :
  exists tx1 tx2,
    serialise [example_coin example_source 0 100000] None
      (Some ([str_encode "0123456789"], 10860)) None
      example_source (MsBool true) (unlocked_env [] key1_wif) []
    = (Ok tx1, [Dumpprivkey example_source])
    /\ serialise [example_coin example_source 0 100000] None
         (Some ([str_encode "0123456789"], 10860)) None
         example_source (MsBool true)
         (unlocked_env [] unittest_private_key_wif) []
       = (Ok tx2, [Dumpprivkey example_source])
    /\ tx1 <> tx2.
Proof.
  eexists. eexists. split; [vm_compute; reflexivity|].
  split; [vm_compute; reflexivity|]. discriminate.
Qed.

Lemma transaction_output_order_witness :
  exists amount data_array inputs total_btc_in t1 t2
         head nb obs h_dest h_src odata,
    let c := mainnet_config in
    let total_btc_out :=
      total_to_send c 10000 (MsStr key1_sec) data_array
        (Some example_destination) (Some amount) in
    let change := total_btc_in - total_btc_out in
    let outs := mkTxout amount (p2pkh_script h_dest)
                  :: odata ++ [mkTxout change (p2pkh_script h_src)] in
    check_source_in_wallet example_source (MsStr key1_sec)
      (unittest_flag c false)
      (unlocked_env [example_coin example_source 0 100000] key1_wif) []
    = (Ok tt, t1)
    /\ check_dust c (Some example_destination) (MsStr key1_sec) (Some 20000)
       = Ok (Some amount)
    /\ divide_data example_payload (MsStr key1_sec) = Ok data_array
    /\ concat data_array = example_payload
    /\ get_inputs example_source total_btc_out (unittest_flag c false)
         (unlocked_env [example_coin example_source 0 100000] key1_wif) t1
       = (Ok (Some (inputs, total_btc_in)), t2)
    /\ base58_decode example_destination (ADDRESSVERSION c) = Ok h_dest
    /\ Forall2 (embeds (MsStr key1_sec) (data_value_of c (MsStr key1_sec)))
         data_array odata
    /\ tx_head inputs = Ok head
    /\ (0 < change ->
        base58_decode example_source (ADDRESSVERSION c) = Ok h_src
        /\ var_int (Z.of_nat (length outs)) = Ok nb
        /\ txouts_bytes outs = Ok obs
        /\ example_tx_hex = hexlify (head ++ nb ++ obs ++ locktime_bytes)
        /\ parse_outputs (nb ++ obs ++ locktime_bytes)
           = Some (outs, locktime_bytes)).
Proof.
  apply (transaction_output_order example_source example_destination
           (Some 20000) 10000 example_payload (MsStr key1_sec) false
           (unlocked_env [example_coin example_source 0 100000] key1_wif)
           [] [Validateaddress example_source; Listunspent] example_tx_hex).
  - vm_compute. reflexivity.
  - reflexivity.
  - discriminate.
Defined.

(** The outputs of the example, read back from the bytes (the head takes
    96 of them): the payment of 20000, the two chunks with the dust value
    of multi-signature outputs, the change of 48280. *)
Example example_tx_outputs :
  option_map (fun r => map out_value (fst r))
    (parse_outputs (skipn 96 (bytes_of_hex example_tx_hex)))
  = Some [20000; 10860; 10860; 48280].
Proof. vm_compute. reflexivity. Qed.

(** C8.  In a successful build the selected coins cover the required total;
    whenever they exceed it, by however little, the last output of the
    transaction pays exactly the difference to the source.  No dust floor
    enters: the change can be below it, as in the build of the witness,
    whose change is one satoshi. *)
Theorem transaction_change_output (source : string)
    (destination : option string) (btc_amount : option Z) (fee : Z)
    (data : bytes) (multisig : multisig_arg) (unittest : bool)
    (e : env) (t t' : trace) (hex : string) :
  transaction (source, destination, btc_amount, fee, data) multisig unittest e t
  = (Ok hex, t') ->
  exists btc_amount' data_array inputs total_btc_in t1 t2
         head nb obs outs h_src,
    let c := cfg e in
    let total_btc_out :=
      total_to_send c fee multisig data_array destination btc_amount' in
    let change := total_btc_in - total_btc_out in
    let all := outs ++ [mkTxout change (p2pkh_script h_src)] in
    check_source_in_wallet source multisig (unittest_flag c unittest) e t
    = (Ok tt, t1)
    /\ check_dust c destination multisig btc_amount = Ok btc_amount'
    /\ divide_data data multisig = Ok data_array
    /\ get_inputs source total_btc_out (unittest_flag c unittest) e t1
       = (Ok (Some (inputs, total_btc_in)), t2)
    /\ tx_head inputs = Ok head
    /\ 0 <= change
    /\ (0 < change ->
        base58_decode source (ADDRESSVERSION c) = Ok h_src
        /\ var_int (Z.of_nat (length all)) = Ok nb
        /\ txouts_bytes all = Ok obs
        /\ hex = hexlify (head ++ nb ++ obs ++ locktime_bytes)
        /\ parse_outputs (nb ++ obs ++ locktime_bytes)
           = Some (all, locktime_bytes)).
Proof.
  intros H. apply transaction_ok in H.
  destruct H as (amount' & data_array & inputs & tin & t1 & t2 & head & nb
                 & obs & od & odata & oc & Hval & Hwal & Hdust & Hdiv & Hget
                 & Hhead & Hnb & Hobs & -> & Hod & Hodata & Hoc).
  destruct (get_inputs_ok _ _ _ _ _ _ _ _ Hget)
    as (listunspent & _ & (_ & _ & Hsum & Hge & _)).
  set (change := tin - total_to_send (cfg e) fee multisig data_array
                         destination amount') in *.
  assert (Hchange : 0 <= change) by (unfold change; lia).
  destruct (Z.eq_dec change 0) as [Hz|Hnz].
  - exists amount', data_array, inputs, tin, t1, t2, head, nb, obs, [], [].
    cbv zeta. fold change. repeat split; try assumption; lia.
  - unfold change_output_of in Hoc.
    destruct (Z.eqb_spec change 0) as [|_]; [contradiction|].
    cbn [negb p2pkh_outs] in Hoc. destruct Hoc as (h_src & Hh_src & ->).
    rewrite app_assoc in Hnb, Hobs.
    exists amount', data_array, inputs, tin, t1, t2, head, nb, obs,
           (od ++ odata), h_src.
    cbv zeta. fold change. repeat split; try assumption.
    apply (parse_outputs_ok _ _ _ _ Hnb Hobs).
Qed.

Lemma transaction_change_output_witness :
  exists btc_amount' data_array inputs total_btc_in t1 t2
         head nb obs outs h_src,
    let c := mainnet_config in
    let total_btc_out :=
      total_to_send c 10000 (MsBool false) data_array
        (Some example_destination) btc_amount' in
    let change := total_btc_in - total_btc_out in
    let all := outs ++ [mkTxout change (p2pkh_script h_src)] in
    check_source_in_wallet example_source (MsBool false)
      (unittest_flag c false)
      (example_env [example_coin example_source 0 100000]) []
    = (Ok tt, t1)
    /\ check_dust c (Some example_destination) (MsBool false) (Some 89999)
       = Ok btc_amount'
    /\ divide_data (str_encode "0123456789") (MsBool false) = Ok data_array
    /\ get_inputs example_source total_btc_out (unittest_flag c false)
         (example_env [example_coin example_source 0 100000]) t1
       = (Ok (Some (inputs, total_btc_in)), t2)
    /\ tx_head inputs = Ok head
    /\ 0 <= change
    /\ (0 < change ->
        base58_decode example_source (ADDRESSVERSION c) = Ok h_src
        /\ var_int (Z.of_nat (length all)) = Ok nb
        /\ txouts_bytes all = Ok obs
        /\ example_small_change_hex
           = hexlify (head ++ nb ++ obs ++ locktime_bytes)
        /\ parse_outputs (nb ++ obs ++ locktime_bytes)
           = Some (all, locktime_bytes)).
Proof.
  apply (transaction_change_output example_source (Some example_destination)
           (Some 89999) 10000 (str_encode "0123456789") (MsBool false) false
           (example_env [example_coin example_source 0 100000]) []
           [Validateaddress example_source; Validateaddress example_source;
            Listunspent]
           example_small_change_hex).
  vm_compute. reflexivity.
Defined.

(** The outputs of that build, read back from the bytes: the payment, the
    data output and a change of one satoshi, below both dust floors. *)
Example small_change_outputs :
  option_map (fun r => map out_value (fst r))
    (parse_outputs (skipn 96 (bytes_of_hex example_small_change_hex)))
  = Some [89999; 0; 1]
  /\ 1 < REGULAR_DUST_SIZE mainnet_config
  /\ 1 < MULTISIG_DUST_SIZE mainnet_config.
Proof. vm_compute. repeat split. Qed.

(** ** Decoding a string of base58 digits *)

Lemma index_of_some (c : ascii) (l : list ascii) (i : Z) :
  index_of c l = Some i ->
  0 <= i < Z.of_nat (length l) /\ nth (Z.to_nat i) l "1"%char = c.
Proof.
  revert i. induction l as [|x l IH]; intros i; cbn [index_of]; [discriminate|].
  destruct (Ascii.eqb_spec c x) as [->|Hne].
  - intros E. inversion E; subst. cbn. split; [lia|reflexivity].
  - destruct (index_of c l) as [j|]; [|discriminate].
    cbn [option_map]. intros E. inversion E; subst.
    destruct (IH j eq_refl) as [Hj Hn]. split; [cbn [length]; lia|].
    rewrite Z2Nat.inj_succ by lia. exact Hn.
Qed.

Lemma b58_index_some (c : ascii) (i : Z) :
  b58_index c = Some i -> 0 <= i < 58 /\ b58_char i = c.
Proof. intros H. apply index_of_some in H. exact H. Qed.

Lemma in_alphabet_char (c : ascii) :
  in_alphabet c -> exists d, 0 <= d < 58 /\ c = b58_char d.
Proof.
  unfold in_alphabet. destruct (b58_index c) as [d|] eqn:E; [|congruence].
  intros _. apply b58_index_some in E. exists d. now destruct E.
Qed.

Lemma b58_to_int_app (ds : list Z) (rest : list ascii) (acc : Z) :
  in_base 58 ds ->
  b58_to_int acc (map b58_char ds ++ rest)
  = b58_to_int (acc * 58 ^ Z.of_nat (length ds) + val 58 ds) rest.
Proof.
  intros Hin. revert acc.
  induction Hin as [|d ds Hd _ IH]; intros acc; cbn [map app b58_to_int length].
  - rewrite val_nil. f_equal. cbn. lia.
  - rewrite b58_index_char, IH, val_cons by lia.
    f_equal. rewrite Nat2Z.inj_succ, Z.pow_succ_r by lia. ring.
Qed.

(** ['%x' % n] and [unhexlify] never fail on a natural number, and write
    its big-endian bytes. *)
Lemma int_to_bytes_total (n : Z) :
  0 <= n ->
  exists res, int_to_bytes n = Ok res /\ be_val res = n /\ res <> [].
Proof.
  intros Hn. destruct (Z.eq_dec n 0) as [->|Hz].
  - exists [x00]. repeat split. discriminate.
  - pose proof (digits_nonempty 256 ltac:(lia) n ltac:(lia)) as Hne.
    pose proof (digits_no_leading_zero 256 ltac:(lia) n Hn) as Hnl.
    pose proof (digits_in_base 256 ltac:(lia) n Hn) as Hib.
    pose proof (val_digits 256 ltac:(lia) n Hn) as Hval.
    assert (Hbe : be_val (map byte_of_Z (digits 256 n)) = n).
    { unfold be_val. rewrite <- Hval at 2. f_equal.
      clear -Hib. induction Hib as [|d ds Hd _ IH]; [reflexivity|].
      cbn [map]. rewrite IH, Z_of_byte_of_Z, Z.mod_small by exact Hd.
      reflexivity. }
    destruct (digits 256 n) as [|d ds] eqn:E; [congruence|].
    cbn in Hnl. inversion Hib as [|? ? Hd _]; subst.
    exists (map byte_of_Z (d :: ds)). cbn [map] in *.
    split; [|split; [exact Hbe|discriminate]].
    rewrite <- Hbe at 1. apply int_to_bytes_be_val.
    intros E0. apply Z_of_byte_x00 in E0. rewrite Z_of_byte_of_Z in E0.
    rewrite Z.mod_small in E0 by lia. contradiction.
Qed.

Lemma droplast_map {A B} (f : A -> B) (n : nat) (l : list A) :
  droplast n (map f l) = map f (droplast n l).
Proof. unfold droplast. now rewrite length_map, firstn_map. Qed.

Lemma count_leading_map {A B} (f : A -> B) (p : B -> bool) (l : list A) :
  count_leading p (map f l) = count_leading (fun x => p (f x)) l.
Proof.
  induction l as [|x l IH]; cbn [map count_leading]; [reflexivity|].
  now rewrite IH.
Qed.

(** The bytes that [base58_decode] slices, for a string of digits. *)
Lemma base58_decode_k_digits (ds : list Z) (v : byte) :
  in_base 58 ds ->
  exists res,
    base58_decode_k (string_of_list_ascii (map b58_char ds)) [v]
    = Ok (repeat v (count_leading (fun d => Ascii.eqb (b58_char 0) (b58_char d))
                      (droplast 1 ds)) ++ res)
    /\ be_val res = val 58 ds /\ res <> [].
Proof.
  intros Hin. pose proof (val_bound 58 ltac:(lia) ds Hin) as Hb.
  destruct (int_to_bytes_total (val 58 ds) ltac:(lia)) as (res & Hres & Hbe & Hne).
  exists res. split; [|split; assumption].
  unfold base58_decode_k. rewrite list_ascii_of_string_of_list_ascii.
  rewrite b58_to_int_digits by exact Hin. cbn [rbind Ok].
  rewrite Z.mul_0_l, Z.add_0_l, Hres. cbn [rbind Ok].
  now rewrite droplast_map, count_leading_map, bytes_mul_single.
Qed.

(** A successful decoding to 20 bytes fixes the bytes that were decoded. *)
Lemma base58_decode_ok_k (s : string) (v : byte) (payload : bytes) :
  base58_decode s [v] = Ok payload ->
  length payload = 20%nat ->
  base58_decode_k s [v]
  = Ok ([v] ++ payload ++ firstn 4 (dhash ([v] ++ payload))).
Proof.
  unfold base58_decode.
  destruct (base58_decode_k s [v]) as [x|k]; [discriminate|]. cbn [rbind].
  destruct (bytes_eqb (firstn 1 k) [v]) eqn:Ev; [|discriminate]. cbn [negb].
  apply bytes_eqb_eq in Ev. rewrite Ev.
  destruct (bytes_eqb (lastn 4 k) _) eqn:Ec; [|discriminate]. cbn [negb].
  apply bytes_eqb_eq in Ec. intros E Hlen.
  assert (Hp : skipn 1 (droplast 4 k) = payload) by (unfold Ok in E; congruence).
  clear E. rewrite Hp in Ec.
  assert (Hk : (5 <= length k)%nat).
  { apply (f_equal (@length byte)) in Hp.
    rewrite length_skipn in Hp. unfold droplast in Hp.
    rewrite length_firstn in Hp. lia. }
  destruct (slices_split k Hk) as (Hd & Hsplit & _).
  unfold Ok. f_equal. rewrite Hsplit at 1. rewrite Hd, Ev, Hp, Ec.
  now rewrite <- app_assoc.
Qed.

(** ** One character changed *)

Lemma be_val_repeat (v : byte) (p : nat) :
  be_val (repeat v p) = Z_of_byte v * be_val (repeat x01 p).
Proof.
  induction p as [|p IH]; [cbn; lia|].
  cbn [repeat]. rewrite !be_val_cons, !repeat_length, IH.
  change (Z_of_byte x01) with 1. ring.
Qed.

(** The value of [p] bytes [x], [1 <= p <= 24], followed by [25 - p] zero
    bytes is not a multiple of [29 ^ 3]. *)
Lemma no_multiple_of_29_3 (p x : nat) :
  In p (seq 1 24) -> In x (seq 1 255) ->
  (Z.of_nat x * (be_val (repeat x01 p) * 256 ^ (25 - Z.of_nat p))) mod 24389
  <> 0.
Proof.
  intros Hp Hx.
  assert (H : forallb (fun p =>
                let c := (be_val (repeat x01 p) * 256 ^ (25 - Z.of_nat p))
                           mod 24389 in
                forallb (fun x => negb ((Z.of_nat x * c) mod 24389 =? 0))
                  (seq 1 255))
                (seq 1 24) = true) by (vm_compute; reflexivity).
  rewrite forallb_forall in H. specialize (H p Hp). cbv zeta in H.
  rewrite forallb_forall in H. specialize (H x Hx).
  apply negb_true_iff, Z.eqb_neq in H.
  rewrite Z.mul_mod_idemp_r in H by discriminate. exact H.
Qed.

Lemma pow58_3 : 58 ^ 3 = 8 * 24389.
Proof. reflexivity. Qed.

(** A run of the version byte in front of the decoded bytes cannot make up
    for a leading digit that was changed to ['1']. *)
Lemma repeated_version_not_digit (v : byte) (p : nat) (dc L : Z) :
  v <> x00 -> (1 <= p <= 24)%nat -> 32 <= L ->
  be_val (repeat v p) * 256 ^ (25 - Z.of_nat p) <> dc * 58 ^ L.
Proof.
  intros Hv Hp HL E.
  pose proof (Z_of_byte_range v) as Hr.
  assert (Hv0 : Z_of_byte v <> 0) by now rewrite Z_of_byte_x00.
  apply (no_multiple_of_29_3 p (Z.to_nat (Z_of_byte v)));
    [apply in_seq; lia | apply in_seq; lia |].
  rewrite Z2Nat.id by lia. rewrite Z.mul_assoc, <- be_val_repeat, E.
  replace L with (3 + (L - 3)) by lia.
  rewrite Z.pow_add_r, pow58_3 by lia.
  set (w := 58 ^ (L - 3)).
  replace (dc * (8 * 24389 * w)) with (dc * 8 * w * 24389) by ring.
  apply Z.mod_mul. discriminate.
Qed.

Lemma count_leading_droplast1_head {A} (p : A -> bool) (x : A) (l : list A) :
  p x = false -> count_leading p (droplast 1 (x :: l)) = O.
Proof.
  intros Hx. unfold droplast. cbn [length]. rewrite Nat.sub_succ, Nat.sub_0_r.
  destruct l as [|y l]; cbn [length firstn count_leading]; [reflexivity|].
  now rewrite Hx.
Qed.

Lemma b58_zero_char (d : Z) :
  0 <= d < 58 -> d <> 0 -> Ascii.eqb (b58_char 0) (b58_char d) = false.
Proof.
  intros Hd Hz. apply Ascii.eqb_neq. intros E.
  apply b58_char_inj in E; lia.
Qed.

Lemma val_change_digit (b : Z) (xs ys : list Z) (d d' : Z) :
  val b (xs ++ d' :: ys) - val b (xs ++ d :: ys)
  = (d' - d) * b ^ Z.of_nat (length ys).
Proof. rewrite !val_app, !val_cons. cbn [length]. ring. Qed.

Lemma string_of_list_ascii_inj (l1 l2 : list ascii) :
  string_of_list_ascii l1 = string_of_list_ascii l2 -> l1 = l2.
Proof.
  intros H. apply (f_equal list_ascii_of_string) in H.
  now rewrite !list_ascii_of_string_of_list_ascii in H.
Qed.

(** The digits of an encoded address, with the digit of one position
    singled out. *)
Lemma encoded_digits (b : string) (payload : bytes) (v : byte)
    (pre post : list ascii) (c : ascii) :
  unhexlify b = Ok payload ->
  base58_check_encode b [v] = Ok (string_of_list_ascii (pre ++ c :: post)) ->
  let ah := [v] ++ payload ++ firstn 4 (dhash ([v] ++ payload)) in
  exists dpre dc dpost,
    pre = map b58_char dpre /\ c = b58_char dc /\ post = map b58_char dpost
    /\ in_base 58 (dpre ++ dc :: dpost)
    /\ val 58 (dpre ++ dc :: dpost) = be_val ah
    /\ (v <> x00 -> dpre ++ dc :: dpost = digits 58 (be_val ah)).
Proof.
  intros Hb Henc ah.
  rewrite (base58_check_encode_eq b payload [v] Hb) in Henc.
  cbv zeta in Henc. rewrite <- app_assoc in Henc. fold ah in Henc.
  unfold Ok in Henc.
  assert (Hlist : map b58_char
                    (repeat 0 (count_leading (byte_eqb x00) ([v] ++ payload))
                       ++ digits 58 (be_val ah)) = pre ++ c :: post).
  { apply string_of_list_ascii_inj. congruence. }
  clear Henc. pose proof (be_val_bound ah) as Hn.
  set (full := repeat 0 _ ++ digits 58 (be_val ah)) in *.
  assert (Hfull : in_base 58 full).
  { apply Forall_app. split.
    - apply Forall_forall. intros x Hx. apply repeat_spec in Hx. lia.
    - apply digits_in_base; lia. }
  assert (Hval : val 58 full = be_val ah).
  { unfold full. rewrite val_repeat_zero. apply val_digits; lia. }
  assert (Hv : v <> x00 -> full = digits 58 (be_val ah)).
  { intros Hv. unfold full. cbn [app count_leading].
    destruct (byte_eqb x00 v) eqn:E; [|reflexivity].
    apply byte_eqb_eq in E. congruence. }
  clearbody full.
  apply map_eq_app in Hlist. destruct Hlist as (dpre & rest & -> & Hpre & Hrest).
  apply map_eq_cons in Hrest. destruct Hrest as (dc & dpost & -> & Hc & Hpost).
  exists dpre, dc, dpost. repeat split; auto.
Qed.

Lemma pow58_32_lt : 58 ^ 32 < 256 ^ 24.
Proof. reflexivity. Qed.

(** The bytes decoded from an address with one digit changed are not those
    of the address. *)
Lemma changed_digit_changes_bytes (payload : bytes) (v : byte)
    (dpre dpost : list Z) (dc e' : Z) (p : nat) (res : bytes) :
  length payload = 20%nat ->
  let ah := [v] ++ payload ++ firstn 4 (dhash ([v] ++ payload)) in
  in_base 58 (dpre ++ dc :: dpost) ->
  val 58 (dpre ++ dc :: dpost) = be_val ah ->
  (v <> x00 -> dpre ++ dc :: dpost = digits 58 (be_val ah)) ->
  0 <= e' < 58 -> e' <> dc ->
  p = count_leading (fun d => Ascii.eqb (b58_char 0) (b58_char d))
        (droplast 1 (dpre ++ e' :: dpost)) ->
  be_val res = val 58 (dpre ++ e' :: dpost) -> res <> [] ->
  repeat v p ++ res <> ah.
Proof.
  intros Hlen ah Hin Hval Hv He' Hne Hp Hres Hnil Hk.
  assert (Hdiff : val 58 (dpre ++ e' :: dpost) <> be_val ah).
  { rewrite <- Hval. pose proof (val_change_digit 58 dpre dpost dc e') as D.
    assert (0 < 58 ^ Z.of_nat (length dpost)) by (apply Z.pow_pos_nonneg; lia).
    nia. }
  assert (Hlenah : length ah = 25%nat).
  { unfold ah. rewrite !length_app, checksum_length, Hlen. reflexivity. }
  (* without padding the value of the bytes is that of the digits *)
  assert (Hp0 : p <> O).
  { intros ->. cbn [repeat app] in Hk. rewrite Hk in Hres. auto. }
  destruct (Byte.byte_eq_dec v x00) as [->|Hv0].
  { apply (f_equal be_val) in Hk. rewrite be_val_zeros in Hk. congruence. }
  specialize (Hv Hv0).
  pose proof (be_val_bound ah) as Hn.
  assert (Hbig : 256 ^ 24 <= be_val ah).
  { unfold ah. cbn [app]. rewrite be_val_cons, length_app, checksum_length, Hlen.
    pose proof (be_val_bound (payload ++ firstn 4 (dhash (v :: payload)))).
    pose proof (Z_of_byte_range v).
    assert (Z_of_byte v <> 0) by now rewrite Z_of_byte_x00.
    change (Z.of_nat (20 + 4)) with 24. nia. }
  pose proof (digits_no_leading_zero 58 ltac:(lia) (be_val ah) ltac:(lia)) as Hnl.
  rewrite <- Hv in Hnl.
  (* the digits start with a non-zero digit: the padding comes from a
     change of the first digit to zero *)
  destruct dpre as [|a dpre].
  2:{ cbn [app no_leading_zero] in Hnl. inversion Hin as [|? ? Ha _]; subst.
      cbn [app] in Hp0. rewrite count_leading_droplast1_head in Hp0;
        [congruence|]. apply b58_zero_char; assumption. }
  cbn [app no_leading_zero] in *.
  destruct (Z.eq_dec e' 0) as [->|He0].
  2:{ rewrite Hp, count_leading_droplast1_head in Hp0; [congruence|].
      apply b58_zero_char; assumption. }
  (* the hard case *)
  assert (HL : 32 <= Z.of_nat (length dpost)).
  { pose proof (val_bound 58 ltac:(lia) _ Hin) as Hb. rewrite Hval in Hb.
    cbn [length] in Hb. rewrite Nat2Z.inj_succ in Hb.
    destruct (Z_lt_le_dec (Z.of_nat (length dpost)) 32) as [Hlt|]; [|lia].
    assert (58 ^ Z.succ (Z.of_nat (length dpost)) <= 58 ^ 32)
      by (apply Z.pow_le_mono_r; lia).
    pose proof pow58_32_lt. lia. }
  assert (Hlenk : (p + length res = 25)%nat).
  { rewrite <- Hlenah, <- Hk, length_app, repeat_length. reflexivity. }
  assert (Hres1 : (1 <= length res)%nat).
  { destruct res; [congruence|cbn; lia]. }
  apply (repeated_version_not_digit v p dc (Z.of_nat (length dpost)) Hv0);
    [lia|exact HL|].
  apply (f_equal be_val) in Hk. rewrite be_val_app, Hres, <- Hval in Hk.
  rewrite !val_cons in Hk.
  replace (25 - Z.of_nat p) with (Z.of_nat (length res)) by lia. lia.
Qed.

(** C7, as amended.  In the address of a 20-byte payload, change one
    character.  If the new character is outside the base58 alphabet,
    decoding fails with [InvalidBase58Error] on that character.  If it is in
    the alphabet, decoding fails with [VersionByteError] or with
    [Base58ChecksumError], or returns a payload other than the one that was
    encoded (when the changed string happens to carry a valid checksum):
    it never returns the original payload. *)
Theorem single_change_detected (b : string) (payload : bytes) (v : byte)
    (pre post : list ascii) (c c' : ascii) :
  unhexlify b = Ok payload ->
  length payload = 20%nat ->
  base58_check_encode b [v] = Ok (string_of_list_ascii (pre ++ c :: post)) ->
  c <> c' ->
  let s' := string_of_list_ascii (pre ++ c' :: post) in
  (~ in_alphabet c' -> base58_decode s' [v] = Raise (InvalidBase58Error c'))
  /\ (in_alphabet c' ->
      base58_decode s' [v] = Raise VersionByteError
      \/ (exists chk0 chk1,
             base58_decode s' [v] = Raise (Base58ChecksumError chk0 chk1))
      \/ (exists payload',
             base58_decode s' [v] = Ok payload' /\ payload' <> payload)).
Proof.
  intros Hb Hlen Henc Hcc s'.
  destruct (encoded_digits b payload v pre post c Hb Henc)
    as (dpre & dc & dpost & -> & -> & -> & Hin & Hval & Hv).
  apply Forall_app in Hin as Hin'. destruct Hin' as [Hpre Hrest].
  inversion Hrest as [|? ? Hdc Hpost]; subst.
  split.
  - (* a character outside the alphabet *)
    intros Hout. assert (Hnone : b58_index c' = None).
    { unfold in_alphabet in Hout. destruct (b58_index c'); [|reflexivity].
      exfalso. apply Hout. discriminate. }
    unfold s', base58_decode, base58_decode_k.
    rewrite list_ascii_of_string_of_list_ascii, b58_to_int_app by exact Hpre.
    cbn [b58_to_int]. rewrite Hnone. reflexivity.
  - (* another character of the alphabet *)
    intros Halpha. apply in_alphabet_char in Halpha.
    destruct Halpha as (e' & He' & ->).
    assert (Hne : e' <> dc) by congruence.
    assert (Hin' : in_base 58 (dpre ++ e' :: dpost)).
    { apply Forall_app. split; [exact Hpre|]. now constructor. }
    assert (Hs' : s' = string_of_list_ascii
                         (map b58_char (dpre ++ e' :: dpost))).
    { unfold s'. now rewrite map_app. }
    destruct (base58_decode_k_digits _ v Hin') as (res & Hk & Hres & Hnil).
    rewrite <- Hs' in Hk.
    destruct (base58_decode s' [v]) as [x|payload'] eqn:Hdec.
    + unfold base58_decode in Hdec. rewrite Hk in Hdec.
      cbv beta iota delta [rbind Ok Raise] in Hdec. unfold Raise.
      destruct (negb (bytes_eqb _ [v])); [left; congruence|].
      destruct (negb (bytes_eqb _ _)); [|discriminate].
      right. left. do 2 eexists. symmetry. exact Hdec.
    + right. right. exists payload'. split; [reflexivity|]. intros ->.
      apply base58_decode_ok_k in Hdec; [|exact Hlen].
      rewrite Hk in Hdec. unfold Ok in Hdec.
      apply (changed_digit_changes_bytes payload v dpre dpost dc e' _ res
               Hlen Hin Hval Hv He' Hne eq_refl Hres Hnil).
      congruence.
Qed.

Lemma single_change_detected_witness :
  let s' := string_of_list_ascii
              (["1"%char] ++ "7"%char
                 :: list_ascii_of_string "UwLL9Risc3QfPqBUvKofHmBQ7wMtjvM") in
  (~ in_alphabet "7" ->
   base58_decode s' [x00] = Raise (InvalidBase58Error "7"))
  /\ (in_alphabet "7" ->
      base58_decode s' [x00] = Raise VersionByteError
      \/ (exists chk0 chk1,
             base58_decode s' [x00] = Raise (Base58ChecksumError chk0 chk1))
      \/ (exists payload',
             base58_decode s' [x00] = Ok payload'
             /\ payload'
                <> bytes_of_hex "010966776006953d5567439e5e39f86a0d273bee")).
Proof.
  apply (single_change_detected "010966776006953d5567439e5e39f86a0d273bee"
           (bytes_of_hex "010966776006953d5567439e5e39f86a0d273bee") x00
           ["1"%char] (list_ascii_of_string "UwLL9Risc3QfPqBUvKofHmBQ7wMtjvM")
           "6"%char "7"%char).
  - reflexivity.
  - reflexivity.
  - vm_compute. reflexivity.
  - discriminate.
Defined.

(** What the three outcomes look like on that address. *)
Example single_change_outcomes :
  base58_decode "17UwLL9Risc3QfPqBUvKofHmBQ7wMtjvM" [x00]
  = Raise (Base58ChecksumError (bytes_of_hex "561967f6")
             (bytes_of_hex "a96faf02"))
  /\ base58_decode "26UwLL9Risc3QfPqBUvKofHmBQ7wMtjvM" [x00]
     = Raise VersionByteError
  /\ base58_decode "10UwLL9Risc3QfPqBUvKofHmBQ7wMtjvM" [x00]
     = Raise (InvalidBase58Error "0").
Proof. vm_compute. repeat split. Qed.

(** ** Payloads of any length *)

Lemma alphabet_digits (l : list ascii) :
  Forall in_alphabet l -> exists ds, in_base 58 ds /\ l = map b58_char ds.
Proof.
  induction 1 as [|c l Hc _ (ds & Hds & ->)].
  - exists []. split; [constructor|reflexivity].
  - apply in_alphabet_char in Hc. destruct Hc as (d & Hd & ->).
    exists (d :: ds). split; [now constructor|reflexivity].
Qed.

Lemma int_to_bytes_min_bytes (n : Z) :
  0 <= n -> int_to_bytes n = Ok (min_bytes n).
Proof.
  intros Hn. unfold min_bytes. destruct (Z.eqb_spec n 0) as [->|Hz];
    [reflexivity|].
  pose proof (digits_nonempty 256 ltac:(lia) n ltac:(lia)) as Hne.
  pose proof (digits_no_leading_zero 256 ltac:(lia) n Hn) as Hnl.
  pose proof (digits_in_base 256 ltac:(lia) n Hn) as Hib.
  pose proof (val_digits 256 ltac:(lia) n Hn) as Hval.
  assert (Hbe : be_val (map byte_of_Z (digits 256 n)) = n).
  { unfold be_val. rewrite <- Hval at 2. f_equal.
    clear -Hib. induction Hib as [|d ds Hd _ IH]; [reflexivity|].
    cbn [map]. rewrite IH, Z_of_byte_of_Z, Z.mod_small by exact Hd.
    reflexivity. }
  destruct (digits 256 n) as [|d ds] eqn:E; [congruence|].
  cbn in Hnl. inversion Hib as [|? ? Hd _]; subst.
  cbn [map] in *. rewrite <- Hbe at 1. apply int_to_bytes_be_val.
  intros E0. apply Z_of_byte_x00 in E0. rewrite Z_of_byte_of_Z in E0.
  rewrite Z.mod_small in E0 by lia. contradiction.
Qed.

Lemma b58_digit_char (ds : list Z) :
  in_base 58 ds -> map b58_digit (map b58_char ds) = ds.
Proof.
  induction 1 as [|d ds Hd _ IH]; [reflexivity|].
  cbn [map]. rewrite IH. unfold b58_digit.
  rewrite (b58_index_char d Hd). reflexivity.
Qed.

(** On a string of the alphabet, the bytes that [base58_decode] slices are
    the decoded bytes of the string. *)
Lemma base58_decode_k_decoded (s : string) (v : byte) :
  Forall in_alphabet (list_ascii_of_string s) ->
  base58_decode_k s [v] = Ok (decoded_bytes v s).
Proof.
  intros Hs. unfold base58_decode_k, decoded_bytes.
  apply alphabet_digits in Hs. destruct Hs as (ds & Hds & ->).
  rewrite (b58_to_int_digits ds 0 Hds), (b58_digit_char ds Hds).
  cbn [rbind Ok]. rewrite Z.mul_0_l, Z.add_0_l.
  pose proof (val_bound 58 ltac:(lia) ds Hds) as Hv.
  rewrite (int_to_bytes_min_bytes (val 58 ds)) by lia.
  cbn [rbind Ok]. rewrite bytes_mul_single. reflexivity.
Qed.

(** C9.  [base58_decode] accepts a payload of any length.  For a string [s]
    of characters of the alphabet, with [k] its decoded bytes: whenever the
    first byte of [k] is the expected version byte and the last four are the
    first four bytes of the double hash of the bytes before them,
    [base58_decode] returns the bytes in the middle, however many they
    are. *)
Theorem base58_decode_any_length (s : string) (v : byte) :
  let k := decoded_bytes v s in
  Forall in_alphabet (list_ascii_of_string s) ->
  (5 <= length k)%nat ->
  firstn 1 k = [v] ->
  lastn 4 k = firstn 4 (dhash (droplast 4 k)) ->
  base58_decode s [v] = Ok (skipn 1 (droplast 4 k)).
Proof.
  intros k Hs Hlen Hv Hchk. unfold base58_decode.
  rewrite (base58_decode_k_decoded s v Hs). fold k. cbn [rbind Ok].
  destruct (slices_split k Hlen) as (Hd & _ & _).
  rewrite Hv, bytes_eqb_refl. cbn [negb].
  rewrite Hv in Hd. rewrite <- Hd, <- Hchk, bytes_eqb_refl. reflexivity.
Qed.

Lemma base58_decode_any_length_witness :
  base58_decode "11QXEx2ZQ9mEdvMSaVKHznFv6iZq2NdcCG4" [x00]
  = Ok (skipn 1
          (droplast 4
             (decoded_bytes x00 "11QXEx2ZQ9mEdvMSaVKHznFv6iZq2NdcCG4"))).
Proof.
  apply (base58_decode_any_length "11QXEx2ZQ9mEdvMSaVKHznFv6iZq2NdcCG4" x00).
  - repeat constructor; discriminate.
  - vm_compute. repeat constructor.
  - vm_compute. reflexivity.
  - vm_compute. reflexivity.
Defined.

(** The decoded bytes of that string: the version byte, a payload of 22
    bytes and the checksum. *)
Example decoded_bytes_example :
  decoded_bytes x00 "11QXEx2ZQ9mEdvMSaVKHznFv6iZq2NdcCG4"
  = [x00] ++ bytes_of_hex "000102030405060708090a0b0c0d0e0f101112131415"
    ++ bytes_of_hex "bf6a080d".
Proof. vm_compute. reflexivity. Qed.

(** A payload of no byte, one of 22 bytes and one of a single byte, under
    another version, are decoded and returned. *)
Example base58_decode_other_lengths :
  base58_decode "1Wh4bh" [x00] = Ok []
  /\ base58_decode "11QXEx2ZQ9mEdvMSaVKHznFv6iZq2NdcCG4" [x00]
     = Ok (bytes_of_hex "000102030405060708090a0b0c0d0e0f101112131415")
  /\ base58_decode "xmoYvUrE" [x6f] = Ok [xff].
Proof. vm_compute. repeat split. Qed.

(* ================================================================== *)
(** * Part III.  Further properties                                     *)
(* ================================================================== *)

(** ** Base58Check, further *)

Lemma all_bytes_complete (v : byte) : In v all_bytes.
Proof.
  unfold all_bytes. rewrite <- (byte_of_Z_of_byte v).
  apply in_map. pose proof (Z_of_byte_range v) as H.
  rewrite <- (Z2Nat.id (Z_of_byte v)) by lia.
  apply in_map. apply in_seq. lia.
Qed.

(** X1.  Base58Check round trip for payloads of any length: when the
    version byte or some byte of the payload is not zero, decoding the
    encoded string with the same version returns the payload. *)
Theorem base58_roundtrip_any_length (b : string) (payload : bytes) (v : byte) :
  unhexlify b = Ok payload ->
  (exists x, In x (v :: payload) /\ x <> x00) ->
  exists s,
    base58_check_encode b [v] = Ok s /\ base58_decode s [v] = Ok payload.
Proof.
  intros Hb (x & Hin & Hx).
  destruct (base58_decode_k_encode b payload v Hb) as (s & Henc & Hk).
  - apply count_leading_app_lt.
    pose proof (count_leading_le (byte_eqb x00) ([v] ++ payload)) as Hle.
    destruct (Nat.eq_dec (count_leading (byte_eqb x00) ([v] ++ payload))
                (length ([v] ++ payload))) as [Hall|Hnot]; [|lia].
    apply count_leading_all in Hall. rewrite Forall_forall in Hall.
    apply Hall in Hin. apply byte_eqb_eq in Hin. congruence.
  - exists s. split; [exact Henc|]. rewrite <- app_assoc in Hk.
    now apply base58_decode_of_k.
Qed.

Lemma base58_roundtrip_any_length_witness :
  exists s,
    base58_check_encode
      "0c28fca386c7a227600b2fe50b7cae11ec86d3bf1fbe471be89827e19d72aa1d" [x80]
    = Ok s
    /\ base58_decode s [x80]
       = Ok (bytes_of_hex
               "0c28fca386c7a227600b2fe50b7cae11ec86d3bf1fbe471be89827e19d72aa1d").
Proof.
  apply (base58_roundtrip_any_length
           "0c28fca386c7a227600b2fe50b7cae11ec86d3bf1fbe471be89827e19d72aa1d"
           (bytes_of_hex
              "0c28fca386c7a227600b2fe50b7cae11ec86d3bf1fbe471be89827e19d72aa1d")
           x80).
  - reflexivity.
  - exists x80. split; [now left|discriminate].
Defined.

Lemma checksum_of_version_byte (v : byte) :
  firstn 1 (dhash [v]) = [v] -> v = x74.
Proof.
  assert (H : forallb (fun v => implb (bytes_eqb (firstn 1 (dhash [v])) [v])
                                  (byte_eqb v x74)) all_bytes = true)
    by (vm_cast_no_check (@eq_refl bool true)).
  rewrite forallb_forall in H. specialize (H v (all_bytes_complete v)).
  intros E. rewrite E, bytes_eqb_refl in H. cbn [implb] in H.
  now apply byte_eqb_eq in H.
Qed.

(** What [base58_decode] checked when it returns. *)
Lemma base58_decode_inv (s : string) (v : byte) (data : bytes) :
  base58_decode s [v] = Ok data ->
  exists k,
    base58_decode_k s [v] = Ok k
    /\ firstn 1 k = [v]
    /\ lastn 4 k = firstn 4 (dhash ([v] ++ data))
    /\ data = skipn 1 (droplast 4 k).
Proof.
  unfold base58_decode.
  destruct (base58_decode_k s [v]) as [x|k]; [discriminate|].
  cbn [rbind]. intros H. exists k. split; [reflexivity|].
  destruct (bytes_eqb (firstn 1 k) [v]) eqn:Ev; [|discriminate].
  apply bytes_eqb_eq in Ev. cbn [negb] in H.
  destruct (bytes_eqb (lastn 4 k) _) eqn:Ec; [|discriminate].
  apply bytes_eqb_eq in Ec. cbn [negb] in H. apply Ok_inj in H. subst data.
  rewrite Ev in Ec. auto.
Qed.

(** Fewer than five bytes pass the two checks in one case only. *)
Lemma short_decoded_bytes (k : bytes) (v : byte) :
  (length k < 5)%nat ->
  firstn 1 k = [v] ->
  lastn 4 k = firstn 4 (dhash ([v] ++ skipn 1 (droplast 4 k))) ->
  v = x74 /\ k = [x74; x15; xe1; x00].
Proof.
  intros Hlen Ev Ec.
  assert (Hc : length (lastn 4 k) = 4%nat) by (rewrite Ec; apply checksum_length).
  destruct k as [|a [|b [|c [|d [|x k]]]]]; cbn [length] in Hlen; try lia;
    try (cbn in Hc; discriminate Hc).
  cbn [firstn] in Ev. apply (f_equal (hd x00)) in Ev. cbn [hd] in Ev. subst a.
  change (lastn 4 [v; b; c; d]) with [v; b; c; d] in Ec.
  change ([v] ++ skipn 1 (droplast 4 [v; b; c; d])) with [v] in Ec.
  assert (Hv : v = x74).
  { apply checksum_of_version_byte.
    apply (f_equal (firstn 1)) in Ec. rewrite firstn_firstn in Ec.
    change (Nat.min 1 4) with 1%nat in Ec.
    change (firstn 1 [v; b; c; d]) with [v] in Ec. symmetry. exact Ec. }
  subst v. split; [reflexivity|]. rewrite Ec. vm_compute. reflexivity.
Qed.

(** X2.  What a successful decoding comes from.  If [base58_decode]
    returns [data], the bytes it decoded are the version byte, [data] and
    the first four bytes of the double hash of both.  The one exception is
    the version byte 0x74 with the four bytes 74 15 e1 00 (the string
    ["3y6uvf"]): the checksum slice then overlaps the version byte, and the
    empty payload is returned. *)
Theorem base58_decode_success (s : string) (v : byte) (data : bytes) :
  base58_decode s [v] = Ok data ->
  exists k,
    base58_decode_k s [v] = Ok k
    /\ (k = [v] ++ data ++ firstn 4 (dhash ([v] ++ data))
        \/ (v = x74 /\ data = [] /\ k = [x74; x15; xe1; x00])).
Proof.
  intros H. apply base58_decode_inv in H.
  destruct H as (k & Hk & Ev & Ec & Hd). exists k. split; [exact Hk|].
  destruct (Nat.le_gt_cases 5 (length k)) as [Hlen|Hlen].
  - left. destruct (slices_split k Hlen) as (H1 & H2 & _).
    rewrite Ev, <- Hd in H1. rewrite H2 at 1. rewrite H1, Ec.
    now rewrite <- app_assoc.
  - right. rewrite Hd in Ec.
    destruct (short_decoded_bytes k v Hlen Ev Ec) as [-> ->].
    repeat split. exact Hd.
Qed.

Lemma base58_decode_success_witness :
  exists k,
    base58_decode_k "3y6uvf" [x74] = Ok k
    /\ (k = [x74] ++ [] ++ firstn 4 (dhash ([x74] ++ []))
        \/ (x74 = x74 /\ @nil byte = [] /\ k = [x74; x15; xe1; x00])).
Proof.
  apply (base58_decode_success "3y6uvf" x74 []). vm_compute. reflexivity.
Defined.

Lemma b58_to_int_result (s : list ascii) (acc : Z) :
  0 <= acc ->
  match b58_to_int acc s with
  | inl x => exists c, x = InvalidBase58Error c
  | inr n => 0 <= n
  end.
Proof.
  revert acc. induction s as [|c s IH]; intros acc Hacc; cbn [b58_to_int].
  - exact Hacc.
  - destruct (b58_index c) as [d|] eqn:E.
    + apply b58_index_some in E. apply IH. lia.
    + now exists c.
Qed.

(** X3.  A string of two or more characters that starts with ['1'] never
    fails the version check: the padding that [base58_decode] puts back in
    front of the decoded bytes is made of the expected version byte itself,
    so that [VersionByteError] is never raised on such a string, whatever
    the version expected. *)
Theorem base58_decode_leading_one (c : ascii) (rest : string) (v : byte) :
  base58_decode (String "1" (String c rest)) [v] <> Raise VersionByteError.
Proof.
  unfold base58_decode, base58_decode_k.
  cbn [list_ascii_of_string].
  pose proof (b58_to_int_result ("1"%char :: c :: list_ascii_of_string rest) 0
                ltac:(lia)) as Hn.
  destruct (b58_to_int 0 _) as [x|n].
  - destruct Hn as (c' & ->). discriminate.
  - cbn [rbind Ok].
    destruct (int_to_bytes_total n Hn) as (res & -> & _ & _). cbn [rbind Ok].
    replace (droplast 1 ("1"%char :: c :: list_ascii_of_string rest))
      with ("1"%char :: droplast 1 (c :: list_ascii_of_string rest)).
    2:{ unfold droplast. cbn [length]. rewrite !Nat.sub_succ, !Nat.sub_0_r.
        reflexivity. }
    change (count_leading (Ascii.eqb (b58_char 0)) ("1"%char :: ?l))
      with (S (count_leading (Ascii.eqb (b58_char 0)) l)).
    cbn [bytes_mul app firstn].
    rewrite bytes_eqb_refl. cbn [negb].
    match goal with |- context [if ?b then _ else _] => destruct b end;
      discriminate.
Qed.

Lemma b58_char_in_alphabet (d : Z) : 0 <= d < 58 -> in_alphabet (b58_char d).
Proof. intros H. unfold in_alphabet. now rewrite b58_index_char. Qed.

(** X4.  What [base58_check_encode] returns is a non-empty string of
    characters of the base58 alphabet. *)
Theorem base58_check_encode_alphabet (b : string) (version : bytes)
    (s : string) :
  base58_check_encode b version = Ok s ->
  Forall in_alphabet (list_ascii_of_string s) /\ s <> ""%string.
Proof.
  intros H.
  destruct (unhexlify b) as [x|p] eqn:Hb.
  { unfold base58_check_encode in H. rewrite Hb in H. discriminate. }
  rewrite (base58_check_encode_eq b p version Hb) in H.
  apply Ok_inj in H. subst s. rewrite list_ascii_of_string_of_list_ascii.
  set (d := version ++ p) in *.
  set (ah := d ++ firstn 4 (dhash d)) in *.
  pose proof (be_val_bound ah) as Hn.
  split.
  - apply Forall_forall. intros ch Hin. apply in_map_iff in Hin.
    destruct Hin as (x & <- & Hx). apply b58_char_in_alphabet.
    apply in_app_or in Hx. destruct Hx as [Hx|Hx].
    + apply repeat_spec in Hx. lia.
    + pose proof (digits_in_base 58 ltac:(lia) (be_val ah) ltac:(lia)) as Hib.
      unfold in_base in Hib. rewrite Forall_forall in Hib. now apply Hib.
  - intros E. apply (f_equal list_ascii_of_string) in E.
    rewrite list_ascii_of_string_of_list_ascii in E. cbn in E.
    apply map_eq_nil, app_eq_nil in E. destruct E as [Hpad Hdig].
    assert (Hz : be_val ah = 0).
    { destruct (Z.eq_dec (be_val ah) 0) as [|Hne]; [assumption|].
      exfalso. apply (digits_nonempty 58 ltac:(lia) (be_val ah)); [lia|].
      exact Hdig. }
    destruct d as [|x d'] eqn:Ed.
    + subst ah. cbn [app] in Hz. revert Hz. vm_compute. discriminate.
    + cbn [count_leading] in Hpad.
      destruct (byte_eqb x00 x) eqn:Ex; [cbn in Hpad; discriminate|].
      subst ah. cbn [app] in Hz. rewrite be_val_cons in Hz.
      pose proof (be_val_bound (d' ++ firstn 4 (dhash (x :: d')))) as Hb'.
      pose proof (Z_of_byte_range x) as Hx.
      assert (Z_of_byte x <> 0).
      { rewrite Z_of_byte_x00. intros ->. cbn in Ex. discriminate. }
      assert (0 < 256 ^ Z.of_nat (length (d' ++ firstn 4 (dhash (x :: d')))))
        by (apply Z.pow_pos_nonneg; lia).
      nia.
Qed.

Lemma base58_check_encode_alphabet_witness :
  Forall in_alphabet (list_ascii_of_string "16UwLL9Risc3QfPqBUvKofHmBQ7wMtjvM")
  /\ "16UwLL9Risc3QfPqBUvKofHmBQ7wMtjvM"%string <> ""%string.
Proof.
  apply (base58_check_encode_alphabet
           "010966776006953d5567439e5e39f86a0d273bee" [x00]).
  vm_compute. reflexivity.
Defined.

Lemma b58_to_int_alphabet (l : list ascii) (acc n : Z) :
  b58_to_int acc l = Ok n -> Forall in_alphabet l.
Proof.
  revert acc. induction l as [|c l IH]; intros acc; cbn [b58_to_int].
  - constructor.
  - destruct (b58_index c) as [d|] eqn:E; [|discriminate].
    intros H. constructor; [|eapply IH; exact H].
    unfold in_alphabet. congruence.
Qed.

(** The bytes of a natural number start with a zero byte only for zero. *)
Lemma int_to_bytes_canonical (n : Z) :
  0 <= n ->
  exists x r, int_to_bytes n = Ok (x :: r) /\ be_val (x :: r) = n
              /\ (x = x00 -> n = 0).
Proof.
  intros Hn.
  destruct (int_to_bytes_total n Hn) as (res & Hres & Hbe & Hne).
  destruct (leading_zeros_split res) as [Hsplit Hhd].
  set (z := count_leading (byte_eqb x00) res) in *.
  destruct (skipn z res) as [|y r] eqn:Er.
  - rewrite app_nil_r in Hsplit.
    assert (Hz : n = 0).
    { rewrite <- Hbe, Hsplit. rewrite <- (app_nil_r (repeat x00 z)).
      rewrite be_val_zeros. reflexivity. }
    destruct res as [|x r]; [congruence|]. exists x, r. auto.
  - assert (Hval : n = be_val (y :: r)).
    { rewrite <- Hbe. rewrite Hsplit at 1. apply be_val_zeros. }
    pose proof (int_to_bytes_be_val y r Hhd) as Hc.
    rewrite <- Hval in Hc. exists y, r. repeat split; [exact Hc|now symmetry|].
    intros ->. congruence.
Qed.

Lemma be_val_pos (bs : bytes) (x : byte) :
  In x bs -> x <> x00 -> 0 < be_val bs.
Proof.
  induction bs as [|y bs IH]; [contradiction|].
  intros Hin Hx. rewrite be_val_cons.
  pose proof (be_val_bound bs) as Hb. pose proof (Z_of_byte_range y) as Hy.
  assert (Hp : 0 < 256 ^ Z.of_nat (length bs)) by (apply Z.pow_pos_nonneg; lia).
  destruct Hin as [->|Hin].
  - assert (Z_of_byte x <> 0) by now rewrite Z_of_byte_x00. nia.
  - specialize (IH Hin Hx). nia.
Qed.

Lemma leading_zero_digits (ds : list Z) :
  exists z rest, ds = repeat 0 z ++ rest /\ no_leading_zero rest.
Proof.
  induction ds as [|d ds (z & rest & -> & Hr)].
  - exists O, []. split; [reflexivity|exact I].
  - destruct (Z.eq_dec d 0) as [->|Hd].
    + now exists (S z), rest.
    + exists O, (d :: repeat 0 z ++ rest). split; [reflexivity|exact Hd].
Qed.

Lemma zero_digit_test (ds : list Z) :
  in_base 58 ds ->
  count_leading (fun d => Ascii.eqb (b58_char 0) (b58_char d)) ds
  = count_leading (Z.eqb 0) ds.
Proof.
  induction 1 as [|d ds Hd _ IH]; [reflexivity|]. cbn [count_leading].
  destruct (Z.eqb_spec 0 d) as [<-|Hne].
  - rewrite Ascii.eqb_refl. now rewrite IH.
  - rewrite b58_zero_char by lia. reflexivity.
Qed.

Lemma droplast_in_base (n : nat) (ds : list Z) :
  in_base 58 ds -> in_base 58 (droplast n ds).
Proof.
  intros H. unfold droplast, in_base in *.
  generalize (length ds - n)%nat as m. intros m.
  rewrite <- (firstn_skipn m ds) in H.
  apply Forall_app in H. now destruct H.
Qed.

(** What the first part of [base58_decode] computes on a string that it
    accepts. *)
Lemma base58_decode_k_inv (s : string) (v : byte) (k : bytes) :
  base58_decode_k s [v] = Ok k ->
  exists ds x r,
    s = string_of_list_ascii (map b58_char ds)
    /\ in_base 58 ds
    /\ k = repeat v (count_leading (Z.eqb 0) (droplast 1 ds)) ++ x :: r
    /\ int_to_bytes (val 58 ds) = Ok (x :: r)
    /\ be_val (x :: r) = val 58 ds
    /\ (x = x00 -> val 58 ds = 0).
Proof.
  intros Hk.
  assert (Hal : Forall in_alphabet (list_ascii_of_string s)).
  { unfold base58_decode_k in Hk.
    destruct (b58_to_int 0 (list_ascii_of_string s)) as [e|n] eqn:E;
      [discriminate|].
    eapply b58_to_int_alphabet. exact E. }
  apply alphabet_digits in Hal. destruct Hal as (ds & Hds & Hl).
  assert (Hs : s = string_of_list_ascii (map b58_char ds)).
  { rewrite <- Hl. symmetry. apply string_of_list_ascii_of_string. }
  exists ds.
  pose proof (val_bound 58 ltac:(lia) ds Hds) as Hb.
  destruct (int_to_bytes_canonical (val 58 ds) ltac:(lia))
    as (x & r & Hres & Hbe & Hx).
  exists x, r. split; [exact Hs|]. split; [exact Hds|].
  split; [|split; [|split]; assumption].
  unfold base58_decode_k in Hk. rewrite Hl in Hk.
  rewrite b58_to_int_digits in Hk by exact Hds. cbn [rbind Ok] in Hk.
  rewrite Z.mul_0_l, Z.add_0_l, Hres in Hk. cbn [rbind Ok] in Hk.
  rewrite droplast_map, count_leading_map, bytes_mul_single in Hk.
  rewrite zero_digit_test in Hk by (apply droplast_in_base; exact Hds).
  apply Ok_inj in Hk. now symmetry.
Qed.

(** X5.  A valid address is the encoding of its payload: if
    [base58_decode] accepts [s] and returns [data], then encoding [data]
    with the same version gives [s] back.  This holds for version 0 when
    [data] has a non-zero byte, and for another version when [s] does not
    start with ['1'] (the exception of X2 apart). *)
Theorem base58_encode_decoded (s : string) (v : byte) (data : bytes) :
  base58_decode s [v] = Ok data ->
  (v = x00 /\ exists x, In x data /\ x <> x00)
  \/ (v <> x00 /\ (v <> x74 \/ data <> [])
      /\ forall r, s <> String "1" r) ->
  base58_check_encode (hexlify data) [v] = Ok s.
Proof.
  intros Hdec Hcond.
  destruct (base58_decode_inv s v data Hdec) as (k & Hk & Ev & Ec & Hd).
  assert (Hkeq : k = [v] ++ data ++ firstn 4 (dhash ([v] ++ data))).
  { destruct (Nat.le_gt_cases 5 (length k)) as [Hlen|Hlen].
    - destruct (slices_split k Hlen) as (H1 & H2 & _).
      rewrite Ev, <- Hd in H1. rewrite H2 at 1. rewrite H1, Ec.
      now rewrite <- app_assoc.
    - exfalso. rewrite Hd in Ec.
      destruct (short_decoded_bytes k v Hlen Ev Ec) as [Hv Hk4].
      rewrite Hk4 in Hd. cbn in Hd.
      destruct Hcond as [(Hv0 & _)|(_ & [Hv'|Hd'] & _)]; congruence. }
  clear Ev Ec Hd.
  destruct (base58_decode_k_inv s v k Hk) as (ds & x & r & Hs & Hds & Hk' & Hitb & Hbe & Hx).
  rewrite (base58_check_encode_eq _ data [v] (unhexlify_hexlify data)).
  cbv zeta. rewrite Hs. do 2 f_equal.
  set (d := [v] ++ data) in *.
  set (ah := d ++ firstn 4 (dhash d)).
  assert (Hah : ah = k) by (unfold ah, d; now rewrite Hkeq, <- app_assoc).
  set (pad := count_leading (Z.eqb 0) (droplast 1 ds)) in *.
  destruct (leading_zero_digits ds) as (z & rest & Hsplit & Hnz).
  assert (Hrest : in_base 58 rest).
  { rewrite Hsplit in Hds. apply Forall_app in Hds. now destruct Hds. }
  assert (Hval : val 58 ds = val 58 rest)
    by (rewrite Hsplit; apply val_repeat_zero).
  destruct Hcond as [(-> & y & Hy & Hy0)|(Hv & _ & Hone)].
  - (* version 0: the zero bytes in front are the characters '1' in front *)
    assert (Hn : be_val ah = val 58 ds).
    { rewrite Hah, Hk', <- Hbe. apply be_val_zeros. }
    assert (Hpos : 0 < be_val ah).
    { apply (be_val_pos ah y); [|exact Hy0].
      unfold ah, d. apply in_or_app. left. now right. }
    assert (Hx0 : x <> x00) by (intros E; apply Hx in E; lia).
    destruct rest as [|d0 rest'].
    { rewrite Hval, val_nil in Hn. lia. }
    cbn in Hnz.
    assert (Hpad : pad = z).
    { unfold pad. rewrite Hsplit. apply count_leading_droplast1.
      - reflexivity.
      - now apply Z.eqb_neq. }
    assert (Hlz : count_leading (byte_eqb x00) d = z).
    { assert (Hd : (count_leading (byte_eqb x00) d < length d)%nat).
      { pose proof (count_leading_le (byte_eqb x00) d) as Hle.
        destruct (Nat.eq_dec (count_leading (byte_eqb x00) d) (length d))
          as [Hall|]; [|lia].
        apply count_leading_all in Hall. rewrite Forall_forall in Hall.
        assert (Hin : In y d) by (unfold d; now right).
        apply Hall, byte_eqb_eq in Hin. congruence. }
      rewrite <- (count_leading_app_lt _ d (firstn 4 (dhash d)) Hd).
      fold ah. rewrite Hah, Hk', Hpad.
      rewrite count_leading_repeat by reflexivity. cbn [count_leading].
      destruct (byte_eqb x00 x) eqn:E; [|lia].
      apply byte_eqb_eq in E. congruence. }
    rewrite Hlz, Hn, Hval, Hsplit.
    now rewrite (digits_val 58 ltac:(lia) _ Hrest Hnz).
  - (* another version: no character '1' in front *)
    assert (Hz : pad = O /\ no_leading_zero ds /\ ds <> []).
    { destruct ds as [|d0 ds'].
      - exfalso. rewrite val_nil in Hitb. cbv in Hitb.
        apply Ok_inj in Hitb.
        assert (Hlen : (5 <= length k)%nat).
        { rewrite Hkeq, !length_app, checksum_length. cbn. lia. }
        rewrite Hk', <- Hitb in Hlen. cbn in Hlen. lia.
      - inversion Hds as [|? ? Hd0 _]; subst.
        assert (Hd0z : d0 <> 0).
        { intros ->. apply (Hone (string_of_list_ascii (map b58_char ds'))).
          reflexivity. }
        split; [|split; [exact Hd0z|discriminate]].
        unfold pad. apply count_leading_droplast1_head.
        now apply Z.eqb_neq. }
    destruct Hz as (Hpad & Hnl & Hne).
    assert (Hn : be_val ah = val 58 ds).
    { rewrite Hah, Hk', Hpad. cbn [repeat app]. exact Hbe. }
    assert (Hlz : count_leading (byte_eqb x00) d = O).
    { unfold d. cbn [app count_leading].
      destruct (byte_eqb x00 v) eqn:E; [|reflexivity].
      apply byte_eqb_eq in E. congruence. }
    rewrite Hlz, Hn. cbn [repeat app].
    now rewrite (digits_val 58 ltac:(lia) ds Hds Hnl).
Qed.

Lemma base58_encode_decoded_witness :
  base58_check_encode
    (hexlify (bytes_of_hex "010966776006953d5567439e5e39f86a0d273bee")) [x00]
  = Ok "16UwLL9Risc3QfPqBUvKofHmBQ7wMtjvM"%string.
Proof.
  apply (base58_encode_decoded "16UwLL9Risc3QfPqBUvKofHmBQ7wMtjvM" x00
           (bytes_of_hex "010966776006953d5567439e5e39f86a0d273bee")).
  - vm_compute. reflexivity.
  - left. split; [reflexivity|]. exists x01. split; [now left|discriminate].
Defined.

(** X6.  A character outside the alphabet is reported before anything
    else: on a string whose first such character is [c], [base58_decode]
    raises [InvalidBase58Error] with [c], whatever the version expected and
    whatever follows [c]. *)
Theorem base58_decode_invalid_character (pre post : list ascii) (c : ascii)
    (version : bytes) :
  Forall in_alphabet pre ->
  b58_index c = None ->
  base58_decode (string_of_list_ascii (pre ++ c :: post)) version
  = Raise (InvalidBase58Error c).
Proof.
  intros Hpre Hc. apply alphabet_digits in Hpre.
  destruct Hpre as (ds & Hds & ->).
  unfold base58_decode, base58_decode_k.
  rewrite list_ascii_of_string_of_list_ascii.
  rewrite b58_to_int_app by exact Hds.
  cbn [b58_to_int]. rewrite Hc. reflexivity.
Qed.

Lemma base58_decode_invalid_character_witness :
  base58_decode "16UwLL9Risc3QfPq0lvKofHmBQ7wMtjvM" [x00]
  = Raise (InvalidBase58Error "0").
Proof.
  apply (base58_decode_invalid_character
           (list_ascii_of_string "16UwLL9Risc3QfPq")
           (list_ascii_of_string "lvKofHmBQ7wMtjvM") "0"%char [x00]).
  - repeat constructor; discriminate.
  - reflexivity.
Defined.

(** ** The wire primitives are uniquely decodable *)

(** X7.  [var_int] can be decoded in one way only: if the bytes of [i]
    followed by [r] are the bytes of [j] followed by [r'], then [i = j] and
    [r = r']. *)
Theorem var_int_prefix_free (i j : Z) (b b' r r' : bytes) :
  var_int i = Ok b -> var_int j = Ok b' -> b ++ r = b' ++ r' ->
  i = j /\ r = r'.
Proof.
  intros Hi Hj E.
  pose proof (parse_var_int_ok i b r Hi) as P1.
  pose proof (parse_var_int_ok j b' r' Hj) as P2.
  rewrite E, P2 in P1. inversion P1. auto.
Qed.

Lemma var_int_prefix_free_witness :
  65535 = 65535 /\ [x01; x02] = [x01; x02].
Proof.
  apply (var_int_prefix_free 65535 65535 [xfd; xff; xff] [xfd; xff; xff]
           [x01; x02] [x01; x02]); reflexivity.
Defined.

Lemma parse_op_push_ok (i : Z) (b rest : bytes) :
  op_push i = Ok b -> parse_op_push (b ++ rest) = Some (i, rest).
Proof.
  unfold op_push.
  destruct (Z.ltb_spec i 76) as [H1|H1].
  - intros E. destruct (to_bytes_ok _ _ _ E) as (Hr & Hl & Hv).
    destruct b as [|x [|y b]]; try discriminate.
    cbn [le_val] in Hv. cbn [app parse_op_push].
    replace (Z_of_byte x) with i by lia.
    destruct (Z.ltb_spec i 76); [reflexivity|lia].
  - destruct (Z.leb_spec i 255) as [H2|H2];
      [|destruct (Z.leb_spec i 65535) as [H3|H3]];
      (destruct (to_bytes _ i) as [x|b0] eqn:E; [discriminate|]);
      cbn [rbind]; intros E'; inversion E'; subst; clear E';
      destruct (to_bytes_ok _ _ _ E) as (Hr & Hl & Hv);
      cbn [app parse_op_push];
      match goal with
      | |- context [Z_of_byte ?c] =>
          let v := eval vm_compute in (Z_of_byte c) in
          change (Z_of_byte c) with v
      end;
      cbn [Z.ltb Z.eqb Z.compare Pos.compare Pos.compare_cont Pos.eqb];
      rewrite <- Hl at 1; rewrite take_app, Hv; reflexivity.
Qed.

(** X8.  [op_push] can be decoded in one way only: if the bytes of [i]
    followed by [r] are the bytes of [j] followed by [r'], then [i = j] and
    [r = r']. *)
Theorem op_push_prefix_free (i j : Z) (b b' r r' : bytes) :
  op_push i = Ok b -> op_push j = Ok b' -> b ++ r = b' ++ r' ->
  i = j /\ r = r'.
Proof.
  intros Hi Hj E.
  pose proof (parse_op_push_ok i b r Hi) as P1.
  pose proof (parse_op_push_ok j b' r' Hj) as P2.
  rewrite E, P2 in P1. inversion P1. auto.
Qed.

Lemma op_push_prefix_free_witness :
  80 = 80 /\ [x6a] = [x6a].
Proof.
  apply (op_push_prefix_free 80 80 [x4c; x50] [x4c; x50] [x6a] [x6a]);
    reflexivity.
Defined.

(** ** Values, chunks and the size of the payload *)

Lemma sum_values_app (l1 l2 : list txout) :
  sum_values (l1 ++ l2) = sum_values l1 + sum_values l2.
Proof.
  unfold sum_values. induction l1 as [|o l1 IH]; cbn [fold_right app]; lia.
Qed.

Lemma p2pkh_outs_sum (c : config) (o : option (string * Z)) (outs : list txout) :
  p2pkh_outs c o outs ->
  sum_values outs = match o with Some (_, v) => v | None => 0 end.
Proof.
  destruct o as [[a v]|]; cbn [p2pkh_outs].
  - intros (h & _ & ->). cbn. lia.
  - intros ->. reflexivity.
Qed.

Lemma embeds_sum (multisig : multisig_arg) (v : Z) (data_array : list bytes)
    (outs : list txout) :
  Forall2 (embeds multisig v) data_array outs ->
  sum_values outs = v * Z.of_nat (length data_array).
Proof.
  induction 1 as [|ch o data_array outs [Hv _] _ IH].
  - cbn. lia.
  - cbn [sum_values fold_right length]. fold (sum_values outs).
    rewrite IH, Hv. lia.
Qed.

Lemma divide_data_empty (multisig : multisig_arg) (data_array : list bytes) :
  divide_data [] multisig = Ok data_array -> data_array = [].
Proof. cbn. intros H. apply Ok_inj in H. now subst. Qed.

(** X9.  A successful build conserves value: the values of the outputs
    read back from the transaction, plus the fee, add up to the amounts of
    the coins selected as inputs, each converted to satoshis as [get_inputs]
    does. *)
Theorem transaction_conserves_value (source : string)
    (destination : option string) (btc_amount : option Z) (fee : Z)
    (data : bytes) (multisig : multisig_arg) (unittest : bool)
    (e : env) (t t' : trace) (hex : string) :
  transaction (source, destination, btc_amount, fee, data) multisig unittest e t
  = (Ok hex, t') ->
  exists btc_amount' data_array inputs total_btc_in t1 t2 head rest outs,
    let c := cfg e in
    let u := unittest_flag c unittest in
    check_source_in_wallet source multisig u e t = (Ok tt, t1)
    /\ check_dust c destination multisig btc_amount = Ok btc_amount'
    /\ divide_data data multisig = Ok data_array
    /\ get_inputs source
         (total_to_send c fee multisig data_array destination btc_amount')
         u e t1
       = (Ok (Some (inputs, total_btc_in)), t2)
    /\ sum_units c inputs = Ok total_btc_in
    /\ tx_head inputs = Ok head
    /\ hex = hexlify (head ++ rest)
    /\ parse_outputs rest = Some (outs, locktime_bytes)
    /\ sum_values outs + fee = total_btc_in.
Proof.
  intros H. apply transaction_ok in H.
  destruct H as (amount' & data_array & inputs & tin & t1 & t2 & head & nb
                 & obs & od & odata & oc & Hval & Hwal & Hdust & Hdiv & Hget
                 & Hhead & Hnb & Hobs & -> & Hod & Hodata & Hoc).
  destruct (get_inputs_ok _ _ _ _ _ _ _ _ Hget)
    as (lu & _ & (_ & _ & Htin & _)).
  exists amount', data_array, inputs, tin, t1, t2, head,
         (nb ++ obs ++ locktime_bytes), (od ++ odata ++ oc).
  cbv zeta.
  split; [exact Hwal|]. split; [exact Hdust|]. split; [exact Hdiv|].
  split; [exact Hget|]. split; [exact Htin|]. split; [exact Hhead|].
  split; [reflexivity|].
  split; [apply (parse_outputs_ok _ _ _ _ Hnb Hobs)|].
  rewrite !sum_values_app.
  rewrite (p2pkh_outs_sum _ _ _ Hod), (p2pkh_outs_sum _ _ _ Hoc).
  assert (Hd : sum_values odata
               = data_value_of (cfg e) multisig * Z.of_nat (length data_array)).
  { unfold data_output_of in Hodata. destruct data as [|x data].
    - cbn [truthy_bytes data_outs] in Hodata. subst odata.
      apply divide_data_empty in Hdiv. subst data_array. cbn. lia.
    - cbn [truthy_bytes data_outs] in Hodata.
      now apply embeds_sum in Hodata. }
  rewrite Hd. clear Hd Hodata Hod Hoc Hobs Hnb Hget Htin.
  unfold total_to_send, destination_output_of, change_output_of.
  rewrite fold_left_add_const.
  set (dv := data_value_of (cfg e) multisig * Z.of_nat (length data_array)).
  destruct (truthy_ostr destination) eqn:Ed.
  - destruct destination as [d|]; [|discriminate].
    unfold check_dust in Hdust. rewrite Ed in Hdust.
    assert (exists a, amount' = Some a) as (a & ->).
    { destruct (truthy_multisig multisig);
        match type of Hdust with
        | context [negb ?b] => destruct b; cbn [negb] in Hdust
        end; try discriminate; apply Ok_inj in Hdust; eauto. }
    destruct (Z.eqb_spec (tin - (fee + dv + a)) 0) as [Hz|Hz]; cbn [negb]; lia.
  - destruct (Z.eqb_spec (tin - (fee + dv)) 0) as [Hz|Hz]; cbn [negb]; lia.
Qed.

Lemma transaction_conserves_value_witness :
  exists btc_amount' data_array inputs total_btc_in t1 t2 head rest outs,
    let e := unlocked_env [example_coin example_source 0 100000] key1_wif in
    check_source_in_wallet example_source (MsStr key1_sec) false e []
    = (Ok tt, t1)
    /\ check_dust mainnet_config (Some example_destination) (MsStr key1_sec)
         (Some 20000) = Ok btc_amount'
    /\ divide_data example_payload (MsStr key1_sec) = Ok data_array
    /\ get_inputs example_source
         (total_to_send mainnet_config 10000 (MsStr key1_sec) data_array
            (Some example_destination) btc_amount')
         false e t1
       = (Ok (Some (inputs, total_btc_in)), t2)
    /\ sum_units mainnet_config inputs = Ok total_btc_in
    /\ tx_head inputs = Ok head
    /\ example_tx_hex = hexlify (head ++ rest)
    /\ parse_outputs rest = Some (outs, locktime_bytes)
    /\ sum_values outs + 10000 = total_btc_in.
Proof.
  apply (transaction_conserves_value example_source (Some example_destination)
           (Some 20000) 10000 example_payload (MsStr key1_sec) false
           (unlocked_env [example_coin example_source 0 100000] key1_wif)
           [] [Validateaddress example_source; Listunspent] example_tx_hex).
  vm_compute. reflexivity.
Defined.

(** ** Chunks *)

Lemma chunks_fuel_length (n fuel : nat) (l : bytes) :
  (0 < n)%nat -> (length l <= fuel)%nat ->
  length (chunks_fuel fuel l n) = ((length l + n - 1) / n)%nat.
Proof.
  intros Hn. revert l. induction fuel as [|fuel IH]; intros l Hl.
  - destruct l; [|cbn in Hl; lia]. cbn [chunks_fuel length].
    symmetry. apply Nat.div_small. lia.
  - cbn [chunks_fuel]. destruct l as [|x l].
    + cbn [length]. symmetry. apply Nat.div_small. lia.
    + cbn [length]. rewrite IH by (rewrite length_skipn; cbn [length] in *; lia).
      rewrite length_skipn.
      set (m := length (x :: l)) in *.
      assert (Hm : (0 < m)%nat) by (unfold m; cbn; lia).
      change (S (length l)) with m.
      destruct (Nat.le_gt_cases n m) as [Hle|Hgt].
      * replace (m + n - 1)%nat with ((m - n + n - 1) + 1 * n)%nat by lia.
        rewrite Nat.div_add by lia. lia.
      * replace (m - n)%nat with O by lia. cbn [Nat.add].
        rewrite (Nat.div_small (n - 1) n) by lia.
        apply (Nat.div_unique (m + n - 1) n 1 (m - 1)); lia.
Qed.

Lemma chunks_fuel_nth (n fuel : nat) (l : bytes) (i : nat) :
  (0 < n)%nat -> (length l <= fuel)%nat ->
  (i < length (chunks_fuel fuel l n))%nat ->
  nth i (chunks_fuel fuel l n) [] = firstn n (skipn (i * n) l).
Proof.
  intros Hn. revert l i. induction fuel as [|fuel IH]; intros l i Hl Hi.
  - cbn in Hi. lia.
  - cbn [chunks_fuel] in *. destruct l as [|x l]; [cbn in Hi; lia|].
    destruct i as [|i].
    + reflexivity.
    + cbn [nth length] in *. rewrite IH.
      * rewrite skipn_skipn. do 2 f_equal. lia.
      * rewrite length_skipn. cbn [length] in *. lia.
      * lia.
Qed.

(** X10.  [chunks l n], for [n > 0], cuts [l] into [ceil (len l / n)]
    pieces whose concatenation is [l]; the piece of index [i] is
    [l[i*n : i*n + n]], so that every piece but the last has [n] bytes. *)
Theorem chunks_spec (l : bytes) (n : nat) :
  (0 < n)%nat ->
  concat (chunks l n) = l
  /\ length (chunks l n) = ((length l + n - 1) / n)%nat
  /\ forall i, (i < length (chunks l n))%nat ->
       nth i (chunks l n) [] = firstn n (skipn (i * n) l).
Proof.
  intros Hn. split; [now apply chunks_concat|].
  split; [apply chunks_fuel_length; [exact Hn|lia]|].
  intros i Hi. apply chunks_fuel_nth; [exact Hn|lia|exact Hi].
Qed.

Lemma chunks_spec_witness :
  concat (chunks example_payload 32) = example_payload
  /\ length (chunks example_payload 32)
     = ((length example_payload + 32 - 1) / 32)%nat
  /\ forall i, (i < length (chunks example_payload 32))%nat ->
       nth i (chunks example_payload 32) []
       = firstn 32 (skipn (i * 32) example_payload).
Proof. apply (chunks_spec example_payload 32). lia. Defined.

(** X11.  Without multi-signature outputs, a payload of more than 80
    bytes makes the build fail with [AssertionError]: after the addresses
    were validated, the wallet was asked about the source and the dust check
    passed, and before any coin is selected. *)
Theorem transaction_op_return_limit (source : string)
    (destination : option string) (btc_amount btc_amount' : option Z) (fee : Z)
    (data : bytes) (multisig : multisig_arg) (unittest : bool)
    (e : env) (t t1 : trace) :
  truthy_multisig multisig = false ->
  (80 < length data)%nat ->
  validate_addresses (cfg e) source destination = Ok tt ->
  check_source_in_wallet source multisig (unittest_flag (cfg e) unittest) e t
  = (Ok tt, t1) ->
  check_dust (cfg e) destination multisig btc_amount = Ok btc_amount' ->
  transaction (source, destination, btc_amount, fee, data) multisig unittest e t
  = (Raise AssertionError, t1).
Proof.
  intros Hm Hlen Hval Hwal Hdust. rewrite transaction_eq. cbv zeta.
  rewrite Hval. unfold Ok in Hwal. rewrite Hwal, Hdust.
  assert (Hdiv : divide_data data multisig = Raise AssertionError).
  { unfold divide_data. rewrite Hm.
    destruct data as [|x data]; [cbn in Hlen; lia|]. cbn [truthy_bytes].
    unfold chunks. rewrite chunks_fuel_length by lia.
    set (m := length (x :: data)) in *.
    assert (H2 : (2 <= (m + 80 - 1) / 80)%nat).
    { apply Nat.div_le_lower_bound; lia. }
    destruct (Nat.eqb_spec ((m + 80 - 1) / 80) 1); [lia|]. reflexivity. }
  rewrite Hdiv. reflexivity.
Qed.

Lemma transaction_op_return_limit_witness :
  transaction (example_source, Some example_destination, Some 20000, 10000,
               example_payload ++ example_payload)
    (MsBool false) false
    (example_env [example_coin example_source 0 100000]) []
  = (Raise AssertionError, [Validateaddress example_source]).
Proof.
  apply (transaction_op_return_limit example_source (Some example_destination)
           (Some 20000) (Some 20000) 10000 (example_payload ++ example_payload)
           (MsBool false) false
           (example_env [example_coin example_source 0 100000]) []
           [Validateaddress example_source]).
  - reflexivity.
  - cbn. lia.
  - vm_compute. reflexivity.
  - reflexivity.
  - reflexivity.
Defined.

(** ** Addresses that are rejected, sources outside the wallet *)

(** X12.  An address that [base58_decode] rejects makes the build fail with
    [InvalidAddressError], carrying that address, before any call to
    bitcoind.  The source is examined first: the destination is reported
    only if the source is empty or valid. *)
Theorem transaction_invalid_address (source : string)
    (destination : option string) (btc_amount : option Z) (fee : Z)
    (data : bytes) (multisig : multisig_arg) (unittest : bool)
    (e : env) (t : trace) (address : string) :
  truthy_str address = true ->
  undecodable (cfg e) address ->
  address = source
  \/ (destination = Some address
      /\ (truthy_str source = false
          \/ exists h, base58_decode source (ADDRESSVERSION (cfg e)) = Ok h)) ->
  transaction (source, destination, btc_amount, fee, data) multisig unittest e t
  = (Raise (InvalidAddressError "Invalid Bitcoin address:" address), t).
Proof.
  intros Ha (x & Hx) Hcase. rewrite transaction_eq. cbv zeta.
  assert (Hv : validate_addresses (cfg e) source destination
               = Raise (InvalidAddressError "Invalid Bitcoin address:" address)).
  { unfold validate_addresses, validate_address.
    destruct Hcase as [<-|(-> & Hs)].
    - rewrite Ha, Hx. reflexivity.
    - assert (Hsrc : (if truthy_str source
                      then let? _ := try_except
                                       (base58_decode source (ADDRESSVERSION (cfg e)))
                                       (InvalidAddressError
                                          "Invalid Bitcoin address:" source) in
                           Ok tt
                      else Ok tt) = Ok tt).
      { destruct Hs as [->|(h & ->)]; [reflexivity|].
        destruct (truthy_str source); reflexivity. }
      rewrite Hsrc. cbn [rbind Ok]. rewrite Ha, Hx. reflexivity. }
  rewrite Hv. reflexivity.
Qed.

Lemma transaction_invalid_address_witness :
  transaction (example_source, Some "26UwLL9Risc3QfPqBUvKofHmBQ7wMtjvM"%string,
               Some 20000, 10000, [])
    (MsBool false) false
    (example_env [example_coin example_source 0 100000]) []
  = (Raise (InvalidAddressError "Invalid Bitcoin address:"
              "26UwLL9Risc3QfPqBUvKofHmBQ7wMtjvM"), []).
Proof.
  apply (transaction_invalid_address example_source
           (Some "26UwLL9Risc3QfPqBUvKofHmBQ7wMtjvM"%string) (Some 20000) 10000 []
           (MsBool false) false
           (example_env [example_coin example_source 0 100000]) []
           "26UwLL9Risc3QfPqBUvKofHmBQ7wMtjvM").
  - reflexivity.
  - exists VersionByteError. vm_compute. reflexivity.
  - right. split; [reflexivity|]. right. eexists. vm_compute. reflexivity.
Defined.

(** X13.  When [multisig] is a public key string, the check that the
    source is in the wallet is skipped; but a build whose source bitcoind
    does not own never gets its coins: [get_inputs] asks bitcoind once,
    then fails with [TransactionError] on the test network and, on the main
    network, with [NameError] (the name [address] is not defined where
    [get_unspent_txouts] is called). *)
Theorem transaction_foreign_source (source : string)
    (destination : option string) (btc_amount btc_amount' : option Z) (fee : Z)
    (data : bytes) (m : string) (data_array : list bytes) (unittest : bool)
    (e : env) (t : trace) :
  unittest_flag (cfg e) unittest = false ->
  validate_addresses (cfg e) source destination = Ok tt ->
  check_dust (cfg e) destination (MsStr m) btc_amount = Ok btc_amount' ->
  divide_data data (MsStr m) = Ok data_array ->
  validateaddress_ismine (node e) t source = Ok false ->
  transaction (source, destination, btc_amount, fee, data) (MsStr m) unittest e t
  = (Raise (if TESTNET (cfg e)
            then TransactionError "Blockchain.info does not support testnet."
            else NameError "address"),
     t ++ [Validateaddress source]).
Proof.
  intros Hu Hval Hdust Hdiv Hmine. rewrite transaction_eq. cbv zeta.
  rewrite Hval, Hu. cbn [check_source_in_wallet is_str negb andb ret].
  unfold Ok in Hdust, Hdiv. cbv beta iota delta [Ok]. rewrite Hdust, Hdiv.
  unfold get_inputs, get_listunspent.
  cbv beta iota zeta delta [bind ask ret raise lift Ok Raise negb
                            rpc_validateaddress].
  unfold Ok in Hmine. rewrite Hmine.
  destruct (TESTNET (cfg e)); reflexivity.
Qed.

Lemma transaction_foreign_source_witness :
  transaction (example_source, Some example_destination, Some 20000, 10000,
               example_payload)
    (MsStr key1_sec) false foreign_env []
  = (Raise (NameError "address"), [Validateaddress example_source]).
Proof.
  apply (transaction_foreign_source example_source (Some example_destination)
           (Some 20000) (Some 20000) 10000 example_payload key1_sec
           (chunks example_payload 32) false foreign_env []).
  - reflexivity.
  - vm_compute. reflexivity.
  - reflexivity.
  - reflexivity.
  - reflexivity.
Defined.

(** ** The calls made by a build *)

Lemma get_source_pubkey_trace (source : string) (multisig : multisig_arg)
    (e : env) (t t' : trace) (pk : bytes) :
  get_source_pubkey source multisig e t = (inr pk, t') ->
  t' = t ++ (if negb (is_str multisig)
                && negb (bytes_eqb (PREFIX (cfg e)) (UNITTEST_PREFIX (cfg e)))
             then [Dumpprivkey source] else []).
Proof.
  unfold get_source_pubkey. intros H.
  bind_inv H as e0 t0 He. apply ask_ok in He. destruct He as [-> ->].
  destruct multisig as [b|m]; cbn [is_str negb andb].
  - bind_inv H as wif t1 Hw. bind_inv H as testnet t2 Ht. lift_inv H.
    assert (t2 = t1) as ->.
    { destruct wif; [discriminate|]. apply ret_ok in Ht. now destruct Ht. }
    destruct (bytes_eqb (PREFIX (cfg e)) (UNITTEST_PREFIX (cfg e)));
      cbn [negb].
    + apply ret_ok in Hw. destruct Hw as [_ ->]. now rewrite app_nil_r.
    + unfold rpc_dumpprivkey in Hw. now inversion Hw.
  - lift_inv H. now rewrite app_nil_r.
Qed.

Lemma data_script_trace (data_chunk : bytes) (source : string)
    (multisig : multisig_arg) (e : env) (t t' : trace) (script : bytes) :
  data_script data_chunk source multisig e t = (inr script, t') ->
  t' = t ++ (if wallet_key (cfg e) multisig then [Dumpprivkey source] else []).
Proof.
  unfold data_script, wallet_key. intros H.
  destruct (truthy_multisig multisig); cbn [andb].
  - bind_inv H as pk t1 Hpk. apply get_source_pubkey_trace in Hpk.
    minv. reflexivity.
  - minv. now rewrite app_nil_r.
Qed.

Lemma serialise_data_trace (data_array : list bytes) (value : Z)
    (source : string) (multisig : multisig_arg) (s s' : bytes)
    (e : env) (t t' : trace) :
  serialise_data data_array value source multisig s e t = (inr s', t') ->
  t' = t ++ (if wallet_key (cfg e) multisig
             then repeat (Dumpprivkey source) (length data_array) else []).
Proof.
  revert s t. induction data_array as [|ch data_array IH]; intros s t;
    cbn [serialise_data length repeat].
  - intros H. apply ret_ok in H. destruct H as [_ ->].
    destruct (wallet_key _ _); now rewrite app_nil_r.
  - intros H. bind_inv H as v t1 Hv. lift_inv Hv.
    bind_inv H as script t2 Hs. apply data_script_trace in Hs.
    bind_inv H as l t3 Hl. lift_inv Hl.
    apply IH in H. subst t' t2.
    destruct (wallet_key _ _); rewrite <- app_assoc; reflexivity.
Qed.

Lemma serialise_opt_p2pkh_trace (o : option (string * Z)) (s s' : bytes)
    (e : env) (t t' : trace) :
  match o with
  | Some o => serialise_p2pkh o s
  | None => ret s
  end e t = (inr s', t') -> t' = t.
Proof.
  destruct o as [[a v]|]; intros H.
  - apply serialise_p2pkh_ok in H. now destruct H.
  - apply ret_ok in H. now destruct H.
Qed.

(** The calls that a successful [serialise] makes. *)
Lemma serialise_trace (inputs : list coin)
    (destination_output : option (string * Z))
    (data_output : option (list bytes * Z))
    (change_output : option (string * Z))
    (source : string) (multisig : multisig_arg)
    (e : env) (t t' : trace) (tx : bytes) :
  serialise inputs destination_output data_output change_output
    source multisig e t = (inr tx, t') ->
  t' = t ++ (if wallet_key (cfg e) multisig
             then repeat (Dumpprivkey source)
                    (length (match data_output with
                             | Some (data_array, _) => data_array
                             | None => []
                             end))
             else []).
Proof.
  unfold serialise. intros H.
  bind_inv H as s0 t0 Hver. lift_inv Hver.
  bind_inv H as l0 t0 Hnin. lift_inv Hnin.
  bind_inv H as head t0 Hin. lift_inv Hin.
  destruct data_output as [[data_array value]|]; cbv beta iota zeta in H.
  - bind_inv H as nb t0 Hnb. lift_inv Hnb.
    bind_inv H as s1 t1 Hd. bind_inv H as s2 t2 Hda. bind_inv H as s3 t3 Hc.
    bind_inv H as lk t4 Hlk. lift_inv Hlk.
    apply ret_ok in H. destruct H as [_ ->].
    apply serialise_opt_p2pkh_trace in Hd, Hc. subst t1 t3.
    now apply serialise_data_trace in Hda.
  - bind_inv H as nb t0 Hnb. lift_inv Hnb.
    bind_inv H as s1 t1 Hd. bind_inv H as s2 t2 Hda. bind_inv H as s3 t3 Hc.
    bind_inv H as lk t4 Hlk. lift_inv Hlk.
    apply ret_ok in H. destruct H as [_ ->].
    apply serialise_opt_p2pkh_trace in Hd, Hc. subst t1 t3.
    apply ret_ok in Hda. destruct Hda as [_ ->].
    cbn [length repeat]. destruct (wallet_key _ _); now rewrite app_nil_r.
Qed.

Lemma get_listunspent_trace (source : string) (unittest : bool)
    (e : env) (t t' : trace) (l : list coin) :
  get_listunspent source unittest e t = (inr l, t') ->
  t' = t ++ (if unittest then [] else [Validateaddress source; Listunspent]).
Proof.
  unfold get_listunspent. intros H.
  bind_inv H as e0 t0 He. apply ask_ok in He. destruct He as [-> ->].
  destruct unittest; cbn [negb] in H |- *.
  - lift_inv H. now rewrite app_nil_r.
  - bind_inv H as ismine t1 Hi. unfold rpc_validateaddress in Hi.
    inversion Hi; subst; clear Hi.
    destruct ismine.
    + unfold rpc_listunspent in H. inversion H; subst.
      now rewrite <- app_assoc.
    + destruct (TESTNET (cfg e)); discriminate.
Qed.

Lemma check_source_in_wallet_trace (source : string) (multisig : multisig_arg)
    (unittest : bool) (e : env) (t t' : trace) (u : unit) :
  check_source_in_wallet source multisig unittest e t = (inr u, t') ->
  t' = t ++ (if negb unittest && negb (is_str multisig)
             then [Validateaddress source] else []).
Proof.
  unfold check_source_in_wallet.
  destruct (negb unittest && negb (is_str multisig)); intros H.
  - bind_inv H as ismine t1 Hi. unfold rpc_validateaddress in Hi.
    inversion Hi; subst; clear Hi.
    destruct ismine; cbn [negb] in H; [|discriminate].
    apply ret_ok in H. now destruct H.
  - apply ret_ok in H. destruct H as [_ ->]. now rewrite app_nil_r.
Qed.

(** X14.  The calls of [rpc] that a successful build makes, in order:
    unless the run is a unit test, [validateaddress] of the source (not
    when [multisig] is a public key string), then [validateaddress] of the
    source again and [listunspent] from [get_inputs]; then, when the key of
    the source comes from the wallet, one [dumpprivkey] of the source for
    every data chunk. *)
Theorem transaction_rpc_calls (source : string)
    (destination : option string) (btc_amount : option Z) (fee : Z)
    (data : bytes) (multisig : multisig_arg) (unittest : bool)
    (e : env) (t t' : trace) (hex : string) :
  transaction (source, destination, btc_amount, fee, data) multisig unittest e t
  = (Ok hex, t') ->
  exists data_array,
    divide_data data multisig = Ok data_array
    /\ t' = t
            ++ (if unittest_flag (cfg e) unittest then []
                else (if is_str multisig then [] else [Validateaddress source])
                     ++ [Validateaddress source; Listunspent])
            ++ (if wallet_key (cfg e) multisig
                then repeat (Dumpprivkey source) (length data_array)
                else []).
Proof.
  rewrite transaction_eq. cbv zeta.
  destruct (validate_addresses (cfg e) source destination) as [x|[]];
    [discriminate|].
  destruct (check_source_in_wallet source multisig
              (unittest_flag (cfg e) unittest) e t) as [[x|[]] t1] eqn:Hwal;
    [discriminate|].
  destruct (check_dust (cfg e) destination multisig btc_amount)
    as [x|btc_amount']; [discriminate|].
  destruct (divide_data data multisig) as [x|data_array] eqn:Hdiv;
    [discriminate|].
  destruct (get_inputs source _ (unittest_flag (cfg e) unittest) e t1)
    as [[x|[[[|i inputs] tin]|]] t2] eqn:Hget; try discriminate.
  1,3: destruct (UNIT (cfg e) =? 0); discriminate.
  destruct (serialise (i :: inputs) _ _ _ source multisig e t2)
    as [[x|tx] t3] eqn:Hser; [discriminate|].
  intros E. inversion E; subst; clear E.
  exists data_array. split; [reflexivity|].
  apply check_source_in_wallet_trace in Hwal.
  apply get_inputs_ok in Hget. destruct Hget as (lu & Hlu & _).
  apply get_listunspent_trace in Hlu.
  apply serialise_trace in Hser. subst t' t2 t1.
  assert (Hlen : length (match data_output_of data data_array
                                 (data_value_of (cfg e) multisig) with
                         | Some (data_array0, _) => data_array0
                         | None => []
                         end) = length data_array).
  { unfold data_output_of. destruct data as [|x data]; cbn [truthy_bytes].
    - apply divide_data_empty in Hdiv. now subst.
    - reflexivity. }
  rewrite Hlen.
  destruct (unittest_flag (cfg e) unittest); cbn [negb andb];
    destruct (is_str multisig); cbn [negb andb app];
    rewrite <- ?app_assoc; cbn [app]; rewrite ?app_nil_r; reflexivity.
Qed.

Lemma transaction_rpc_calls_witness :
  exists data_array,
    divide_data example_payload (MsBool true) = Ok data_array
    /\ [Validateaddress example_source; Validateaddress example_source;
        Listunspent; Dumpprivkey example_source; Dumpprivkey example_source]
       = [] ++ ([Validateaddress example_source]
                ++ [Validateaddress example_source; Listunspent])
            ++ repeat (Dumpprivkey example_source) (length data_array).
Proof.
  apply (transaction_rpc_calls example_source (Some example_destination)
           (Some 20000) 10000 example_payload (MsBool true) false
           (unlocked_env [example_coin example_source 0 100000] key1_wif)
           [] _ example_tx_hex).
  vm_compute. reflexivity.
Defined.

(** ** Exact funds; the unit-test configuration *)

(** X15.  When the selected coins amount to exactly what is sent, the
    transaction has no change output: its outputs, read back from the
    bytes, are the destination output, if any, and the data outputs. *)
Theorem transaction_exact_funds (source : string)
    (destination : option string) (btc_amount : option Z) (fee : Z)
    (data : bytes) (multisig : multisig_arg) (unittest : bool)
    (e : env) (t t' : trace) (hex : string) :
  transaction (source, destination, btc_amount, fee, data) multisig unittest e t
  = (Ok hex, t') ->
  exists btc_amount' data_array inputs total_btc_in t1 t2
         head nb obs outs_dest outs_data,
    let c := cfg e in
    let total_btc_out :=
      total_to_send c fee multisig data_array destination btc_amount' in
    check_source_in_wallet source multisig (unittest_flag c unittest) e t
    = (Ok tt, t1)
    /\ check_dust c destination multisig btc_amount = Ok btc_amount'
    /\ divide_data data multisig = Ok data_array
    /\ get_inputs source total_btc_out (unittest_flag c unittest) e t1
       = (Ok (Some (inputs, total_btc_in)), t2)
    /\ tx_head inputs = Ok head
    /\ p2pkh_outs c (destination_output_of destination btc_amount') outs_dest
    /\ data_outs multisig
         (data_output_of data data_array (data_value_of c multisig)) outs_data
    /\ (total_btc_in = total_btc_out ->
        hex = hexlify (head ++ nb ++ obs ++ locktime_bytes)
        /\ parse_outputs (nb ++ obs ++ locktime_bytes)
           = Some (outs_dest ++ outs_data, locktime_bytes)).
Proof.
  intros H. apply transaction_ok in H.
  destruct H as (amount' & data_array & inputs & tin & t1 & t2 & head & nb
                 & obs & od & odata & oc & Hval & Hwal & Hdust & Hdiv & Hget
                 & Hhead & Hnb & Hobs & -> & Hod & Hodata & Hoc).
  exists amount', data_array, inputs, tin, t1, t2, head, nb, obs, od, odata.
  cbv zeta. repeat (split; [assumption|]).
  intros Heq. rewrite Heq, Z.sub_diag in Hoc. cbn in Hoc. subst oc.
  rewrite app_nil_r in Hnb, Hobs. split; [reflexivity|].
  apply (parse_outputs_ok _ _ _ _ Hnb Hobs).
Qed.

Lemma transaction_exact_funds_witness :
  exists btc_amount' data_array inputs total_btc_in t1 t2
         head nb obs outs_dest outs_data,
    let c := mainnet_config in
    let total_btc_out :=
      total_to_send c 10000 (MsBool false) data_array
        (Some example_destination) btc_amount' in
    check_source_in_wallet example_source (MsBool false)
      (unittest_flag c false)
      (example_env [example_coin example_source 0 100000]) []
    = (Ok tt, t1)
    /\ check_dust c (Some example_destination) (MsBool false) (Some 90000)
       = Ok btc_amount'
    /\ divide_data [] (MsBool false) = Ok data_array
    /\ get_inputs example_source total_btc_out (unittest_flag c false)
         (example_env [example_coin example_source 0 100000]) t1
       = (Ok (Some (inputs, total_btc_in)), t2)
    /\ tx_head inputs = Ok head
    /\ p2pkh_outs c
         (destination_output_of (Some example_destination) btc_amount')
         outs_dest
    /\ data_outs (MsBool false)
         (data_output_of [] data_array (data_value_of c (MsBool false)))
         outs_data
    /\ (total_btc_in = total_btc_out ->
        example_exact_hex = hexlify (head ++ nb ++ obs ++ locktime_bytes)
        /\ parse_outputs (nb ++ obs ++ locktime_bytes)
           = Some (outs_dest ++ outs_data, locktime_bytes)).
Proof.
  apply (transaction_exact_funds example_source (Some example_destination)
           (Some 90000) 10000 [] (MsBool false) false
           (example_env [example_coin example_source 0 100000]) []
           [Validateaddress example_source; Validateaddress example_source;
            Listunspent]
           example_exact_hex).
  vm_compute. reflexivity.
Defined.

(** The outputs of that build, read back from the bytes: the payment and
    nothing else. *)
Example exact_funds_outputs :
  option_map (fun r => map out_value (fst r))
    (parse_outputs (skipn 96 (bytes_of_hex example_exact_hex)))
  = Some [90000].
Proof. vm_compute. reflexivity. Qed.

(** ** The unit-test configuration *)

Section UnitTest.

Variables e1 e2 : env.
Hypothesis Hcfg : cfg e1 = cfg e2.
Hypothesis Hlib : lib e1 = lib e2.
Hypothesis Hjson : listunspent_test_json e1 = listunspent_test_json e2.
Hypothesis Hprefix :
  bytes_eqb (PREFIX (cfg e1)) (UNITTEST_PREFIX (cfg e1)) = true.

Lemma agree_get_inputs (source : string) (total : Z) :
  agree e1 e2 (get_inputs source total true) (get_inputs source total true).
Proof.
  unfold get_inputs. apply agree_ask. rewrite Hcfg.
  apply agree_bind; [|intros ?; apply agree_lift].
  unfold get_listunspent. apply agree_ask. cbn [negb]. rewrite Hjson.
  apply agree_lift.
Qed.

Lemma agree_serialise (inputs : list coin)
    (destination_output : option (string * Z))
    (data_output : option (list bytes * Z))
    (change_output : option (string * Z))
    (source : string) (multisig : multisig_arg) :
  agree e1 e2
    (serialise inputs destination_output data_output change_output
       source multisig)
    (serialise inputs destination_output data_output change_output
       source multisig).
Proof.
  assert (Hv : ADDRESSVERSION (cfg e1) = ADDRESSVERSION (cfg e2))
    by now rewrite Hcfg.
  assert (Hkey : truthy_multisig multisig = true ->
                 lib e1 = lib e2
                 /\ (is_str multisig = true
                     \/ (bytes_eqb (PREFIX (cfg e1)) (UNITTEST_PREFIX (cfg e1))
                         = true
                         /\ bytes_eqb (PREFIX (cfg e2)) (UNITTEST_PREFIX (cfg e2))
                            = true))).
  { intros _. split; [exact Hlib|]. right. split; [exact Hprefix|].
    rewrite <- Hcfg. exact Hprefix. }
  unfold serialise.
  do 3 (apply agree_bind; [apply agree_lift|intros ?]).
  destruct data_output as [[data_array value]|]; cbv beta iota zeta.
  - apply agree_bind; [apply agree_lift|intros ?].
    apply agree_bind; [apply agree_opt_p2pkh, Hv|intros ?].
    apply agree_bind; [apply agree_serialise_data, Hkey|intros ?].
    apply agree_bind; [apply agree_opt_p2pkh, Hv|intros ?].
    apply agree_bind; [apply agree_lift|intros ?]. apply agree_ret.
  - apply agree_bind; [apply agree_lift|intros ?].
    apply agree_bind; [apply agree_opt_p2pkh, Hv|intros ?].
    apply agree_bind; [apply agree_ret|intros ?].
    apply agree_bind; [apply agree_opt_p2pkh, Hv|intros ?].
    apply agree_bind; [apply agree_lift|intros ?]. apply agree_ret.
Qed.

Lemma agree_transaction (info : tx_info) (multisig : multisig_arg)
    (unittest : bool) :
  agree e1 e2 (transaction info multisig unittest)
              (transaction info multisig unittest).
Proof.
  destruct info as [[[[source destination] btc_amount] fee] data].
  unfold transaction. apply agree_ask. rewrite <- Hcfg.
  unfold unittest_flag. rewrite Hprefix.
  apply agree_bind; [apply agree_lift|intros ?].
  apply agree_bind; [apply agree_ret|intros ?].
  apply agree_bind; [apply agree_lift|intros btc_amount'].
  apply agree_bind; [apply agree_lift|intros data_array].
  apply agree_bind; [apply agree_get_inputs|intros r].
  destruct r as [[[|i inputs] tin]|].
  - destruct (UNIT (cfg e1) =? 0); apply agree_raise.
  - apply agree_bind; [apply agree_serialise|intros ?]. apply agree_ret.
  - destruct (UNIT (cfg e1) =? 0); apply agree_raise.
Qed.

End UnitTest.

(** X16.  In the unit-test configuration ([config.PREFIX] is
    [config.UNITTEST_PREFIX]) a build never calls bitcoind, whether it
    succeeds or fails, and its result depends only on its arguments, the
    configuration, pycoin and the coins of the test file: two runs that
    agree on these give the same result, whatever bitcoind is. *)
Theorem transaction_unittest_pure (info : tx_info) (multisig : multisig_arg)
    (unittest : bool) (e1 e2 : env) (t1 t2 : trace) :
  cfg e1 = cfg e2 ->
  lib e1 = lib e2 ->
  listunspent_test_json e1 = listunspent_test_json e2 ->
  PREFIX (cfg e1) = UNITTEST_PREFIX (cfg e1) ->
  exists r,
    transaction info multisig unittest e1 t1 = (r, t1)
    /\ transaction info multisig unittest e2 t2 = (r, t2).
Proof.
  intros Hcfg Hlib Hjson Hprefix.
  apply (agree_transaction e1 e2 Hcfg Hlib Hjson).
  rewrite Hprefix. apply bytes_eqb_refl.
Qed.

Lemma transaction_unittest_pure_witness :
  exists r,
    transaction (example_source, Some example_destination, Some 20000, 10000,
                 example_payload)
      (MsBool true) false (unittest_env (wallet_node [])) [] = (r, [])
    /\ transaction (example_source, Some example_destination, Some 20000, 10000,
                    example_payload)
         (MsBool true) false (unittest_env foreign_node) [Listunspent]
       = (r, [Listunspent]).
Proof.
  apply (transaction_unittest_pure
           (example_source, Some example_destination, Some 20000, 10000,
            example_payload)
           (MsBool true) false (unittest_env (wallet_node []))
           (unittest_env foreign_node) [] [Listunspent]);
    reflexivity.
Defined.

(** In the unit-test configuration the example is built from the coins of
    the test file, without bitcoind. *)
Example unittest_build :
  exists hex,
    transaction (example_source, Some example_destination, Some 20000, 10000,
                 example_payload)
      (MsBool true) false (unittest_env foreign_node) [] = (Ok hex, []).
Proof. eexists. vm_compute. reflexivity. Qed.

(** ** The coins selected *)

(** X17.  [get_inputs] never selects a coin of another address: every
    coin it returns is in the list it got (from bitcoind or from the test
    file) and has the source as its address. *)
Theorem get_inputs_own_coins (source : string) (total : Z) (unittest : bool)
    (e : env) (t t' : trace) (inputs : list coin) (total_btc_in : Z) :
  get_inputs source total unittest e t
  = (Ok (Some (inputs, total_btc_in)), t') ->
  exists listunspent,
    get_listunspent source unittest e t = (Ok listunspent, t')
    /\ Forall (fun x => address x = source /\ In x listunspent) inputs.
Proof.
  intros H. apply get_inputs_ok in H.
  destruct H as (listunspent & Hl & ((r & Hpre) & _)).
  exists listunspent. split; [exact Hl|].
  apply Forall_forall. intros x Hx.
  assert (Hin : In x (owned_by source listunspent)).
  { rewrite Hpre. apply in_or_app. now left. }
  unfold owned_by in Hin. apply filter_In in Hin. destruct Hin as [Hin Ha].
  split; [now apply String.eqb_eq|exact Hin].
Qed.

Lemma get_inputs_own_coins_witness :
  exists listunspent,
    get_listunspent example_source false (example_env example_coins) []
    = (Ok listunspent, [Validateaddress example_source; Listunspent])
    /\ Forall (fun x => address x = example_source /\ In x listunspent)
         [example_coin example_source 0 50000;
          example_coin example_source 2 70000].
Proof.
  apply (get_inputs_own_coins example_source 100000 false
           (example_env example_coins) [] _ _ 120000).
  vm_compute. reflexivity.
Defined.

(** ** Data outputs and whole transactions read back *)

Lemma app_inv_length {A} (a c b d : list A) :
  length a = length c -> a ++ b = c ++ d -> a = c /\ b = d.
Proof.
  revert c. induction a as [|x a IH]; intros [|y c] Hl E; try discriminate.
  - auto.
  - cbn in E. inversion E; subst. destruct (IH c) as [-> ->]; auto.
Qed.

Lemma data_pubkey_of_inj (c1 c2 : bytes) :
  (length c1 <= 32)%nat -> (length c2 <= 32)%nat ->
  data_pubkey_of c1 = data_pubkey_of c2 -> c1 = c2.
Proof.
  unfold data_pubkey_of. intros H1 H2 E.
  pose proof (f_equal (hd x00) E) as Hb. cbn [app hd] in Hb.
  pose proof (f_equal (@tl byte) E) as Hr. cbn [app tl] in Hr.
  assert (Hlen : length c1 = length c2).
  { apply (f_equal Z_of_byte) in Hb. rewrite !Z_of_byte_of_Z in Hb.
    rewrite !Z.mod_small in Hb by lia. lia. }
  now apply app_inv_length in Hr.
Qed.

Lemma embeds_injective (m1 m2 : multisig_arg) (v1 v2 : Z) (c1 c2 : bytes)
    (o : txout) :
  embeds m1 v1 c1 o -> embeds m2 v2 c2 o -> c1 = c2.
Proof.
  unfold embeds. intros [_ H1] [_ H2].
  destruct (truthy_multisig m1), (truthy_multisig m2).
  - destruct H1 as (L1 & pk1 & p1 & Hp1 & E1).
    destruct H2 as (L2 & pk2 & p2 & Hp2 & E2).
    rewrite E1 in E2. unfold multisig_script in E2.
    apply app_inv_head in E2.
    pose proof (parse_op_push_ok _ _
                  (pk1 ++ [x21] ++ data_pubkey_of c1 ++ OP_2 ++ OP_CHECKMULTISIG)
                  Hp1) as P1.
    pose proof (parse_op_push_ok _ _
                  (pk2 ++ [x21] ++ data_pubkey_of c2 ++ OP_2 ++ OP_CHECKMULTISIG)
                  Hp2) as P2.
    rewrite E2, P2 in P1.
    assert (Hl : Z.of_nat (length pk2) = Z.of_nat (length pk1))
      by (now apply (f_equal (option_map fst)) in P1; inversion P1).
    assert (Hr : pk2 ++ [x21] ++ data_pubkey_of c2 ++ OP_2 ++ OP_CHECKMULTISIG
                 = pk1 ++ [x21] ++ data_pubkey_of c1 ++ OP_2 ++ OP_CHECKMULTISIG)
      by (now apply (f_equal (option_map snd)) in P1; inversion P1).
    apply app_inv_length in Hr; [|lia]. destruct Hr as [_ Hr].
    apply app_inv_head in Hr. apply app_inv_tail in Hr.
    symmetry. now apply data_pubkey_of_inj.
  - destruct H1 as (_ & pk1 & p1 & _ & E1). destruct H2 as (p2 & _ & E2).
    rewrite E1 in E2. discriminate.
  - destruct H2 as (_ & pk2 & p2 & _ & E2). destruct H1 as (p1 & _ & E1).
    rewrite E1 in E2. discriminate.
  - destruct H1 as (p1 & Hp1 & E1). destruct H2 as (p2 & Hp2 & E2).
    rewrite E1 in E2. unfold op_return_script in E2.
    apply app_inv_head in E2.
    pose proof (parse_op_push_ok _ _ c1 Hp1) as P1.
    pose proof (parse_op_push_ok _ _ c2 Hp2) as P2.
    rewrite E2, P2 in P1. now inversion P1.
Qed.

Lemma embeds_all_injective (m1 m2 : multisig_arg) (v1 v2 : Z)
    (a1 a2 : list bytes) (outs : list txout) :
  Forall2 (embeds m1 v1) a1 outs -> Forall2 (embeds m2 v2) a2 outs -> a1 = a2.
Proof.
  intros H1. revert a2. induction H1 as [|c1 o a1 outs Hc _ IH]; intros a2 H2.
  - now inversion H2.
  - inversion H2 as [|c2 ? a2' ? Hc2 Hr]; subst.
    f_equal; [exact (embeds_injective _ _ _ _ _ _ _ Hc Hc2)|now apply IH].
Qed.

Lemma txout_bytes_length (o : txout) (b : bytes) :
  txout_bytes o = Ok b -> (8 <= length b)%nat.
Proof.
  unfold txout_bytes.
  destruct (to_bytes 8 (out_value o)) as [x|v] eqn:Ev; [discriminate|].
  destruct (var_int _) as [x|l]; [discriminate|].
  cbn [rbind]. intros E. apply Ok_inj in E. subst b.
  apply to_bytes_ok in Ev. rewrite length_app. lia.
Qed.

Lemma txouts_bytes_inj (l1 l2 : list txout) (b : bytes) :
  txouts_bytes l1 = Ok b -> txouts_bytes l2 = Ok b -> l1 = l2.
Proof.
  revert l2 b. induction l1 as [|o1 l1 IH]; intros [|o2 l2] b;
    cbn [txouts_bytes].
  - reflexivity.
  - intros E1. apply Ok_inj in E1. subst b.
    destruct (txout_bytes o2) as [x|b2] eqn:E2; [discriminate|].
    destruct (txouts_bytes l2) as [x|r2]; [discriminate|].
    cbn [rbind]. intros E. apply Ok_inj in E.
    apply txout_bytes_length in E2. apply (f_equal (@length byte)) in E.
    rewrite length_app in E. cbn [length] in E. lia.
  - destruct (txout_bytes o1) as [x|b1] eqn:E1; [discriminate|].
    destruct (txouts_bytes l1) as [x|r1]; [discriminate|].
    cbn [rbind]. intros E E'. apply Ok_inj in E, E'. rewrite <- E' in E.
    apply txout_bytes_length in E1. apply (f_equal (@length byte)) in E.
    rewrite length_app in E. cbn [length] in E. lia.
  - destruct (txout_bytes o1) as [x|b1] eqn:E1; [discriminate|].
    destruct (txouts_bytes l1) as [x|r1] eqn:R1; [discriminate|].
    destruct (txout_bytes o2) as [x|b2] eqn:E2; [discriminate|].
    destruct (txouts_bytes l2) as [x|r2] eqn:R2; [discriminate|].
    cbn [rbind]. intros E E'. apply Ok_inj in E, E'. rewrite <- E' in E.
    pose proof (parse_txout_ok _ _ r1 E1) as P1.
    pose proof (parse_txout_ok _ _ r2 E2) as P2.
    rewrite <- E, P1 in P2. inversion P2; subst.
    f_equal. now apply (IH l2 r2).
Qed.

(** X18.  The data outputs can be decoded in one way only: two lists of
    chunks that [serialise] writes, after the same bytes, as the same bytes
    are equal, whatever the values, the sources, the [multisig] arguments
    and the surroundings of the two runs. *)
Theorem serialise_data_injective (a1 a2 : list bytes) (v1 v2 : Z)
    (source1 source2 : string) (m1 m2 : multisig_arg) (s0 s : bytes)
    (e1 e2 : env) (t1 t1' t2 t2' : trace) :
  serialise_data a1 v1 source1 m1 s0 e1 t1 = (Ok s, t1') ->
  serialise_data a2 v2 source2 m2 s0 e2 t2 = (Ok s, t2') ->
  a1 = a2.
Proof.
  intros H1 H2.
  apply serialise_data_ok in H1, H2.
  destruct H1 as (o1 & b1 & F1 & B1 & E1).
  destruct H2 as (o2 & b2 & F2 & B2 & E2).
  rewrite E1 in E2. apply app_inv_head in E2. subst b2.
  rewrite (txouts_bytes_inj _ _ _ B1 B2) in F1.
  exact (embeds_all_injective _ _ _ _ _ _ _ F1 F2).
Qed.

Lemma serialise_data_injective_witness :
  [str_encode "0123456789"] = [str_encode "0123456789"].
Proof.
  apply (serialise_data_injective
           [str_encode "0123456789"] [str_encode "0123456789"] 0 0
           example_source example_destination (MsBool false) (MsStr "")
           [] (bytes_of_hex "00000000000000000c6a0a30313233343536373839")
           (example_env []) foreign_env [] [] [Listunspent] [Listunspent]);
    vm_compute; reflexivity.
Defined.

(** ** A transaction read back from its bytes *)

Lemma unhexlify_chars_length (l : list ascii) (b : bytes) :
  unhexlify_chars l = Some b -> length l = (2 * length b)%nat.
Proof.
  assert (H : forall n l b, (length l <= n)%nat ->
                unhexlify_chars l = Some b -> length l = (2 * length b)%nat).
  { clear. induction n as [|n IH]; intros l b Hn.
    - destruct l; [|cbn in Hn; lia]. intros E. inversion E. reflexivity.
    - destruct l as [|c1 [|c2 l]]; cbn [unhexlify_chars].
      + intros E. inversion E. reflexivity.
      + discriminate.
      + destruct (hex_val c1), (hex_val c2); try discriminate.
        destruct (unhexlify_chars l) as [r|] eqn:Er; [|discriminate].
        intros E. inversion E; subst. cbn [length] in *.
        rewrite (IH l r); [lia|lia|exact Er]. }
  apply (H (length l)). lia.
Qed.

Lemma string_length_list (s : string) :
  length (list_ascii_of_string s) = String.length s.
Proof. induction s as [|c s IH]; cbn; [reflexivity|now rewrite IH]. Qed.

Lemma serialise_input_parse (c : coin) (s s' : bytes) :
  serialise_input c s = Ok s' ->
  String.length (txid c) = 64%nat ->
  exists b, s' = s ++ b
            /\ forall rest, parse_txin (b ++ rest) = Some (txin_of c, rest).
Proof.
  unfold serialise_input. intros H Hlen.
  destruct (unhexlify (txid c)) as [x|h] eqn:Eh; [discriminate|].
  cbn [rbind] in H.
  destruct (to_bytes 4 (vout c)) as [x|v] eqn:Ev; [discriminate|].
  cbn [rbind] in H.
  destruct (var_int (Z.of_nat (length (str_encode (scriptPubKey c)))))
    as [x|l] eqn:El; [discriminate|].
  cbn [rbind] in H. apply Ok_inj in H. subst s'.
  assert (Hh : length (rev h) = 32%nat).
  { rewrite length_rev. unfold unhexlify in Eh.
    destruct (unhexlify_chars (list_ascii_of_string (txid c))) as [b|] eqn:Eb;
      [|discriminate].
    apply Ok_inj in Eh. subst b. apply unhexlify_chars_length in Eb.
    rewrite string_length_list in Eb. lia. }
  destruct (to_bytes_ok _ _ _ Ev) as (_ & Hvl & Hvv).
  exists (rev h ++ v ++ l ++ str_encode (scriptPubKey c) ++ bytes_mul [xff] 4).
  split; [now rewrite <- !app_assoc|].
  intros rest. unfold parse_txin. rewrite <- !app_assoc.
  rewrite <- Hh at 1. rewrite take_app.
  rewrite <- Hvl at 1. rewrite take_app.
  rewrite (parse_var_int_ok _ _ _ El), Nat2Z.id, take_app.
  change (bytes_mul [xff] 4 ++ rest) with ([xff; xff; xff; xff] ++ rest).
  change 4%nat with (length [xff; xff; xff; xff]) at 1. rewrite take_app.
  unfold txin_of, bytes_of_hex. rewrite Eh, Hvv. reflexivity.
Qed.

Lemma serialise_inputs_parse (inputs : list coin) (s s' : bytes) :
  serialise_inputs inputs s = Ok s' ->
  Forall (fun c => String.length (txid c) = 64%nat) inputs ->
  exists b, s' = s ++ b
            /\ forall rest, parse_txins (length inputs) (b ++ rest)
                            = Some (map txin_of inputs, rest).
Proof.
  revert s. induction inputs as [|c inputs IH]; intros s H Hall;
    cbn [serialise_inputs] in H.
  - apply Ok_inj in H. subst s'. exists []. split; [now rewrite app_nil_r|].
    reflexivity.
  - destruct (serialise_input c s) as [x|s1] eqn:E1; [discriminate|].
    cbn [rbind] in H. inversion Hall as [|? ? Hc Hr]; subst.
    destruct (serialise_input_parse _ _ _ E1 Hc) as (b1 & -> & P1).
    destruct (IH _ H Hr) as (b2 & -> & P2).
    exists (b1 ++ b2). split; [now rewrite app_assoc|].
    intros rest. cbn [length parse_txins map]. rewrite <- app_assoc.
    now rewrite P1, P2.
Qed.

(** X19.  The bytes that [serialise] returns, for coins whose [txid] has 64
    characters, read back as a whole transaction: version 1; one input per
    coin, in order, made of the bytes of the [txid] reversed, the index
    [vout], the characters of [scriptPubKey] as the script and the sequence
    [0xffffffff]; the destination, data and change outputs; lock time 0;
    and nothing after. *)
Theorem serialise_parse (inputs : list coin)
    (destination_output : option (string * Z))
    (data_output : option (list bytes * Z))
    (change_output : option (string * Z))
    (source : string) (multisig : multisig_arg)
    (e : env) (t t' : trace) (raw : bytes) :
  serialise inputs destination_output data_output change_output
    source multisig e t = (Ok raw, t') ->
  Forall (fun c => String.length (txid c) = 64%nat) inputs ->
  exists outs_dest outs_data outs_change,
    parse_tx raw
    = Some (mkParsedTx 1 (map txin_of inputs)
                 (outs_dest ++ outs_data ++ outs_change) 0)
    /\ p2pkh_outs (cfg e) destination_output outs_dest
    /\ data_outs multisig data_output outs_data
    /\ p2pkh_outs (cfg e) change_output outs_change.
Proof.
  intros H Hall. apply serialise_ok in H.
  destruct H as (head & nb & obs & od & odata & oc & Hhead & Hnb & Hobs & ->
                 & Hod & Hodata & Hoc).
  exists od, odata, oc. split; [|auto].
  unfold tx_head in Hhead. change (to_bytes 4 1) with (Ok [x01; x00; x00; x00])
    in Hhead. cbn [rbind Ok] in Hhead.
  destruct (var_int (Z.of_nat (length inputs))) as [x|l] eqn:El;
    [discriminate|]. cbn [rbind] in Hhead.
  destruct (serialise_inputs_parse _ _ _ Hhead Hall) as (b & -> & Pin).
  unfold parse_tx. rewrite <- !app_assoc.
  change ([x01; x00; x00; x00] ++ ?r) with (x01 :: x00 :: x00 :: x00 :: r).
  cbn [take length Nat.leb firstn skipn].
  rewrite (parse_var_int_ok _ _ _ El), Nat2Z.id, Pin.
  rewrite (parse_outputs_ok _ _ _ _ Hnb Hobs).
  reflexivity.
Qed.

Lemma serialise_parse_witness :
  exists outs_dest outs_data outs_change,
    parse_tx (bytes_of_hex example_exact_hex)
    = Some (mkParsedTx 1 (map txin_of [example_coin example_source 0 100000])
                 (outs_dest ++ outs_data ++ outs_change) 0)
    /\ p2pkh_outs (cfg (example_env [])) (Some (example_destination, 90000))
         outs_dest
    /\ data_outs (MsBool false) None outs_data
    /\ p2pkh_outs (cfg (example_env [])) None outs_change.
Proof.
  apply (serialise_parse [example_coin example_source 0 100000]
           (Some (example_destination, 90000)) None None example_source
           (MsBool false) (example_env []) [] []
           (bytes_of_hex example_exact_hex)).
  - vm_compute. reflexivity.
  - repeat constructor.
Defined.

(** ** The transaction hash of blockchain.info *)

Lemma flip_pairs_app (x y : list ascii) :
  Nat.even (length x) = true ->
  flip_pairs (x ++ y) = flip_pairs x ++ flip_pairs y.
Proof.
  assert (H : forall n x, (length x <= n)%nat -> Nat.even (length x) = true ->
                flip_pairs (x ++ y) = flip_pairs x ++ flip_pairs y).
  { clear x. induction n as [|n IH]; intros x Hn He.
    - destruct x; [reflexivity|cbn in Hn; lia].
    - destruct x as [|a [|b x]]; [reflexivity|discriminate|].
      cbn [app flip_pairs length] in *. rewrite (IH x); [reflexivity|lia|].
      exact He. }
  apply (H (length x)). lia.
Qed.

Lemma unhexlify_chars_app (x y : list ascii) (bx by_ : bytes) :
  unhexlify_chars x = Some bx -> unhexlify_chars y = Some by_ ->
  unhexlify_chars (x ++ y) = Some (bx ++ by_).
Proof.
  assert (H : forall n x bx, (length x <= n)%nat ->
                unhexlify_chars x = Some bx -> unhexlify_chars y = Some by_ ->
                unhexlify_chars (x ++ y) = Some (bx ++ by_)).
  { clear x bx. induction n as [|n IH]; intros x bx Hn Hx Hy.
    - destruct x; [|cbn in Hn; lia]. inversion Hx. exact Hy.
    - destruct x as [|a [|b x]]; cbn [unhexlify_chars app] in *.
      + inversion Hx. exact Hy.
      + discriminate.
      + destruct (hex_val a), (hex_val b); try discriminate.
        destruct (unhexlify_chars x) as [r|] eqn:Er; [|discriminate].
        injection Hx as <-. cbn [length] in Hn.
        rewrite (IH x r ltac:(lia) Er Hy). reflexivity. }
  apply (H (length x)). lia.
Qed.

Lemma even_double (n : nat) : Nat.even (2 * n) = true.
Proof. rewrite Nat.even_mul. reflexivity. Qed.

(** Reversing the characters and flipping the pairs reverses the bytes. *)
Lemma flip_pairs_rev_bytes (l : list ascii) (b : bytes) :
  unhexlify_chars l = Some b ->
  unhexlify_chars (flip_pairs (rev l)) = Some (rev b)
  /\ flip_pairs (rev (flip_pairs (rev l))) = l.
Proof.
  assert (H : forall n l b, (length l <= n)%nat ->
                unhexlify_chars l = Some b ->
                unhexlify_chars (flip_pairs (rev l)) = Some (rev b)
                /\ flip_pairs (rev (flip_pairs (rev l))) = l).
  { clear. induction n as [|n IH]; intros l b Hn Hl.
    - destruct l; [|cbn in Hn; lia]. inversion Hl. split; reflexivity.
    - destruct l as [|c1 [|c2 l]]; cbn [unhexlify_chars] in Hl.
      + inversion Hl. split; reflexivity.
      + discriminate.
      + destruct (hex_val c1) as [h1|] eqn:E1; [|discriminate].
        destruct (hex_val c2) as [h2|] eqn:E2; [|discriminate].
        destruct (unhexlify_chars l) as [r|] eqn:Er; [|discriminate].
        injection Hl as <-. cbn [length] in Hn.
        destruct (IH l r ltac:(lia) Er) as [IH1 IH2].
        pose proof (unhexlify_chars_length _ _ Er) as Hlen.
        assert (Hev : Nat.even (length (rev l)) = true)
          by (rewrite length_rev, Hlen; apply even_double).
        cbn [rev]. rewrite <- app_assoc. cbn [app].
        rewrite flip_pairs_app by exact Hev. cbn [flip_pairs].
        split.
        * apply unhexlify_chars_app; [exact IH1|].
          cbn [unhexlify_chars]. now rewrite E1, E2.
        * rewrite rev_app_distr. cbn [rev app flip_pairs]. now rewrite IH2. }
  apply (H (length l)). lia.
Qed.

(** X20.  The [txid] that [get_unspent_txouts] makes of the [tx_hash] of
    blockchain.info (the string reversed, then its pairs of characters
    flipped) is, for a hexadecimal string, the same bytes in reverse order;
    doing it twice gives the string back. *)
Theorem blockchain_txid_reverses_bytes (tx_hash : string) (b : bytes) :
  unhexlify tx_hash = Ok b ->
  unhexlify (blockchain_txid tx_hash) = Ok (rev b)
  /\ blockchain_txid (blockchain_txid tx_hash) = tx_hash.
Proof.
  unfold unhexlify, blockchain_txid.
  destruct (unhexlify_chars (list_ascii_of_string tx_hash)) as [b'|] eqn:E;
    [|discriminate].
  intros H. apply Ok_inj in H. subst b'.
  destruct (flip_pairs_rev_bytes _ _ E) as [H1 H2].
  rewrite !list_ascii_of_string_of_list_ascii, H1, H2.
  split; [reflexivity|apply string_of_list_ascii_of_string].
Qed.

Lemma blockchain_txid_reverses_bytes_witness :
  unhexlify (blockchain_txid "c1d8c075") = Ok (rev [xc1; xd8; xc0; x75])
  /\ blockchain_txid (blockchain_txid "c1d8c075") = "c1d8c075"%string.
Proof.
  apply (blockchain_txid_reverses_bytes "c1d8c075" [xc1; xd8; xc0; x75]).
  reflexivity.
Defined.

(** ** [connect], [rpc], [transmit] *)

Lemma posts_app (l1 l2 : list Rpc.event) :
  Rpc.posts (l1 ++ l2) = Rpc.posts l1 ++ Rpc.posts l2.
Proof.
  induction l1 as [|ev l1 IH]; [reflexivity|].
  destruct ev; cbn [app Rpc.posts]; now rewrite IH.
Qed.

Lemma slept_app (l1 l2 : list Rpc.event) :
  Rpc.slept (l1 ++ l2) = Rpc.slept l1 + Rpc.slept l2.
Proof.
  induction l1 as [|ev l1 IH]; [reflexivity|].
  destruct ev; cbn [app Rpc.slept]; rewrite IH; lia.
Qed.

(** What one run of the loop of [connect] does: the requests posted are
    all the same, one more than the naps of five seconds. *)
Lemma connect_loop_spec (n i : nat) (req : Rpc.request)
    (s : Rpc.surroundings) (t t' : list Rpc.event)
    (r : Rpc.exn + option Rpc.response) :
  Rpc.connect_loop n i req s t = (r, t') ->
  exists l,
    t' = t ++ l
    /\ Forall (eq req) (Rpc.posts l)
    /\ (length (Rpc.posts l) <= n)%nat
    /\ match r with
       | inr None =>
           length (Rpc.posts l) = n
           /\ Rpc.slept l = 5 * Z.of_nat n
       | _ =>
           (1 <= length (Rpc.posts l))%nat
           /\ Rpc.slept l = 5 * (Z.of_nat (length (Rpc.posts l)) - 1)
       end.
Proof.
  revert i t. induction n as [|n IH]; intros i t; cbn [Rpc.connect_loop].
  - intros H. inversion H; subst. exists []. rewrite app_nil_r.
    repeat split; constructor.
  - unfold Rpc.bind at 1. unfold Rpc.post at 1.
    destruct (Rpc.bitcoind_answer s t req) as [resp| |msg].
    + unfold Rpc.bind, Rpc.ret.
      destruct (0 <? i)%nat; cbn [Rpc.emit].
      * intros H. inversion H; subst.
        exists [Rpc.Post req; Rpc.Stderr "Successfully connected."].
        rewrite <- app_assoc. cbn. repeat split; try lia. repeat constructor.
      * intros H. inversion H; subst. exists [Rpc.Post req].
        cbn. repeat split; try lia. repeat constructor.
    + unfold Rpc.bind at 1. cbn [Rpc.emit]. unfold Rpc.bind at 1.
      cbn [Rpc.emit]. intros H. apply IH in H.
      destruct H as (l & -> & Hall & Hlen & Hr).
      eexists (Rpc.Post req :: Rpc.Stderr _ :: Rpc.Sleep 5 :: l).
      split; [now rewrite <- !app_assoc|].
      cbn [Rpc.posts Rpc.slept length]. split; [now constructor|].
      split; [lia|].
      destruct r as [x|[resp|]]; destruct Hr as [H1 H2]; split; lia.
    + unfold Rpc.raise. intros H. inversion H; subst. exists [Rpc.Post req].
      cbn. repeat split; try lia. repeat constructor.
Qed.

Lemma connect_posts (req : Rpc.request) (s : Rpc.surroundings)
    (t t' : list Rpc.event) (r : Rpc.exn + option Rpc.response) :
  Rpc.connect req s t = (r, t') ->
  exists l, t' = t ++ l /\ Forall (eq req) (Rpc.posts l).
Proof.
  unfold Rpc.connect. intros H. apply connect_loop_spec in H.
  destruct H as (l & Ht & Hall & _).
  destruct (existsb Rpc.is_new_session t).
  - now exists l.
  - exists (Rpc.NewSession :: l). rewrite <- app_assoc in Ht. now split.
Qed.

(** X21.  [connect] posts the same request at most twelve times and sleeps
    five seconds after each refused connection: when it returns a response,
    or stops on another exception, it has slept five seconds for every
    request but the last; it returns [None] exactly after twelve refused
    connections and a minute of sleep. *)
Theorem connect_bounded (req : Rpc.request) (s : Rpc.surroundings)
    (t t' : list Rpc.event) (r : Rpc.exn + option Rpc.response) :
  Rpc.connect req s t = (r, t') ->
  exists l,
    t' = t ++ l
    /\ Forall (eq req) (Rpc.posts l)
    /\ (length (Rpc.posts l) <= 12)%nat
    /\ match r with
       | inr None => length (Rpc.posts l) = 12%nat /\ Rpc.slept l = 60
       | _ =>
           (1 <= length (Rpc.posts l))%nat
           /\ Rpc.slept l = 5 * (Z.of_nat (length (Rpc.posts l)) - 1)
       end.
Proof.
  unfold Rpc.connect. intros H. apply connect_loop_spec in H.
  destruct H as (l & Ht & Hall & Hlen & Hr).
  destruct (existsb Rpc.is_new_session t).
  - exists l. repeat split; try assumption.
  - exists (Rpc.NewSession :: l). rewrite <- app_assoc in Ht. cbn [app] in Ht.
    cbn [Rpc.posts Rpc.slept]. repeat split; try assumption.
Qed.

Lemma connect_bounded_witness :
  exists l,
    [Rpc.NewSession;
     Rpc.Post (Rpc.mkRequest "http://localhost:8332" "getblockcount" [])]
    = [] ++ l
    /\ Forall (eq (Rpc.mkRequest "http://localhost:8332" "getblockcount" []))
         (Rpc.posts l)
    /\ (length (Rpc.posts l) <= 12)%nat
    /\ (1 <= length (Rpc.posts l))%nat
    /\ Rpc.slept l = 5 * (Z.of_nat (length (Rpc.posts l)) - 1).
Proof.
  apply (connect_bounded
           (Rpc.mkRequest "http://localhost:8332" "getblockcount" [])
           (Rpc.constant_bitcoind
              (Rpc.Answered (Rpc.ok_response Rpc.example_result)))
           [] _ (inr (Some (Rpc.ok_response Rpc.example_result)))).
  reflexivity.
Defined.

(** Bitcoind refuses every connection: [connect] gives up after twelve
    requests and a minute of sleep. *)
Example connect_gives_up :
  exists l,
    Rpc.connect (Rpc.mkRequest "http://localhost:8332" "getblockcount" [])
      (Rpc.constant_bitcoind Rpc.Refused) []
    = (inr None, l)
    /\ length (Rpc.posts l) = 12%nat /\ Rpc.slept l = 60.
Proof. eexists. split; [vm_compute; reflexivity|]. split; reflexivity. Qed.

Lemma rpc_bind_ok {A B} (m : Rpc.R A) (k : A -> Rpc.R B)
    (s : Rpc.surroundings) (t t' : list Rpc.event) (b : B) :
  Rpc.bind m k s t = (inr b, t') ->
  exists a t1, m s t = (inr a, t1) /\ k a s t1 = (inr b, t').
Proof.
  unfold Rpc.bind. destruct (m s t) as [[x|a] t1]; [discriminate|].
  intros H. now exists a, t1.
Qed.

Lemma rpc_lift_ok {A} (r : Rpc.exn + A) (s : Rpc.surroundings)
    (t t' : list Rpc.event) (a : A) :
  Rpc.lift r s t = (inr a, t') -> r = inr a /\ t' = t.
Proof. unfold Rpc.lift. intros H. inversion H. auto. Qed.

(** X22.  [rpc] returns a value only in one case: [connect] got a response,
    its status is 200 or 500, its JSON is an object whose ["error"] is
    absent or null, and the value is its ["result"].  Nothing is posted
    after that response: in particular no call of [rpc] that ends in the
    error handling returns. *)
Theorem rpc_returns (fuel : nat) (method : string) (params : list Rpc.json)
    (s : Rpc.surroundings) (t t' : list Rpc.event) (v : Rpc.json) :
  Rpc.rpc fuel method params s t = (inr v, t') ->
  exists resp d,
    Rpc.connect (Rpc.mkRequest (Rpc.BITCOIND_RPC s) method params) s t
    = (inr (Some resp), t')
    /\ (Rpc.status_code resp = 200 \/ Rpc.status_code resp = 500)
    /\ Rpc.body resp = Some (Rpc.JDict d)
    /\ (Rpc.lookup "error" d = None \/ Rpc.lookup "error" d = Some Rpc.JNull)
    /\ Rpc.lookup "result" d = Some v.
Proof.
  destruct fuel as [|fuel]; [discriminate|].
  cbn [Rpc.rpc]. intros H.
  apply rpc_bind_ok in H. destruct H as (s0 & t0 & Hs & H).
  inversion Hs; subst s0 t0; clear Hs.
  apply rpc_bind_ok in H. destruct H as (oresp & t1 & Hc & H).
  destruct oresp as [resp|]; [|discriminate].
  destruct (Z.eqb_spec (Rpc.status_code resp) 200) as [H200|H200];
    [|destruct (Z.eqb_spec (Rpc.status_code resp) 500) as [H500|H500]];
    cbn [orb negb] in H; try discriminate.
  all: apply rpc_bind_ok in H; destruct H as (j & t2 & Hj & H);
    apply rpc_lift_ok in Hj; destruct Hj as [Hj ->];
    destruct (Rpc.body resp) as [j'|] eqn:Hbody; [|discriminate];
    inversion Hj; subst j'; clear Hj;
    apply rpc_bind_ok in H; destruct H as (has_error & t2 & Hk & H);
    apply rpc_lift_ok in Hk; destruct Hk as [Hk ->];
    destruct j as [| | | | |d]; try discriminate;
    cbn [Rpc.has_key] in Hk; inversion Hk as [Hhas]; clear Hk;
    apply rpc_bind_ok in H; destruct H as (no_error & t2 & Hn & H);
    exists resp, d.
  all: assert (Hfin : t2 = t1
                 /\ (no_error = true ->
                     Rpc.lookup "error" d = None
                     \/ Rpc.lookup "error" d = Some Rpc.JNull));
    [ destruct (Rpc.lookup "error" d) as [err|] eqn:He;
      subst has_error; cbn [negb] in Hn;
      [ apply rpc_bind_ok in Hn; destruct Hn as (err' & t3 & He' & Hn);
        apply rpc_lift_ok in He'; destruct He' as [He' ->];
        cbn [Rpc.subscript] in He'; rewrite He in He';
        inversion He'; subst err'; inversion Hn; subst;
        split; [reflexivity|]; intros Hnone; right;
        destruct err; try discriminate; reflexivity
      | inversion Hn; subst; split; [reflexivity|]; intros _; now left ]
    | ].
  all: destruct Hfin as [-> Herr];
    destruct no_error.
  all: try (apply rpc_lift_ok in H; destruct H as [H ->];
            cbn [Rpc.subscript] in H;
            destruct (Rpc.lookup "result" d) as [v'|] eqn:Hres; [|discriminate];
            inversion H; subst v';
            repeat split; auto).
  all: exfalso;
    apply rpc_bind_ok in H; destruct H as (err & t3 & _ & H);
    apply rpc_bind_ok in H; destruct H as (code & t4 & _ & H);
    destruct (Rpc.eq_int code (-5)); [discriminate|];
    destruct (Rpc.eq_int code (-4)); [|discriminate];
    apply rpc_bind_ok in H; destruct H as (address & t5 & _ & H);
    apply rpc_bind_ok in H; destruct H as (v' & t6 & _ & H);
    apply rpc_bind_ok in H; destruct H as (ismine & t7 & _ & H);
    destruct (Rpc.truthy ismine); discriminate.
Qed.

Lemma rpc_returns_witness :
  exists resp d,
    Rpc.connect
      (Rpc.mkRequest "http://localhost:8332" "getblockcount" [])
      (Rpc.constant_bitcoind
         (Rpc.Answered (Rpc.ok_response Rpc.example_result))) []
    = (inr (Some resp),
       [Rpc.NewSession;
        Rpc.Post (Rpc.mkRequest "http://localhost:8332" "getblockcount" [])])
    /\ (Rpc.status_code resp = 200 \/ Rpc.status_code resp = 500)
    /\ Rpc.body resp = Some (Rpc.JDict d)
    /\ (Rpc.lookup "error" d = None \/ Rpc.lookup "error" d = Some Rpc.JNull)
    /\ Rpc.lookup "result" d = Some (Rpc.JNum 7).
Proof.
  apply (rpc_returns 1 "getblockcount" []
           (Rpc.constant_bitcoind
              (Rpc.Answered (Rpc.ok_response Rpc.example_result)))
           []).
  reflexivity.
Defined.

(** X23.  What [rpc] makes of an error of bitcoind, by its code: -5
    raises [BitcoindError] with the question about [txindex]; -4 looks
    for an address in [params[0]], raising [IndexError] when the call has no
    parameter, asks bitcoind to validate that address and raises
    [BitcoindError] ("Wallet is locked." if the address is in the wallet,
    "Source address not in wallet." if not), or what that call raised; any
    other code raises [BitcoindError] with the error. *)
Theorem rpc_error_handling (fuel : nat) (method : string)
    (params : list Rpc.json) (s : Rpc.surroundings) (t t1 : list Rpc.event)
    (resp : Rpc.response) (err code : Rpc.json) :
  Rpc.connect (Rpc.mkRequest (Rpc.BITCOIND_RPC s) method params) s t
  = (inr (Some resp), t1) ->
  Rpc.error_response resp err ->
  Rpc.subscript err "code" = inr code ->
  Rpc.rpc (S fuel) method params s t
  = if Rpc.eq_int code (-5)
    then (inl (Rpc.BitcoindError "{} Is txindex enabled in Bitcoind?"
                 (Some err)), t1)
    else if Rpc.eq_int code (-4)
    then match params with
         | [] => (inl Rpc.IndexError, t1)
         | address :: _ =>
             match Rpc.rpc fuel "validateaddress" [address] s t1 with
             | (inl x, t2) => (inl x, t2)
             | (inr v, t2) =>
                 match Rpc.subscript v "ismine" with
                 | inl x => (inl x, t2)
                 | inr ismine =>
                     (inl (Rpc.BitcoindError
                             (if Rpc.truthy ismine then "Wallet is locked."
                              else "Source address not in wallet.") None), t2)
                 end
             end
         end
    else (inl (Rpc.BitcoindError "{}" (Some err)), t1).
Proof.
  intros Hc (Hstatus & d & Hbody & Herr & Hnone) Hcode.
  cbn [Rpc.rpc]. unfold Rpc.bind at 1. cbn [Rpc.ask].
  unfold Rpc.bind at 1. rewrite Hc.
  assert (Hs : negb ((Rpc.status_code resp =? 200)
                     || (Rpc.status_code resp =? 500)) = false).
  { destruct Hstatus as [-> | ->]; reflexivity. }
  rewrite Hs, Hbody.
  cbv beta iota zeta delta [Rpc.bind Rpc.lift Rpc.ret Rpc.raise Rpc.has_key
                            Rpc.subscript].
  rewrite Herr. cbn [negb]. rewrite Hnone.
  cbv beta iota zeta delta [Rpc.subscript] in Hcode. rewrite Hcode.
  destruct (Rpc.eq_int code (-5)); [reflexivity|].
  destruct (Rpc.eq_int code (-4)); [|reflexivity].
  destruct params as [|address params]; [reflexivity|]. cbn [Rpc.first].
  destruct (Rpc.rpc fuel "validateaddress" [address] s t1) as [[x|v] t2];
    [reflexivity|].
  destruct v as [| | | | |dv]; try reflexivity.
  destruct (Rpc.lookup "ismine" dv) as [ismine|]; [|reflexivity].
  destruct (Rpc.truthy ismine); reflexivity.
Qed.

Lemma rpc_error_handling_witness :
  Rpc.rpc 2 "listunspent" []
    (Rpc.constant_bitcoind
       (Rpc.Answered (Rpc.ok_response Rpc.example_error_result))) []
  = (inl Rpc.IndexError,
     [Rpc.NewSession;
      Rpc.Post (Rpc.mkRequest "http://localhost:8332" "listunspent" [])]).
Proof.
  apply (rpc_error_handling 1 "listunspent" []
           (Rpc.constant_bitcoind
              (Rpc.Answered (Rpc.ok_response Rpc.example_error_result)))
           [] _ (Rpc.ok_response Rpc.example_error_result)
           Rpc.example_error (Rpc.JNum (-4))).
  - reflexivity.
  - split; [now left|]. eexists. repeat split.
  - reflexivity.
Defined.

(** One call of [rpc] is one call of [connect], followed at most by a call
    of [rpc] for [validateaddress]. *)
Lemma rpc_step (fuel : nat) (method : string) (params : list Rpc.json)
    (s : Rpc.surroundings) (t t' : list Rpc.event) (r : Rpc.exn + Rpc.json) :
  Rpc.rpc (S fuel) method params s t = (r, t') ->
  exists c t1,
    Rpc.connect (Rpc.mkRequest (Rpc.BITCOIND_RPC s) method params) s t = (c, t1)
    /\ (t' = t1
        \/ exists a r2, Rpc.rpc fuel "validateaddress" [a] s t1 = (r2, t')).
Proof.
  cbn [Rpc.rpc].
  cbv beta iota zeta delta [Rpc.bind Rpc.lift Rpc.ret Rpc.raise Rpc.ask].
  destruct (Rpc.connect _ s t) as [c t1]. exists c, t1.
  split; [reflexivity|]. revert H.
  assert (Hfin : forall x : Rpc.exn + Rpc.json,
             (x, t1) = (r, t') ->
             t' = t1 \/ exists a r2,
                          Rpc.rpc fuel "validateaddress" [a] s t1 = (r2, t')).
  { intros x E. inversion E. now left. }
  destruct c as [x|[resp|]]; try solve [apply Hfin].
  destruct (negb _); try solve [apply Hfin].
  destruct (Rpc.body resp) as [j|]; try solve [apply Hfin].
  destruct (Rpc.has_key j "error") as [x|[|]]; try solve [apply Hfin];
    cbn [negb].
  destruct (Rpc.subscript j "error") as [x|err]; try solve [apply Hfin].
  destruct (Rpc.is_none err); try solve [apply Hfin].
  destruct (Rpc.subscript err "code") as [x|code]; try solve [apply Hfin].
  destruct (Rpc.eq_int code (-5)); try solve [apply Hfin].
  destruct (Rpc.eq_int code (-4)); try solve [apply Hfin].
  destruct (Rpc.first params) as [x|a]; try solve [apply Hfin].
  destruct (Rpc.rpc fuel "validateaddress" [a] s t1) as [[x|v] t2] eqn:E.
  - intros H. inversion H; subst. right. eauto.
  - assert (Hr : forall x : Rpc.exn + Rpc.json,
               (x, t2) = (r, t') ->
               t' = t1 \/ exists a r2,
                            Rpc.rpc fuel "validateaddress" [a] s t1 = (r2, t')).
    { intros x E'. inversion E'; subst. right. eauto. }
    destruct (Rpc.subscript v "ismine") as [x|ismine]; try solve [apply Hr].
    destruct (Rpc.truthy ismine); apply Hr.
Qed.

(** The requests that a call of [rpc] posts are its own, or ask to
    validate an address. *)
Lemma rpc_posts (fuel : nat) (method : string) (params : list Rpc.json)
    (s : Rpc.surroundings) (t t' : list Rpc.event) (r : Rpc.exn + Rpc.json) :
  Rpc.rpc fuel method params s t = (r, t') ->
  exists l,
    t' = t ++ l
    /\ Forall (fun q => (Rpc.method q = method /\ Rpc.params q = params)
                        \/ Rpc.method q = "validateaddress"%string)
         (Rpc.posts l).
Proof.
  revert method params t t' r.
  induction fuel as [|fuel IH]; intros method params t t' r H.
  - inversion H; subst. exists []. rewrite app_nil_r. split; constructor.
  - apply rpc_step in H. destruct H as (c & t1 & Hc & Hrest).
    apply connect_posts in Hc. destruct Hc as (l1 & -> & Hall).
    assert (H1 : Forall (fun q => (Rpc.method q = method
                                   /\ Rpc.params q = params)
                                  \/ Rpc.method q = "validateaddress"%string)
                   (Rpc.posts l1)).
    { eapply Forall_impl; [|exact Hall]. intros q <-. left. split; reflexivity. }
    destruct Hrest as [->|(a & r2 & H2)].
    + now exists l1.
    + apply IH in H2. destruct H2 as (l2 & -> & Hall2).
      exists (l1 ++ l2). split; [now rewrite app_assoc|].
      rewrite posts_app. apply Forall_app. split; [exact H1|].
      eapply Forall_impl; [|exact Hall2]. intros q [[Hm _]|Hm]; now right.
Qed.

(** X24.  [transmit] never sends an unsigned or partly signed
    transaction: whenever a [sendrawtransaction] request is posted, the call
    of [signrawtransaction] had returned a result whose ["complete"] is true,
    and what is sent is the ["hex"] of that result. *)
Theorem transmit_broadcasts_signed (fuel : nat) (unsigned_tx_hex : string)
    (s : Rpc.surroundings) (t t' : list Rpc.event) (r : Rpc.exn + Rpc.json) :
  Rpc.transmit fuel unsigned_tx_hex s t = (r, t') ->
  exists l,
    t' = t ++ l
    /\ forall q,
         In q (Rpc.posts l) ->
         Rpc.method q = "sendrawtransaction"%string ->
         exists result t1 complete signed_tx_hex,
           Rpc.rpc fuel "signrawtransaction" [Rpc.JStr unsigned_tx_hex] s t
           = (inr result, t1)
           /\ Rpc.subscript result "complete" = inr complete
           /\ Rpc.truthy complete = true
           /\ Rpc.subscript result "hex" = inr signed_tx_hex
           /\ Rpc.params q = [signed_tx_hex].
Proof.
  unfold Rpc.transmit.
  cbv beta iota zeta delta [Rpc.bind Rpc.lift Rpc.ret].
  destruct (Rpc.rpc fuel "signrawtransaction" [Rpc.JStr unsigned_tx_hex] s t)
    as [[x|result] t1] eqn:H1.
  all: destruct (rpc_posts _ _ _ _ _ _ _ H1) as (l1 & -> & Hall1).
  all: assert (Hno : forall q, In q (Rpc.posts l1) ->
                       Rpc.method q = "sendrawtransaction"%string -> False);
    [ intros q Hq Hm; rewrite Forall_forall in Hall1;
      destruct (Hall1 q Hq) as [[Hm' _]|Hm']; rewrite Hm in Hm'; discriminate
    | ].
  - intros H. inversion H; subst. exists l1. split; [reflexivity|].
    intros q Hq Hm. destruct (Hno q Hq Hm).
  - destruct (Rpc.subscript result "complete") as [x|complete] eqn:Hc.
    { intros H. inversion H; subst. exists l1. split; [reflexivity|].
      intros q Hq Hm. destruct (Hno q Hq Hm). }
    destruct (Rpc.truthy complete) eqn:Ht.
    2:{ intros H. inversion H; subst. exists l1. split; [reflexivity|].
        intros q Hq Hm. destruct (Hno q Hq Hm). }
    destruct (Rpc.subscript result "hex") as [x|signed] eqn:Hh.
    { intros H. inversion H; subst. exists l1. split; [reflexivity|].
      intros q Hq Hm. destruct (Hno q Hq Hm). }
    intros H2. destruct (rpc_posts _ _ _ _ _ _ _ H2) as (l2 & -> & Hall2).
    exists (l1 ++ l2). split; [now rewrite app_assoc|].
    intros q Hq Hm. rewrite posts_app in Hq. apply in_app_or in Hq.
    destruct Hq as [Hq|Hq]; [destruct (Hno q Hq Hm)|].
    rewrite Forall_forall in Hall2.
    destruct (Hall2 q Hq) as [[_ Hp]|Hm']; [|rewrite Hm in Hm'; discriminate].
    exists result, (t ++ l1), complete, signed. auto.
Qed.

Lemma transmit_broadcasts_signed_witness :
  exists l,
    [Rpc.NewSession;
     Rpc.Post (Rpc.mkRequest "http://localhost:8332" "signrawtransaction"
                 [Rpc.JStr "01000000000000000000"]);
     Rpc.Post (Rpc.mkRequest "http://localhost:8332" "sendrawtransaction"
                 [Rpc.JStr "0100000000000000000000"])]
    = [] ++ l
    /\ forall q,
         In q (Rpc.posts l) ->
         Rpc.method q = "sendrawtransaction"%string ->
         exists result t1 complete signed_tx_hex,
           Rpc.rpc 1 "signrawtransaction" [Rpc.JStr "01000000000000000000"]
             Rpc.signing_bitcoind []
           = (inr result, t1)
           /\ Rpc.subscript result "complete" = inr complete
           /\ Rpc.truthy complete = true
           /\ Rpc.subscript result "hex" = inr signed_tx_hex
           /\ Rpc.params q = [signed_tx_hex].
Proof.
  apply (transmit_broadcasts_signed 1 "01000000000000000000"
           Rpc.signing_bitcoind [] _ (inr (Rpc.JStr "ae241be7"))).
  reflexivity.
Defined.
